(** * Atomic-swap core: a shallow embedding of the HTLC builder, the
      EthEscrow contract, the escrow manager and the swap coordinator.

    Sources embedded here:
    - [btc/htlc.ts]: [createHTLCScript], [buildFundingTx], [buildRedeemTx],
      [buildRefundTx], [extractSecretFromTx];
    - the Solidity contract [EthEscrow] (constructor, [claim], [refund]);
    - [eth/escrow.ts]: [EthEscrowManager.generateHashlock], [claim];
    - [api/server.ts]: [generateHashlock] and the route handlers over the
      [swaps] table of [db/setup.ts].

    Buffers are lists of bytes, satoshi and wei amounts and timestamps are
    integers, the [swaps] table is a finite map from row id to row, and a row
    handed to [res.json] is a JavaScript object, i.e. a finite map from
    column name to value. *)

From Stdlib Require Import ZArith String Ascii List Lia Bool.
From Stdlib.Strings Require Import Byte.
From stdpp Require Import gmap strings list fin_maps.
Import ListNotations.

(** ** Buffers and hexadecimal strings *)

#[global] Instance byte_eq_decision : EqDecision byte := Byte.byte_eq_dec.

Module Buf.
Local Open Scope Z_scope.

Definition Z_of_byte (b : byte) : Z := Z.of_N (Byte.to_N b).

Definition byte_of_Z (z : Z) : byte :=
  match Byte.of_N (Z.to_N (z mod 256)) with
  | Some b => b
  | None => x00
  end.

(** Big-endian and little-endian serialisations of the low [8*n] bits. *)
Fixpoint be_bytes (n : nat) (z : Z) : list byte :=
  match n with
  | O => []
  | S n' => be_bytes n' (Z.shiftr z 8) ++ [byte_of_Z z]
  end.

Fixpoint le_bytes (n : nat) (z : Z) : list byte :=
  match n with
  | O => []
  | S n' => byte_of_Z z :: le_bytes n' (Z.shiftr z 8)
  end.

Definition be_word (bs : list byte) : Z :=
  fold_left (fun acc b => Z.lor (Z.shiftl acc 8) (Z_of_byte b)) bs 0.

Definition le_word (bs : list byte) : Z :=
  fold_right (fun b acc => Z.lor (Z.shiftl acc 8) (Z_of_byte b)) 0 bs.

(** Cut a list into pieces of [n] elements (the last one may be shorter). *)
Fixpoint chunks_aux {A} (fuel n : nat) (l : list A) : list (list A) :=
  match fuel with
  | O => []
  | S f =>
      match l with
      | [] => []
      | _ => firstn n l :: chunks_aux f n (skipn n l)
      end
  end.

Definition chunks {A} (n : nat) (l : list A) : list (list A) :=
  chunks_aux (length l) n l.

Definition hex_digit (z : Z) : ascii :=
  ascii_of_nat (Z.to_nat (if z <? 10 then 48 + z else 87 + z)).

(** Lower-case hexadecimal, two digits per byte: [digest('hex')]. *)
Fixpoint toHex (bs : list byte) : string :=
  match bs with
  | [] => EmptyString
  | b :: r =>
      String (hex_digit (Z_of_byte b / 16))
        (String (hex_digit (Z_of_byte b mod 16)) (toHex r))
  end.

Definition hex_value (c : ascii) : option Z :=
  let n := Z.of_nat (nat_of_ascii c) in
  if (48 <=? n) && (n <=? 57) then Some (n - 48)
  else if (97 <=? n) && (n <=? 102) then Some (n - 87)
  else if (65 <=? n) && (n <=? 70) then Some (n - 55)
  else None.

(** [Buffer.from(s, 'hex')]: pairs of digits are decoded from the left and
    decoding stops at the first pair that is not hexadecimal; an odd
    trailing digit is dropped. *)
Fixpoint fromHex (s : string) : list byte :=
  match s with
  | String c1 (String c2 r) =>
      match hex_value c1, hex_value c2 with
      | Some h, Some l => byte_of_Z (16 * h + l) :: fromHex r
      | _, _ => []
      end
  | _ => []
  end.

(** Strict decoding, as ethers' [getBytes] does after the [0x] prefix:
    every character must be a digit and the length must be even. *)
Fixpoint fromHexStrict (s : string) : option (list byte) :=
  match s with
  | EmptyString => Some []
  | String c1 (String c2 r) =>
      match hex_value c1, hex_value c2, fromHexStrict r with
      | Some h, Some l, Some bs => Some (byte_of_Z (16 * h + l) :: bs)
      | _, _, _ => None
      end
  | _ => None
  end.

End Buf.

(** ** SHA-256 (FIPS 180-4): Node's [createHash('sha256')], Solidity's
       [sha256] and the script opcode [OP_SHA256] *)

Module SHA256.
Import Buf.
Local Open Scope Z_scope.

Definition mask32 : Z := 4294967295.
Definition add32 (a b : Z) : Z := Z.land (a + b) mask32.
Definition rotr (n x : Z) : Z :=
  Z.lor (Z.shiftr x n) (Z.land (Z.shiftl x (32 - n)) mask32).
Definition not32 (x : Z) : Z := Z.lxor x mask32.

Definition Ch (x y z : Z) : Z := Z.lxor (Z.land x y) (Z.land (not32 x) z).
Definition Maj (x y z : Z) : Z :=
  Z.lxor (Z.lxor (Z.land x y) (Z.land x z)) (Z.land y z).
Definition bsig0 (x : Z) : Z := Z.lxor (Z.lxor (rotr 2 x) (rotr 13 x)) (rotr 22 x).
Definition bsig1 (x : Z) : Z := Z.lxor (Z.lxor (rotr 6 x) (rotr 11 x)) (rotr 25 x).
Definition ssig0 (x : Z) : Z := Z.lxor (Z.lxor (rotr 7 x) (rotr 18 x)) (Z.shiftr x 3).
Definition ssig1 (x : Z) : Z := Z.lxor (Z.lxor (rotr 17 x) (rotr 19 x)) (Z.shiftr x 10).

Definition K : list Z :=
  [1116352408; 1899447441; 3049323471; 3921009573; 961987163; 1508970993;
   2453635748; 2870763221; 3624381080; 310598401; 607225278; 1426881987;
   1925078388; 2162078206; 2614888103; 3248222580; 3835390401; 4022224774;
   264347078; 604807628; 770255983; 1249150122; 1555081692; 1996064986;
   2554220882; 2821834349; 2952996808; 3210313671; 3336571891; 3584528711;
   113926993; 338241895; 666307205; 773529912; 1294757372; 1396182291;
   1695183700; 1986661051; 2177026350; 2456956037; 2730485921; 2820302411;
   3259730800; 3345764771; 3516065817; 3600352804; 4094571909; 275423344;
   430227734; 506948616; 659060556; 883997877; 958139571; 1322822218;
   1537002063; 1747873779; 1955562222; 2024104815; 2227730452; 2361852424;
   2428436474; 2756734187; 3204031479; 3329325298].

Definition H0 : list Z :=
  [1779033703; 3144134277; 1013904242; 2773480762;
   1359893119; 2600822924; 528734635; 1541459225].

Definition pad (msg : list byte) : list byte :=
  let len := Z.of_nat (length msg) in
  msg ++ [x80] ++ repeat x00 (Z.to_nat ((55 - len) mod 64))
      ++ be_bytes 8 (8 * len).

(** The message schedule, kept with the most recent word first. *)
Fixpoint extend (n : nat) (rw : list Z) : list Z :=
  match n with
  | O => rw
  | S n' =>
      let w := add32 (add32 (ssig1 (nth 1 rw 0)) (nth 6 rw 0))
                     (add32 (ssig0 (nth 14 rw 0)) (nth 15 rw 0)) in
      extend n' (w :: rw)
  end.

Definition schedule (blk : list Z) : list Z := rev (extend 48 (rev blk)).

Definition round (st : list Z) (kw : Z * Z) : list Z :=
  match st with
  | [a; b; c; d; e; f; g; h] =>
      let t1 := add32 (add32 (add32 h (bsig1 e)) (add32 (Ch e f g) (fst kw))) (snd kw) in
      let t2 := add32 (bsig0 a) (Maj a b c) in
      [add32 t1 t2; a; b; c; add32 d t1; e; f; g]
  | _ => st
  end.

Definition compress (h : list Z) (blk : list byte) : list Z :=
  let w := schedule (map be_word (chunks 4 blk)) in
  map (fun p => add32 (fst p) (snd p))
      (combine h (fold_left round (combine K w) h)).

Definition sha256 (msg : list byte) : list byte :=
  concat (map (be_bytes 4) (fold_left compress (chunks 64 (pad msg)) H0)).

End SHA256.

(** ** Keccak-256 (rate 1088, capacity 512, original Keccak padding):
       ethers' [keccak256] *)

Module Keccak.
Import Buf.
Local Open Scope Z_scope.

Definition mask64 : Z := 18446744073709551615.
Definition rol (v : Z) (n : Z) : Z :=
  if n =? 0 then v
  else Z.land (Z.lor (Z.shiftl v n) (Z.shiftr v (64 - n))) mask64.

Definition RC : list Z :=
  [1; 32898; 9223372036854808714; 9223372039002292224; 32907; 2147483649;
   9223372039002292353; 9223372036854808585; 138; 136; 2147516425;
   2147483658; 2147516555; 9223372036854775947; 9223372036854808713;
   9223372036854808579; 9223372036854808578; 9223372036854775936; 32778;
   9223372039002259466; 9223372039002292353; 9223372036854808704;
   2147483649; 9223372039002292232].

(** Rotation offsets, lane [(x, y)] at index [x + 5 * y]. *)
Definition ROT : list Z :=
  [0; 1; 62; 28; 27; 36; 44; 6; 55; 20; 3; 10; 43; 25; 39; 41; 45; 15; 21;
   8; 18; 2; 61; 56; 14].

Definition lane (A : list Z) (x y : nat) : Z :=
  nth (x mod 5 + 5 * y)%nat A 0.

Definition theta (A : list Z) : list Z :=
  let C x := Z.lxor (Z.lxor (Z.lxor (Z.lxor (lane A x 0) (lane A x 1))
                     (lane A x 2)) (lane A x 3)) (lane A x 4) in
  let Cs := map C (seq 0 5) in
  let Cn x := nth (x mod 5)%nat Cs 0 in
  map (fun i => Z.lxor (nth i A 0)
                  (Z.lxor (Cn (i mod 5 + 4)%nat) (rol (Cn (i mod 5 + 1)%nat) 1)))
      (seq 0 25).

(** rho and pi together: destination lane [(X, Y)] receives source lane
    [((X + 3 Y) mod 5, X)] rotated by its offset. *)
Definition rho_pi (A : list Z) : list Z :=
  map (fun j =>
         let X := (j mod 5)%nat in
         let Y := (j / 5)%nat in
         let x := ((X + 3 * Y) mod 5)%nat in
         rol (lane A x X) (nth (x + 5 * X)%nat ROT 0))
      (seq 0 25).

Definition chi (B : list Z) : list Z :=
  map (fun i =>
         let x := (i mod 5)%nat in
         let y := (i / 5)%nat in
         Z.lxor (lane B x y)
           (Z.land (Z.lxor (lane B (x + 1) y) mask64) (lane B (x + 2) y)))
      (seq 0 25).

Definition iota (rc : Z) (A : list Z) : list Z :=
  match A with
  | a :: r => Z.lxor a rc :: r
  | [] => []
  end.

Definition keccak_round (A : list Z) (rc : Z) : list Z :=
  iota rc (chi (rho_pi (theta A))).

Definition keccak_f (A : list Z) : list Z := fold_left keccak_round RC A.

Definition rate : nat := 136.

Definition pad (msg : list byte) : list byte :=
  let q := (rate - length msg mod rate)%nat in
  if (q =? 1)%nat then msg ++ [x81]
  else msg ++ [x01] ++ repeat x00 (q - 2) ++ [x80].

Fixpoint xor_lanes (A : list Z) (ls : list Z) : list Z :=
  match A, ls with
  | a :: A', l :: ls' => Z.lxor a l :: xor_lanes A' ls'
  | _, _ => A
  end.

Definition absorb (A : list Z) (blk : list byte) : list Z :=
  keccak_f (xor_lanes A (map le_word (chunks 8 blk))).

Definition keccak256 (msg : list byte) : list byte :=
  let A := fold_left absorb (chunks rate (pad msg)) (repeat 0 25) in
  concat (map (le_bytes 8) (firstn 4 A)).

End Keccak.

(** ** Exceptions: a thrown error aborts the rest of the function body *)

Inductive result (E A : Type) : Type :=
| Ok (a : A)
| Err (e : E).
Arguments Ok {E A} a.
Arguments Err {E A} e.

#[global] Instance result_ret {E} : MRet (result E) := fun _ a => Ok a.
#[global] Instance result_bind {E} : MBind (result E) :=
  fun _ _ f m => match m with Ok a => f a | Err e => Err e end.

Definition is_ok {E A} (r : result E A) : bool :=
  match r with Ok _ => true | Err _ => false end.

(** ** [btc/htlc.ts] *)

Module Btc.
Local Open Scope Z_scope.

(** *** The redeem script, before [bitcoin.script.compile] *)

Inductive opcode :=
| OP_IF | OP_SHA256 | OP_EQUALVERIFY | OP_CHECKSIG | OP_ELSE
| OP_CHECKLOCKTIMEVERIFY | OP_DROP | OP_ENDIF.

Inductive chunk :=
| Op (o : opcode)
| Push (data : list byte)
| PushNum (n : Z).

Record HTLCParams := {
  hashlock : list byte;
  recipientPubkey : list byte;
  refundPubkey : list byte;
  locktime : Z
}.

Record HTLCScript := {
  redeemScript : list byte;
  address : string;
  scriptPubKey : list byte
}.

(** The chunk list handed to [bitcoin.script.compile]; [PushNum] stands for
    [bitcoin.script.number.encode(locktime)]. *)
Definition htlcChunks (params : HTLCParams) : list chunk :=
  [ Op OP_IF;
      Op OP_SHA256; Push (hashlock params); Op OP_EQUALVERIFY;
      Push (recipientPubkey params); Op OP_CHECKSIG;
    Op OP_ELSE;
      PushNum (locktime params); Op OP_CHECKLOCKTIMEVERIFY; Op OP_DROP;
      Push (refundPubkey params); Op OP_CHECKSIG;
    Op OP_ENDIF ].

Inductive script_error := PaymentFailure.

Section Script.

(** [bitcoin.script.compile] serialises the chunks; [bitcoin.payments.p2wsh]
    derives the address and the output script from the witness script, and
    may leave them undefined. *)
Variable compile : list chunk -> list byte.
Variable p2wsh : list byte -> option string * option (list byte).

Definition createHTLCScript (params : HTLCParams) : result script_error HTLCScript :=
  let redeemScript := compile (htlcChunks params) in
  match p2wsh redeemScript with
  | (Some address, Some output) =>
      Ok {| redeemScript := redeemScript; address := address;
            scriptPubKey := output |}
  | _ => Err PaymentFailure
  end.

End Script.

(** *** Transactions and the PSBT under construction *)

Record TxInput := {
  in_hash : string;
  in_index : Z;
  in_sequence : Z;
  witness : list (list byte)
}.

Record TxOutput := {
  out_address : string;
  out_value : Z
}.

Record Transaction := {
  tx_locktime : Z;
  ins : list TxInput;
  outs : list TxOutput
}.

(** An entry of [input.partialSig]. *)
Record PartialSig := {
  ps_pubkey : list byte;
  ps_signature : list byte
}.

Record PsbtInput := {
  pi_hash : string;
  pi_index : Z;
  pi_script : list byte;
  pi_value : Z;
  pi_witnessScript : option (list byte);
  pi_sequence : Z;
  pi_partialSig : list PartialSig;
  pi_final : option (list (list byte))
}.

Record Psbt := {
  psbt_locktime : Z;
  psbt_inputs : list PsbtInput;
  psbt_outputs : list TxOutput
}.

Inductive error :=
| InvalidInput            (* addInput: the hash is not 32 bytes, or the index no uint32 *)
| DuplicateInput          (* addInput: "Duplicate input detected." *)
| InvalidAddress          (* addOutput: the address has no matching script *)
| InvalidSatoshi          (* addOutput: value is not a satoshi amount *)
| InvalidLocktime         (* setLocktime: not an unsigned 32-bit value *)
| NoSuchInput             (* "No input #i": index out of range *)
| CannotSign              (* signInput: the key or the input is refused *)
| NoSignature             (* partialSig[0] is undefined *)
| InvalidFinalWitness     (* finalizeInput: finalScriptWitness is not a Buffer *)
| NotFinalized            (* extractTransaction: an input is not finalized *)
| OutputsExceedInputs.    (* extractTransaction: negative fee *)

Definition SATOSHI_MAX : Z := 2100000000000000.
Definition DEFAULT_SEQUENCE : Z := 4294967295.

Definition newPsbt : Psbt :=
  {| psbt_locktime := 0; psbt_inputs := []; psbt_outputs := [] |}.

Definition setLocktime (p : Psbt) (lt : Z) : result error Psbt :=
  if (0 <=? lt) && (lt <=? 4294967295)
  then Ok {| psbt_locktime := lt; psbt_inputs := psbt_inputs p;
             psbt_outputs := psbt_outputs p |}
  else Err InvalidLocktime.

(** The previous output an input spends: the bytes of its transaction id
    and its index. *)
Definition spent (hash : string) (index : Z) : list byte * Z :=
  (Buf.fromHex hash, index).

Definition validOutpoint (hash : string) (index : Z) : bool :=
  (length (Buf.fromHex hash) =? 32)%nat && (0 <=? index) && (index <=? 4294967295).

(** [addInput]: the hash, given as hexadecimal text, must decode to 32
    bytes and the index be an unsigned 32-bit number; an output that an
    earlier input already spends is refused. *)
Definition addInput (p : Psbt) (i : PsbtInput) : result error Psbt :=
  if negb (validOutpoint (pi_hash i) (pi_index i)) then Err InvalidInput
  else if existsb (fun j => bool_decide (spent (pi_hash j) (pi_index j)
                                         = spent (pi_hash i) (pi_index i)))
                  (psbt_inputs p)
  then Err DuplicateInput
  else Ok {| psbt_locktime := psbt_locktime p;
             psbt_inputs := psbt_inputs p ++ [i];
             psbt_outputs := psbt_outputs p |}.

(** The library's type of satoshi amounts. *)
Definition satoshi (v : Z) : bool := (0 <=? v) && (v <=? SATOSHI_MAX).

Definition mkOutput (addr : string) (v : Z) : TxOutput :=
  {| out_address := addr; out_value := v |}.

Definition with_inputs (p : Psbt) (l : list PsbtInput) : Psbt :=
  {| psbt_locktime := psbt_locktime p; psbt_inputs := l;
     psbt_outputs := psbt_outputs p |}.

Definition set_partialSig (i : PsbtInput) (sig : PartialSig) : PsbtInput :=
  {| pi_hash := pi_hash i; pi_index := pi_index i; pi_script := pi_script i;
     pi_value := pi_value i; pi_witnessScript := pi_witnessScript i;
     pi_sequence := pi_sequence i;
     pi_partialSig := pi_partialSig i ++ [sig];
     pi_final := pi_final i |}.

Definition set_final (i : PsbtInput) (w : list (list byte)) : PsbtInput :=
  {| pi_hash := pi_hash i; pi_index := pi_index i; pi_script := pi_script i;
     pi_value := pi_value i; pi_witnessScript := pi_witnessScript i;
     pi_sequence := pi_sequence i;
     pi_partialSig := pi_partialSig i;
     pi_final := Some w |}.

Definition sum_values {A} (f : A -> Z) (l : list A) : Z :=
  fold_left (fun acc x => acc + f x) l 0.

Definition finalized (i : PsbtInput) : bool :=
  match pi_final i with Some _ => true | None => false end.

Definition tx_input_of (i : PsbtInput) : TxInput :=
  {| in_hash := pi_hash i; in_index := pi_index i;
     in_sequence := pi_sequence i;
     witness := match pi_final i with Some w => w | None => [] end |}.

(** [extractTransaction]: every input must be finalized and the outputs
    must not spend more than the inputs.  (The library's upper bound on the
    fee rate is far above the fees these builders can produce.) *)
Definition extractTransaction (p : Psbt) : result error Transaction :=
  if negb (forallb finalized (psbt_inputs p)) then Err NotFinalized
  else if sum_values pi_value (psbt_inputs p) - sum_values out_value (psbt_outputs p) <? 0
  then Err OutputsExceedInputs
  else Ok {| tx_locktime := psbt_locktime p;
             ins := map tx_input_of (psbt_inputs p);
             outs := psbt_outputs p |}.

Record Utxo := {
  txid : string;
  vout : Z;
  value : Z;
  utxo_scriptPubKey : list byte
}.

Record HtlcUtxo := {
  h_txid : string;
  h_vout : Z;
  h_value : Z
}.

(** What a finalizer hands back as [finalScriptWitness].  The library's own
    finalizers return one Buffer, the serialised witness stack, which
    [extractTransaction] reads back into the stack; [script.toStack] returns
    the array of the items themselves. *)
Inductive FinalScriptWitness :=
| SerializedWitness (stack : list (list byte))
| WitnessItems (items : list (list byte)).

(** [input.partialSig![0].signature] *)
Definition firstSignature (input : PsbtInput) : result error (list byte) :=
  match pi_partialSig input with
  | ps :: _ => Ok (ps_signature ps)
  | [] => Err NoSignature
  end.

(** [finalizeInput(i, f)]: [f] computes [finalScriptWitness] from the signed
    input, and the library stores it after checking that it is a Buffer. *)
Definition finalizeInput (p : Psbt) (i : nat)
    (f : PsbtInput -> result error FinalScriptWitness) : result error Psbt :=
  match psbt_inputs p !! i with
  | Some inp =>
      w ← f inp;
      match w with
      | SerializedWitness stack =>
          Ok (with_inputs p (<[i := set_final inp stack]> (psbt_inputs p)))
      | WitnessItems _ => Err InvalidFinalWitness
      end
  | None => Err NoSuchInput
  end.

(** The library's own finalizer for the wallet's key-hash inputs: the
    witness is the signature followed by the public key. *)
Definition keyHashFinalizer (input : PsbtInput) : result error FinalScriptWitness :=
  match pi_partialSig input with
  | ps :: _ => Ok (SerializedWitness [ps_signature ps; ps_pubkey ps])
  | [] => Err NoSignature
  end.

(** [finalizeAllInputs()]: there must be an input #0. *)
Definition finalizeAllInputs (p : Psbt) : result error Psbt :=
  match psbt_inputs p with
  | [] => Err NoSuchInput
  | _ =>
      fold_left (fun acc i => p' ← acc; finalizeInput p' i keyHashFinalizer)
                (seq 0 (length (psbt_inputs p))) (Ok p)
  end.

(** The input [psbt.addInput({hash, index, witnessUtxo})] adds for a
    wallet output. *)
Definition fundingInput (u : Utxo) : PsbtInput :=
  {| pi_hash := txid u; pi_index := vout u;
     pi_script := utxo_scriptPubKey u; pi_value := value u;
     pi_witnessScript := None; pi_sequence := DEFAULT_SEQUENCE;
     pi_partialSig := []; pi_final := None |}.

(** [for (const utxo of utxos) { psbt.addInput(...); totalInput += utxo.value }] *)
Definition addUtxos (utxos : list Utxo) (p : Psbt) : result error (Psbt * Z) :=
  fold_left
    (fun (acc : result error (Psbt * Z)) (u : Utxo) =>
       st ← acc;
       p' ← addInput (fst st) (fundingInput u);
       Ok (p', snd st + value u))
    utxos (Ok (p, 0)).

Definition htlcInput (u : HtlcUtxo) (s : HTLCScript) (sequence : Z) : PsbtInput :=
  {| pi_hash := h_txid u; pi_index := h_vout u;
     pi_script := scriptPubKey s; pi_value := h_value u;
     pi_witnessScript := Some (redeemScript s); pi_sequence := sequence;
     pi_partialSig := []; pi_final := None |}.

(** The arrays the two spending builders pass to [script.toStack]. *)
Definition redeemWitness (signature secret : list byte) (s : HTLCScript)
    : list (list byte) :=
  [signature; secret; [x01]; redeemScript s].

Definition refundWitness (signature : list byte) (s : HTLCScript)
    : list (list byte) :=
  [signature; [x00]; redeemScript s].

(** The finalizers of the two spending builders: each returns what
    [script.toStack] returns as [finalScriptWitness]. *)
Definition redeemFinalizer (secret : list byte) (s : HTLCScript)
    (input : PsbtInput) : result error FinalScriptWitness :=
  signature ← firstSignature input;
  Ok (WitnessItems (redeemWitness signature secret s)).

Definition refundFinalizer (s : HTLCScript) (input : PsbtInput)
    : result error FinalScriptWitness :=
  signature ← firstSignature input;
  Ok (WitnessItems (refundWitness signature s)).

Section Builders.

(** Key pairs, ECDSA signing and address decoding belong to the wallet
    libraries: a key pair has a public key and signs input [i] of a PSBT.
    [canSign k script witnessScript value] tells whether [signInput] lets
    the key sign an input whose previous output has that script and value:
    the script, or the witness script it commits to, must be of a kind the
    library signs for and pay to the key, and the value be a satoshi amount.
    [validAddress a] tells whether [a] decodes to an output script on the
    network in use. *)
Variable KeyPair : Type.
Variable publicKey : KeyPair -> list byte.
Variable sign : KeyPair -> Psbt -> nat -> list byte.
Variable canSign : KeyPair -> list byte -> option (list byte) -> Z -> bool.
Variable validAddress : string -> bool.

(** [addOutput] decodes the address, then type-checks the value as a
    satoshi amount. *)
Definition addOutput (p : Psbt) (addr : string) (value : Z) : result error Psbt :=
  if negb (validAddress addr) then Err InvalidAddress
  else if satoshi value
  then Ok {| psbt_locktime := psbt_locktime p;
             psbt_inputs := psbt_inputs p;
             psbt_outputs := psbt_outputs p ++ [mkOutput addr value] |}
  else Err InvalidSatoshi.

(** [signInput(i, keyPair)] adds the key's signature to [partialSig]. *)
Definition signInput (p : Psbt) (i : nat) (k : KeyPair) : result error Psbt :=
  match psbt_inputs p !! i with
  | Some inp =>
      if canSign k (pi_script inp) (pi_witnessScript inp) (pi_value inp)
      then Ok (with_inputs p
                 (<[i := set_partialSig inp
                           {| ps_pubkey := publicKey k; ps_signature := sign k p i |}]>
                    (psbt_inputs p)))
      else Err CannotSign
  | None => Err NoSuchInput
  end.

Definition signAll (n : nat) (p : Psbt) (k : KeyPair) : result error Psbt :=
  fold_left (fun acc i => p' ← acc; signInput p' i k) (seq 0 n) (Ok p).

Definition buildFundingTx (utxos : list Utxo) (htlcAddress : string)
    (amount : Z) (changeAddress : string) (keyPair : KeyPair)
    : result error Transaction :=
  let psbt := newPsbt in
  st ← addUtxos utxos psbt;
  let (psbt, totalInput) := st : Psbt * Z in
  psbt ← addOutput psbt htlcAddress amount;
  let fee := 1000 in
  let change := totalInput - amount - fee in
  psbt ← (if 546 <? change then addOutput psbt changeAddress change else Ok psbt);
  psbt ← signAll (length utxos) psbt keyPair;
  psbt ← finalizeAllInputs psbt;
  extractTransaction psbt.

Definition buildRedeemTx (htlcUtxo : HtlcUtxo) (htlcScript : HTLCScript)
    (recipientAddress : string) (secret : list byte) (recipientKeyPair : KeyPair)
    : result error Transaction :=
  let psbt := newPsbt in
  psbt ← addInput psbt (htlcInput htlcUtxo htlcScript DEFAULT_SEQUENCE);
  let fee := 1000 in
  psbt ← addOutput psbt recipientAddress (h_value htlcUtxo - fee);
  psbt ← signInput psbt 0 recipientKeyPair;
  psbt ← finalizeInput psbt 0 (redeemFinalizer secret htlcScript);
  extractTransaction psbt.

Definition buildRefundTx (htlcUtxo : HtlcUtxo) (htlcScript : HTLCScript)
    (refundAddress : string) (refundKeyPair : KeyPair) (locktime : Z)
    : result error Transaction :=
  let psbt := newPsbt in
  psbt ← setLocktime psbt locktime;
  psbt ← addInput psbt (htlcInput htlcUtxo htlcScript 4294967294);
  let fee := 1000 in
  psbt ← addOutput psbt refundAddress (h_value htlcUtxo - fee);
  psbt ← signInput psbt 0 refundKeyPair;
  psbt ← finalizeInput psbt 0 (refundFinalizer htlcScript);
  extractTransaction psbt.

(** Wallet outputs [buildFundingTx] can spend with the key: at least one,
    each a well-formed and distinct previous output that the key can
    sign for. *)
Definition fundable (utxos : list Utxo) (k : KeyPair) : Prop :=
  utxos <> [] /\
  Forall (fun u => validOutpoint (txid u) (vout u) = true) utxos /\
  NoDup (map (fun u => spent (txid u) (vout u)) utxos) /\
  Forall (fun u => canSign k (utxo_scriptPubKey u) None (value u) = true) utxos.

End Builders.

(** [extractSecretFromTx]: the first input whose witness has at least four
    items and whose second item is 32 bytes long yields that item. *)
Fixpoint extractSecretFromIns (l : list TxInput) : option (list byte) :=
  match l with
  | [] => None
  | input :: rest =>
      if (4 <=? length (witness input))%nat then
        match witness input !! 1%nat with
        | Some secret =>
            if (length secret =? 32)%nat then Some secret
            else extractSecretFromIns rest
        | None => extractSecretFromIns rest
        end
      else extractSecretFromIns rest
  end.

Definition extractSecretFromTx (tx : Transaction) : option (list byte) :=
  extractSecretFromIns (ins tx).

(** *** Notions used to state the builder's properties *)

(** Two PSBTs that differ only in the signatures and final witnesses of
    their inputs. *)
Definition same_frame (p q : Psbt) : Prop :=
  psbt_locktime q = psbt_locktime p /\
  psbt_outputs q = psbt_outputs p /\
  length (psbt_inputs q) = length (psbt_inputs p) /\
  map pi_value (psbt_inputs q) = map pi_value (psbt_inputs p).

Definition signed (i : PsbtInput) : Prop := pi_partialSig i <> [].

End Btc.

(** ** The Solidity contract [EthEscrow] *)

Module EthEscrow.
Local Open Scope Z_scope.

Definition address := string.
Definition zero_address : address := "0x0000000000000000000000000000000000000000"%string.

Record State := {
  deployer : address;
  recipient : address;
  hashlock : list byte;      (* bytes32 *)
  timeout : Z;
  amount : Z;
  claimed : bool;
  refunded : bool
}.

(** What a call sees of its transaction, its block and the other accounts.
    [claim] and [refund] are not payable, so calls to them carry no ether;
    the deployment does.  [accepts a] tells whether a plain transfer of ether
    to the account [a] goes through: it always does for an externally owned
    account, and for a contract it does when its receive function runs within
    the 2300 gas that [transfer] forwards. *)
Record Env := {
  msg_sender : address;
  block_timestamp : Z;
  accepts : address -> bool
}.

Inductive Event :=
| SecretRevealed (secret : list byte)
| Claimed (to : address) (amt : Z)
| Refunded (to : address) (amt : Z).

(** The [require] messages. *)
Inductive Revert :=
| OnlyRecipient        (* "Only recipient can call this" *)
| OnlyDeployer         (* "Only deployer can call this" *)
| AlreadyClaimed       (* "Already claimed" *)
| AlreadyRefunded      (* "Already refunded" *)
| TimeoutNotReached    (* "Timeout not yet reached" *)
| MustSendEth          (* "Must send ETH" *)
| InvalidRecipient     (* "Invalid recipient" *)
| TimeoutInPast        (* "Timeout must be in the future" *)
| InvalidSecret        (* "Invalid secret" *)
| TransferFailed.      (* [transfer] to the payee failed *)

(** The error kind the specification calls already-settled. *)
Definition already_settled (r : Revert) : bool :=
  match r with
  | AlreadyClaimed | AlreadyRefunded => true
  | _ => false
  end.

(** A successful call: the new storage, the events logged and the ether
    sent out, in order. *)
Record Outcome := {
  state : State;
  events : list Event;
  transfers : list (address * Z)
}.

Definition require (c : bool) (r : Revert) : result Revert unit :=
  if c then Ok tt else Err r.

Definition bytes_eqb (a b : list byte) : bool := bool_decide (a = b).

Definition constructor (env : Env) (msg_value : Z) (_recipient : address)
    (_hashlock : list byte) (_timeout : Z) : result Revert State :=
  _ ← require (0 <? msg_value) MustSendEth;
  _ ← require (negb (String.eqb _recipient zero_address)) InvalidRecipient;
  _ ← require (block_timestamp env <? _timeout) TimeoutInPast;
  Ok {| deployer := msg_sender env; recipient := _recipient;
        hashlock := _hashlock; timeout := _timeout;
        amount := msg_value; claimed := false; refunded := false |}.

Definition onlyRecipient (env : Env) (s : State) :=
  require (String.eqb (msg_sender env) (recipient s)) OnlyRecipient.
Definition onlyDeployer (env : Env) (s : State) :=
  require (String.eqb (msg_sender env) (deployer s)) OnlyDeployer.
Definition notClaimed (s : State) := require (negb (claimed s)) AlreadyClaimed.
Definition notRefunded (s : State) := require (negb (refunded s)) AlreadyRefunded.
Definition afterTimeout (env : Env) (s : State) :=
  require (timeout s <=? block_timestamp env) TimeoutNotReached.

(** [payee.transfer(amount)]: the whole call reverts when the payee does not
    take the ether.  (The contract always holds [amount] while neither flag
    is set.) *)
Definition transfer (env : Env) (payee : address) : result Revert unit :=
  require (accepts env payee) TransferFailed.

(** [claim(bytes32 secret) external onlyRecipient notClaimed notRefunded].
    [abi.encodePacked] of a [bytes32] is its 32 bytes.  The transfer is the
    last statement; when it fails the call reverts and nothing of it stays. *)
Definition claim (env : Env) (secret : list byte) (s : State)
    : result Revert Outcome :=
  _ ← onlyRecipient env s;
  _ ← notClaimed s;
  _ ← notRefunded s;
  _ ← require (bytes_eqb (SHA256.sha256 secret) (hashlock s)) InvalidSecret;
  _ ← transfer env (recipient s);
  Ok {| state := {| deployer := deployer s; recipient := recipient s;
                    hashlock := hashlock s; timeout := timeout s;
                    amount := amount s; claimed := true;
                    refunded := refunded s |};
        events := [SecretRevealed secret; Claimed (recipient s) (amount s)];
        transfers := [(recipient s, amount s)] |}.

(** [refund() external onlyDeployer afterTimeout notClaimed notRefunded]. *)
Definition refund (env : Env) (s : State) : result Revert Outcome :=
  _ ← onlyDeployer env s;
  _ ← afterTimeout env s;
  _ ← notClaimed s;
  _ ← notRefunded s;
  _ ← transfer env (deployer s);
  Ok {| state := {| deployer := deployer s; recipient := recipient s;
                    hashlock := hashlock s; timeout := timeout s;
                    amount := amount s; claimed := claimed s;
                    refunded := true |};
        events := [Refunded (deployer s) (amount s)];
        transfers := [(deployer s, amount s)] |}.

(** External calls on a deployed escrow.  A call that reverts leaves the
    storage as it was. *)
Inductive Call :=
| CallClaim (env : Env) (secret : list byte)
| CallRefund (env : Env).

Definition call (c : Call) (s : State) : result Revert Outcome :=
  match c with
  | CallClaim env secret => claim env secret s
  | CallRefund env => refund env s
  end.

Definition step (s : State) (c : Call) : State :=
  match call c s with
  | Ok o => state o
  | Err _ => s
  end.

Definition run (s : State) (cs : list Call) : State := fold_left step cs s.

(** *** Notions used to state the contract's properties *)

Definition settled (s : State) : bool := claimed s || refunded s.

(** The call passes every check its function makes before the
    [notClaimed] and [notRefunded] modifiers. *)
Definition passes_earlier_checks (c : Call) (s : State) : Prop :=
  match c with
  | CallClaim env _ => msg_sender env = recipient s
  | CallRefund env => msg_sender env = deployer s /\ timeout s <= block_timestamp env
  end.

End EthEscrow.

(** ** [eth/escrow.ts]: the escrow manager's pure helpers *)

Module EthEscrowManager.

(** A JavaScript string is represented by its UTF-8 bytes, so
    [toUtf8Bytes] is the list of the string's bytes. *)
Definition toUtf8Bytes (s : string) : list byte := list_byte_of_string s.

Definition hexlify (bs : list byte) : string := ("0x" ++ Buf.toHex bs)%string.

(** [getBytes] on a hex string: [0x] followed by an even number of digits. *)
Definition getBytes (s : string) : option (list byte) :=
  match s with
  | String "0" (String "x" r) => Buf.fromHexStrict r
  | _ => None
  end.

(** [zeroPadValue(data, n)]: left-pads with zero bytes, throws when the
    data is longer than [n]. *)
Definition zeroPadValue (data : list byte) (n : nat) : option (list byte) :=
  if (length data <=? n)%nat
  then Some (repeat x00 (n - length data) ++ data)
  else None.

(** [static generateHashlock(secret)] *)
Definition generateHashlock (secret : string) : string :=
  hexlify (Keccak.keccak256 (toUtf8Bytes secret)).

(** The [bytes32] argument [claim(contractAddress, secret)] sends to the
    contract. *)
Definition claimSecretBytes (secret : string) : option (list byte) :=
  zeroPadValue (toUtf8Bytes secret) 32.

End EthEscrowManager.

(** ** [api/server.ts] over the [swaps] table of [db/setup.ts] *)

Module Server.
Local Open Scope Z_scope.

(** [s.length] of a JavaScript string held as UTF-8 bytes: the number of
    UTF-16 code units, one per character and two for a character outside the
    basic plane (a four-byte sequence). *)
Definition utf16_units (c : ascii) : nat :=
  let n := nat_of_ascii c in
  if (n <? 128)%nat then 1
  else if (n <? 192)%nat then 0
  else if (n <? 240)%nat then 1
  else 2.

Fixpoint utf16_length (s : string) : nat :=
  match s with
  | EmptyString => 0
  | String c r => utf16_units c + utf16_length r
  end.

(** [crypto.createHash('sha256').update(secret, 'hex').digest('hex')].
    [update] throws on a string of odd length; otherwise the hexadecimal
    digits are decoded up to the first pair that is not hexadecimal. *)
Definition generateHashlock (secret : string) : option string :=
  if Nat.even (utf16_length secret)
  then Some (Buf.toHex (SHA256.sha256 (Buf.fromHex secret)))
  else None.

(** Text made of ASCII characters only, as hexadecimal text is.  (Node
    decodes the UTF-16 units of a string; these strings hold bytes, and the
    two agree on ASCII text.) *)
Definition ascii_text (s : string) : Prop :=
  Forall (fun c => (nat_of_ascii c < 128)%nat) (list_ascii_of_string s).

(** The two [CHECK (... IN ...)] columns. *)
Inductive Direction := BtcToEth | EthToBtc.
Inductive Status := Pending | Funded | Completed | Expired | Refunded.

Definition direction_text (d : Direction) : string :=
  match d with BtcToEth => "btc-to-eth" | EthToBtc => "eth-to-btc" end.

Definition status_text (s : Status) : string :=
  match s with
  | Pending => "pending" | Funded => "funded" | Completed => "completed"
  | Expired => "expired" | Refunded => "refunded"
  end.

(** A row of [swaps]; nullable columns are options. *)
Record Swap := {
  swap_id : Z;
  direction : Direction;
  hashlock : string;
  secret : option string;
  btc_amount : Z;
  eth_amount : string;
  btc_pubkey : option string;
  eth_address : string;
  expiration : Z;
  btc_funded : bool;
  eth_funded : bool;
  eth_escrow_address : option string;
  btc_redeem_script : option string;
  btc_txid : option string;
  secret_revealed : bool;
  secret_revealed_at : option Z;
  status : Status;
  created_at : Z;
  updated_at : Z
}.

(** The server's view of the world: the table and the escrows deployed on
    the account chain, by contract address. *)
Record World := {
  db : gmap Z Swap;
  chain : gmap string EthEscrow.State
}.

(** What a request reads from outside: the server clock (seconds), the
    timestamp of the block that includes its transaction, the server
    wallet's address, the address and hash the chain assigns to a
    deployment or call, and which other accounts take a plain transfer of
    ether.  Addresses are held in the checksummed spelling ethers returns.
    [resolve_address] is ethers' resolution of a recipient string: the
    checksummed address of a well-formed hexadecimal address, what the
    provider's name service answers for any other string, and nothing when
    it throws.  [funds] is what the wallet can attach to a transaction once
    the gas is paid. *)
Record Env := {
  now : Z;
  block_time : Z;
  wallet : string;
  new_address : string;
  tx_hash : string;
  receives : string -> bool;
  resolve_address : string -> option string;
  funds : Z
}.

(** *** JSON values and responses *)

Inductive JsValue :=
| JNull
| JBool (b : bool)
| JNum (n : Z)
| JStr (s : string).

Definition truthy (v : option JsValue) : bool :=
  match v with
  | Some (JBool b) => b
  | Some (JNum n) => negb (n =? 0)
  | Some (JStr s) => negb (String.eqb s "")
  | Some JNull | None => false
  end.

Inductive Body :=
| BObj (o : gmap string JsValue)
| BList (l : list (gmap string JsValue)).

Record Response := {
  code : Z;
  body : Body
}.

Definition error_response (c : Z) (msg : string) : Response :=
  {| code := c; body := BObj {[ "error"%string := JStr msg ]} |}.

Definition internal_error : Response := error_response 500 "Internal server error".

Definition opt_str (o : option string) : JsValue :=
  match o with Some s => JStr s | None => JNull end.
Definition opt_num (o : option Z) : JsValue :=
  match o with Some n => JNum n | None => JNull end.
Definition sql_bool (b : bool) : JsValue := JNum (if b then 1 else 0).

(** The object [SELECT *] yields for a row: one key per column. *)
Definition row_object (r : Swap) : gmap string JsValue :=
  list_to_map
    [ ("id"%string, JNum (swap_id r));
      ("direction"%string, JStr (direction_text (direction r)));
      ("hashlock"%string, JStr (hashlock r));
      ("secret"%string, opt_str (secret r));
      ("btc_amount"%string, JNum (btc_amount r));
      ("eth_amount"%string, JStr (eth_amount r));
      ("btc_pubkey"%string, opt_str (btc_pubkey r));
      ("eth_address"%string, JStr (eth_address r));
      ("expiration"%string, JNum (expiration r));
      ("btc_funded"%string, sql_bool (btc_funded r));
      ("eth_funded"%string, sql_bool (eth_funded r));
      ("eth_escrow_address"%string, opt_str (eth_escrow_address r));
      ("btc_redeem_script"%string, opt_str (btc_redeem_script r));
      ("btc_txid"%string, opt_str (btc_txid r));
      ("secret_revealed"%string, sql_bool (secret_revealed r));
      ("secret_revealed_at"%string, opt_num (secret_revealed_at r));
      ("status"%string, JStr (status_text (status r)));
      ("created_at"%string, JNum (created_at r));
      ("updated_at"%string, JNum (updated_at r)) ].

(** [!x] for a request field that is a string or absent. *)
Definition missing (o : option string) : bool :=
  match o with
  | None => true
  | Some s => String.eqb s ""
  end.

(** *** The [UPDATE] statements *)

(** [SET btc_funded = TRUE, btc_redeem_script = ?, btc_txid = ?,
     status = 'funded', updated_at = now] *)
Definition update_fund_btc (redeemScript btcTxid : string) (t : Z) (r : Swap) : Swap :=
  {| swap_id := swap_id r; direction := direction r; hashlock := hashlock r;
     secret := secret r; btc_amount := btc_amount r; eth_amount := eth_amount r;
     btc_pubkey := btc_pubkey r; eth_address := eth_address r;
     expiration := expiration r;
     btc_funded := true;
     eth_funded := eth_funded r;
     eth_escrow_address := eth_escrow_address r;
     btc_redeem_script := Some redeemScript;
     btc_txid := Some btcTxid;
     secret_revealed := secret_revealed r;
     secret_revealed_at := secret_revealed_at r;
     status := Funded;
     created_at := created_at r;
     updated_at := t |}.

(** [SET eth_funded = TRUE, eth_escrow_address = ?, status = 'funded',
     updated_at = now] *)
Definition update_fund_eth (addr : string) (t : Z) (r : Swap) : Swap :=
  {| swap_id := swap_id r; direction := direction r; hashlock := hashlock r;
     secret := secret r; btc_amount := btc_amount r; eth_amount := eth_amount r;
     btc_pubkey := btc_pubkey r; eth_address := eth_address r;
     expiration := expiration r;
     btc_funded := btc_funded r;
     eth_funded := true;
     eth_escrow_address := Some addr;
     btc_redeem_script := btc_redeem_script r;
     btc_txid := btc_txid r;
     secret_revealed := secret_revealed r;
     secret_revealed_at := secret_revealed_at r;
     status := Funded;
     created_at := created_at r;
     updated_at := t |}.

(** [SET secret_revealed = TRUE, secret_revealed_at = now,
     status = 'completed', updated_at = now] *)
Definition update_completed (t : Z) (r : Swap) : Swap :=
  {| swap_id := swap_id r; direction := direction r; hashlock := hashlock r;
     secret := secret r; btc_amount := btc_amount r; eth_amount := eth_amount r;
     btc_pubkey := btc_pubkey r; eth_address := eth_address r;
     expiration := expiration r;
     btc_funded := btc_funded r;
     eth_funded := eth_funded r;
     eth_escrow_address := eth_escrow_address r;
     btc_redeem_script := btc_redeem_script r;
     btc_txid := btc_txid r;
     secret_revealed := true;
     secret_revealed_at := Some t;
     status := Completed;
     created_at := created_at r;
     updated_at := t |}.

(** [SET status = 'refunded', updated_at = now] *)
Definition update_refunded (t : Z) (r : Swap) : Swap :=
  {| swap_id := swap_id r; direction := direction r; hashlock := hashlock r;
     secret := secret r; btc_amount := btc_amount r; eth_amount := eth_amount r;
     btc_pubkey := btc_pubkey r; eth_address := eth_address r;
     expiration := expiration r;
     btc_funded := btc_funded r;
     eth_funded := eth_funded r;
     eth_escrow_address := eth_escrow_address r;
     btc_redeem_script := btc_redeem_script r;
     btc_txid := btc_txid r;
     secret_revealed := secret_revealed r;
     secret_revealed_at := secret_revealed_at r;
     status := Refunded;
     created_at := created_at r;
     updated_at := t |}.

(** [UPDATE swaps SET ... WHERE id = ?]: no row, no change. *)
Definition update_row (f : Swap -> Swap) (id : Z) (w : World) : World :=
  {| db := alter f id (db w); chain := chain w |}.

Definition with_chain (c : gmap string EthEscrow.State) (w : World) : World :=
  {| db := db w; chain := c |}.

Definition success_body (fields : list (string * JsValue)) : Body :=
  BObj (list_to_map (("success"%string, JBool true) :: fields)).

(** *** Calls through [EthEscrowManager] *)

(** What the contract sees of a transaction the server sends.  The server
    wallet is an [ethers.Wallet], a key-pair account, which takes any
    transfer. *)
Definition wallet_call (e : Env) : EthEscrow.Env :=
  {| EthEscrow.msg_sender := wallet e;
     EthEscrow.block_timestamp := block_time e;
     EthEscrow.accepts := fun a => String.eqb a (wallet e) || receives e a |}.

(** [ethers.formatEther(swap.eth_amount)] reads the column as a
    [BigNumberish] string of wei, and [parseEther] in [deployEscrow] reads
    the formatted ether back to the same number of wei.

    JavaScript's [BigInt(string)]: white space and line terminators are
    trimmed from both ends; what is left is empty (zero), a run of decimal
    digits with an optional sign, or an unsigned run of digits after [0x],
    [0o] or [0b]. *)
Definition char_codes (s : string) : list Z :=
  map (fun c => Z.of_nat (nat_of_ascii c)) (list_ascii_of_string s).

(** The length in bytes of the white-space character a list of UTF-8 bytes
    starts with, [0] if it starts with none. *)
Definition ws_width (l : list Z) : nat :=
  match l with
  | 9 :: _ | 10 :: _ | 11 :: _ | 12 :: _ | 13 :: _ | 32 :: _ => 1
  | 194 :: 160 :: _ => 2                  (* U+00A0 *)
  | 225 :: 154 :: 128 :: _ => 3           (* U+1680 *)
  | 226 :: 128 :: c :: _ =>               (* U+2000..U+200A, U+2028, U+2029, U+202F *)
      if ((128 <=? c) && (c <=? 138)) || (c =? 168) || (c =? 169) || (c =? 175)
      then 3 else 0
  | 226 :: 129 :: 159 :: _ => 3           (* U+205F *)
  | 227 :: 128 :: 128 :: _ => 3           (* U+3000 *)
  | 239 :: 187 :: 191 :: _ => 3           (* U+FEFF *)
  | _ => 0
  end.

Fixpoint trim_start (fuel : nat) (l : list Z) : list Z :=
  match fuel with
  | O => l
  | S f =>
      match ws_width l with
      | O => l
      | n => trim_start f (skipn n l)
      end
  end.

(** The same from the end, on the reversed list. *)
Definition ws_width_rev (l : list Z) : nat :=
  match l with
  | c :: b :: a :: _ =>
      if (0 <? Z.of_nat (ws_width [c])) then 1
      else if (ws_width [b; c] =? 2)%nat then 2
      else if (ws_width [a; b; c] =? 3)%nat then 3
      else 0
  | [c; b] =>
      if (0 <? Z.of_nat (ws_width [c])) then 1
      else if (ws_width [b; c] =? 2)%nat then 2
      else 0
  | [c] => ws_width [c]
  | [] => 0
  end.

Fixpoint trim_start_rev (fuel : nat) (l : list Z) : list Z :=
  match fuel with
  | O => l
  | S f =>
      match ws_width_rev l with
      | O => l
      | n => trim_start_rev f (skipn n l)
      end
  end.

Definition trim (l : list Z) : list Z :=
  let l1 := trim_start (length l) l in
  rev (trim_start_rev (length l1) (rev l1)).

Definition digit_value (radix : Z) (c : Z) : option Z :=
  let v := if (48 <=? c) && (c <=? 57) then c - 48
           else if (97 <=? c) && (c <=? 102) then c - 87
           else if (65 <=? c) && (c <=? 70) then c - 55
           else radix in
  if v <? radix then Some v else None.

(** A non-empty run of digits in the given radix. *)
Fixpoint digits_from (radix acc : Z) (l : list Z) : option Z :=
  match l with
  | [] => Some acc
  | c :: r =>
      match digit_value radix c with
      | Some v => digits_from radix (radix * acc + v) r
      | None => None
      end
  end.

Definition digits (radix : Z) (l : list Z) : option Z :=
  match l with
  | [] => None
  | _ => digits_from radix 0 l
  end.

Definition jsBigInt (l : list Z) : option Z :=
  match trim l with
  | [] => Some 0
  | 48 :: 120 :: r | 48 :: 88 :: r => digits 16 r      (* 0x, 0X *)
  | 48 :: 111 :: r | 48 :: 79 :: r => digits 8 r       (* 0o, 0O *)
  | 48 :: 98 :: r | 48 :: 66 :: r => digits 2 r        (* 0b, 0B *)
  | 43 :: r => digits 10 r                             (* + *)
  | 45 :: r => Z.opp <$> digits 10 r                   (* - *)
  | r => digits 10 r
  end.

(** ethers' [getBigInt] on a string: the empty string is refused, and one
    leading [-] is taken off before [BigInt] reads the rest. *)
Definition getBigInt (s : string) : option Z :=
  match char_codes s with
  | [] => None
  | 45 :: r =>
      match r with
      | 45 :: _ => jsBigInt (45 :: r)
      | _ => Z.opp <$> jsBigInt r
      end
  | l => jsBigInt l
  end.

(** [formatEther] holds the value in a signed fixed-point number of 512
    bits. *)
Definition parseWei (s : string) : option Z :=
  match getBigInt s with
  | Some v => if (- 2 ^ 511 <=? v) && (v <? 2 ^ 511) then Some v else None
  | None => None
  end.

(** [deployEscrow(recipient, hashlock, timeout, ethAmount)], with
    [ethAmount] the formatted ether of the column text [weiText].  The
    recipient must resolve to an address, the hashlock encode as a
    [bytes32], the timeout as a [uint256], and the value must be a number of
    wei the wallet can attach; the constructor then runs with the wallet as
    sender, and the new contract lives at the address the chain assigns. *)
Definition deployEscrow (e : Env) (c : gmap string EthEscrow.State)
    (recipient hashlock : string) (timeout : Z) (weiText : string)
    : option (gmap string EthEscrow.State * string * string) :=
  match resolve_address e recipient,
        EthEscrowManager.getBytes hashlock, parseWei weiText with
  | Some rcp, Some h, Some v =>
      if (length h =? 32)%nat && (0 <=? timeout) && (0 <=? v) && (v <=? funds e) then
        match EthEscrow.constructor (wallet_call e) v rcp h timeout with
        | Ok st => Some (<[new_address e := st]> c, new_address e, tx_hash e)
        | Err _ => None
        end
      else None
  | _, _, _ => None
  end.

(** [escrowManager.claim(address, secret)] *)
Definition manager_claim (e : Env) (c : gmap string EthEscrow.State)
    (addr : string) (secret : string)
    : option (gmap string EthEscrow.State * string) :=
  match c !! addr, EthEscrowManager.claimSecretBytes secret with
  | Some st, Some bytes =>
      match EthEscrow.claim (wallet_call e) bytes st with
      | Ok o => Some (<[addr := EthEscrow.state o]> c, tx_hash e)
      | Err _ => None
      end
  | _, _ => None
  end.

(** [escrowManager.refund(address)] *)
Definition manager_refund (e : Env) (c : gmap string EthEscrow.State)
    (addr : string) : option (gmap string EthEscrow.State * string) :=
  match c !! addr with
  | Some st =>
      match EthEscrow.refund (wallet_call e) st with
      | Ok o => Some (<[addr := EthEscrow.state o]> c, tx_hash e)
      | Err _ => None
      end
  | None => None
  end.

(** *** Route handlers: the response and the world afterwards *)

(** [POST /swap/:id/fund-btc] *)
Definition fund_btc (e : Env) (id : Z) (redeemScript btc_txid : option string)
    (w : World) : Response * World :=
  match redeemScript, btc_txid with
  | Some rs, Some tx =>
      if missing redeemScript || missing btc_txid then
        (error_response 400 "Missing redeemScript or btc_txid", w)
      else
        match db w !! id with
        | None => (error_response 404 "Swap not found", w)
        | Some _ =>
            ({| code := 200;
                body := success_body
                  [("message"%string, JStr "Bitcoin HTLC marked as funded")] |},
             update_row (update_fund_btc rs tx (now e)) id w)
        end
  | _, _ => (error_response 400 "Missing redeemScript or btc_txid", w)
  end.

(** [POST /swap/:id/fund-eth] *)
Definition fund_eth (e : Env) (id : Z) (w : World) : Response * World :=
  match db w !! id with
  | None => (error_response 404 "Swap not found", w)
  | Some swap =>
      match deployEscrow e (chain w) (eth_address swap)
              ("0x" ++ hashlock swap)%string (expiration swap) (eth_amount swap) with
      | None => (internal_error, w)
      | Some (c, address, txHash) =>
          ({| code := 200;
              body := success_body
                [("escrow_address"%string, JStr address);
                 ("tx_hash"%string, JStr txHash);
                 ("message"%string, JStr "Ethereum escrow deployed and funded")] |},
           update_row (update_fund_eth address (now e)) id (with_chain c w))
      end
  end.

(** [POST /swap/:id/submit-secret] *)
Definition submit_secret (e : Env) (id : Z) (secret : option string)
    (w : World) : Response * World :=
  match secret with
  | None => (error_response 400 "Missing secret", w)
  | Some s =>
      if missing secret then (error_response 400 "Missing secret", w)
      else
        match db w !! id with
        | None => (error_response 404 "Swap not found", w)
        | Some swap =>
            match generateHashlock s with
            | None => (internal_error, w)
            | Some hashlock' =>
                if negb (String.eqb hashlock' (hashlock swap)) then
                  (error_response 400 "Invalid secret", w)
                else
                  ({| code := 200;
                      body := success_body
                        [("message"%string, JStr "Secret submitted successfully");
                         ("secret"%string, JStr s)] |},
                   update_row (update_completed (now e)) id w)
            end
        end
  end.

(** [GET /swap/:id] *)
Definition get_swap (id : Z) (w : World) : Response :=
  match db w !! id with
  | None => error_response 404 "Swap not found"
  | Some r =>
      let swap := row_object r in
      let swap := if negb (truthy (swap !! "secret_revealed"%string))
                  then delete "secret"%string swap else swap in
      {| code := 200; body := BObj swap |}
  end.

(** [ORDER BY created_at DESC] *)
Fixpoint insert_desc (r : Swap) (l : list Swap) : list Swap :=
  match l with
  | [] => [r]
  | x :: l' =>
      if created_at x <? created_at r then r :: l
      else x :: insert_desc r l'
  end.

Definition order_desc (l : list Swap) : list Swap :=
  fold_right insert_desc [] l.

(** [SELECT * FROM swaps WHERE 1=1 [AND status = ?] [AND direction = ?]
     ORDER BY created_at DESC]; an absent or empty query parameter adds no
    condition. *)
Definition select_swaps (status_q direction_q : option string) (w : World)
    : list Swap :=
  let keep (r : Swap) : bool :=
    (match status_q with
     | Some s => if missing status_q then true else String.eqb (status_text (status r)) s
     | None => true
     end)
    &&
    (match direction_q with
     | Some d => if missing direction_q then true else String.eqb (direction_text (direction r)) d
     | None => true
     end) in
  order_desc (List.filter keep (map snd (map_to_list (db w)))).

(** [swaps.map(swap => !swap.secret_revealed ? rest-without-secret : swap)] *)
Definition sanitize (swap : gmap string JsValue) : gmap string JsValue :=
  if negb (truthy (swap !! "secret_revealed"%string))
  then delete "secret"%string swap
  else swap.

(** [GET /swaps] *)
Definition get_swaps (status_q direction_q : option string) (w : World)
    : Response :=
  let swaps := map row_object (select_swaps status_q direction_q w) in
  {| code := 200; body := BList (map sanitize swaps) |}.

(** [POST /swap/:id/claim-eth] *)
Definition claim_eth (e : Env) (id : Z) (secret : option string)
    (w : World) : Response * World :=
  match db w !! id with
  | None => (error_response 404 "Swap not found", w)
  | Some swap =>
      match eth_escrow_address swap with
      | None => (error_response 400 "ETH escrow not deployed", w)
      | Some addr =>
          if String.eqb addr "" then (error_response 400 "ETH escrow not deployed", w)
          else
            match secret with
            | None => (internal_error, w)
            | Some s =>
                match manager_claim e (chain w) addr s with
                | None => (internal_error, w)
                | Some (c, txHash) =>
                    ({| code := 200;
                        body := success_body
                          [("tx_hash"%string, JStr txHash);
                           ("message"%string, JStr "ETH claimed successfully")] |},
                     update_row (update_completed (now e)) id (with_chain c w))
                end
            end
      end
  end.

(** [POST /swap/:id/refund-eth] *)
Definition refund_eth (e : Env) (id : Z) (w : World) : Response * World :=
  match db w !! id with
  | None => (error_response 404 "Swap not found", w)
  | Some swap =>
      match eth_escrow_address swap with
      | None => (error_response 400 "ETH escrow not deployed", w)
      | Some addr =>
          if String.eqb addr "" then (error_response 400 "ETH escrow not deployed", w)
          else
            let currentTime := now e in
            if currentTime <? expiration swap then
              (error_response 400 "Timeout not yet reached", w)
            else
              match manager_refund e (chain w) addr with
              | None => (internal_error, w)
              | Some (c, txHash) =>
                  ({| code := 200;
                      body := success_body
                        [("tx_hash"%string, JStr txHash);
                         ("message"%string, JStr "ETH refunded successfully")] |},
                   update_row (update_refunded (now e)) id (with_chain c w))
              end
      end
  end.

(** The state-changing requests a client can send. *)
Inductive Request :=
| FundBtc (id : Z) (redeemScript btc_txid : option string)
| FundEth (id : Z)
| SubmitSecret (id : Z) (secret : option string)
| ClaimEth (id : Z) (secret : option string)
| RefundEth (id : Z).

Definition handle (e : Env) (q : Request) (w : World) : Response * World :=
  match q with
  | FundBtc id rs tx => fund_btc e id rs tx w
  | FundEth id => fund_eth e id w
  | SubmitSecret id s => submit_secret e id s w
  | ClaimEth id s => claim_eth e id s w
  | RefundEth id => refund_eth e id w
  end.

(** Serve the requests in order, each with its own environment. *)
Definition serve (w : World) (qs : list (Env * Request)) : World :=
  fold_left (fun w eq => snd (handle (fst eq) (snd eq) w)) qs w.

(** The row [INSERT INTO swaps (direction, hashlock, secret, btc_amount,
    eth_amount, btc_pubkey, eth_address, expiration)] creates, with the
    column defaults of the table. *)
Definition inserted_row (id : Z) (t : Z) (d : Direction) (hl secret : string)
    (btcAmount : Z) (ethAmount : string) (btcPubkey : option string)
    (ethAddress : string) (exp : Z) : Swap :=
  {| swap_id := id; direction := d; hashlock := hl; secret := Some secret;
     btc_amount := btcAmount; eth_amount := ethAmount;
     btc_pubkey := btcPubkey; eth_address := ethAddress; expiration := exp;
     btc_funded := false; eth_funded := false;
     eth_escrow_address := None; btc_redeem_script := None; btc_txid := None;
     secret_revealed := false; secret_revealed_at := None;
     status := Pending; created_at := t; updated_at := t |}.

End Server.

(** ** Concrete inputs used in the examples below *)

Local Open Scope Z_scope.

(** Concrete escrow runs.  The secret is the 32-character text below; its
    UTF-8 bytes are the [bytes32] the manager sends to the contract.  The
    accounts are the server wallet, a recipient, and the address the chain
    gives the deployed escrow. *)

Definition demoWallet : string := "0x1111111111111111111111111111111111111111".
Definition demoRecipient : string := "0x2222222222222222222222222222222222222222".
Definition demoContract : string := "0x3333333333333333333333333333333333333333".

Definition demoSecretText : string := "0123456789abcdef0123456789abcdef".
Definition demoSecretBytes : list byte := list_byte_of_string demoSecretText.

Definition demoDeployEnv : EthEscrow.Env :=
  {| EthEscrow.msg_sender := demoWallet; EthEscrow.block_timestamp := 100;
     EthEscrow.accepts := fun _ => true |}.

Definition demoRecipientAt (t : Z) : EthEscrow.Env :=
  {| EthEscrow.msg_sender := demoRecipient; EthEscrow.block_timestamp := t;
     EthEscrow.accepts := fun _ => true |}.

Definition demoDeployerAt (t : Z) : EthEscrow.Env :=
  {| EthEscrow.msg_sender := demoWallet; EthEscrow.block_timestamp := t;
     EthEscrow.accepts := fun _ => true |}.

(** The recipient as a contract that takes no ether. *)
Definition demoRefusingRecipientAt (t : Z) : EthEscrow.Env :=
  {| EthEscrow.msg_sender := demoRecipient; EthEscrow.block_timestamp := t;
     EthEscrow.accepts := fun a => negb (String.eqb a demoRecipient) |}.

Definition demoOpen (hl : list byte) : EthEscrow.State :=
  {| EthEscrow.deployer := demoWallet; EthEscrow.recipient := demoRecipient;
     EthEscrow.hashlock := hl; EthEscrow.timeout := 200;
     EthEscrow.amount := 5; EthEscrow.claimed := false;
     EthEscrow.refunded := false |}.

Definition demoClaimed (hl : list byte) : EthEscrow.State :=
  {| EthEscrow.deployer := demoWallet; EthEscrow.recipient := demoRecipient;
     EthEscrow.hashlock := hl; EthEscrow.timeout := 200;
     EthEscrow.amount := 5; EthEscrow.claimed := true;
     EthEscrow.refunded := false |}.

(** Concrete coordinator runs: one ETH-to-BTC swap created with the secret
    above in hexadecimal, expiring at time 1000. *)

Definition demoSecretHex : string := Buf.toHex demoSecretBytes.
Definition demoHashlock : string := Buf.toHex (SHA256.sha256 demoSecretBytes).

(** A name service that knows no names: only the two accounts above, spelled
    as addresses, resolve. *)
Definition demoResolve (s : string) : option string :=
  if String.eqb s demoWallet || String.eqb s demoRecipient then Some s else None.

Definition demoSwap : Server.Swap :=
  Server.inserted_row 1 0 Server.EthToBtc
    demoHashlock demoSecretHex
    100000 "5" None demoRecipient 1000.

Definition demoWorld : Server.World :=
  {| Server.db := {[ 1 := demoSwap ]}; Server.chain := ∅ |}.

Definition demoEnv (t : Z) : Server.Env :=
  {| Server.now := t; Server.block_time := t; Server.wallet := demoWallet;
     Server.new_address := demoContract; Server.tx_hash := "0x7a";
     Server.receives := fun _ => true;
     Server.resolve_address := demoResolve;
     Server.funds := 1000000000000000000 |}.

Definition status_of (w : Server.World) (id : Z) : option Server.Status :=
  Server.status <$> Server.db w !! id.

(** The demo swap after its escrow was deployed and the secret submitted
    to the coordinator (no claim was made on the chain). *)
Definition demoCompleted : Server.World :=
  Server.serve demoWorld
    [ (demoEnv 10, Server.FundEth 1);
      (demoEnv 20, Server.SubmitSecret 1 (Some demoSecretHex)) ].

(** ** Further notions: spent outpoints, secret-carrying inputs, the
       escrow's log *)

Module BtcMore.
Import Btc.
Local Open Scope Z_scope.

(** What identifies a transaction input and fixes its value. *)
Definition input_core (i : PsbtInput) : string * Z * Z * Z :=
  (pi_hash i, pi_index i, pi_sequence i, pi_value i).

(** The test [extractSecretFromTx] applies to one input. *)
Definition carries_secret (input : TxInput) : bool :=
  (4 <=? length (witness input))%nat &&
  match witness input !! 1%nat with
  | Some secret => (length secret =? 32)%nat
  | None => false
  end.

(** Signing changes only [partialSig]. *)
Definition sign_frame (p q : Psbt) : Prop :=
  psbt_locktime q = psbt_locktime p /\
  psbt_outputs q = psbt_outputs p /\
  map input_core (psbt_inputs q) = map input_core (psbt_inputs p) /\
  map pi_final (psbt_inputs q) = map pi_final (psbt_inputs p).

(** Finalizing with the key-hash finalizer changes only the final witness,
    and sets it to two items. *)
Definition final_frame (p q : Psbt) : Prop :=
  psbt_locktime q = psbt_locktime p /\
  psbt_outputs q = psbt_outputs p /\
  map input_core (psbt_inputs q) = map input_core (psbt_inputs p) /\
  (forall j b, psbt_inputs q !! j = Some b ->
     exists a, psbt_inputs p !! j = Some a /\
               (pi_final b = pi_final a \/ exists x y, pi_final b = Some [x; y])).

Definition outpoint (i : TxInput) : string * Z * Z :=
  (in_hash i, in_index i, in_sequence i).

End BtcMore.

Module EscrowLog.
Import EthEscrow.

(** Everything the contract has logged and paid out so far. *)
Record Log := {
  logged : list Event;
  paid : list (address * Z)
}.

Definition empty_log : Log := {| logged := []; paid := [] |}.

(** A call that succeeds appends its events and transfers; a call that
    reverts leaves no trace. *)
Definition step_log (sl : State * Log) (c : Call) : State * Log :=
  match call c (fst sl) with
  | Ok o => (state o,
             {| logged := logged (snd sl) ++ events o;
                paid := paid (snd sl) ++ transfers o |})
  | Err _ => sl
  end.

Definition run_log (s : State) (cs : list Call) : State * Log :=
  fold_left step_log cs (s, empty_log).

Definition total_paid (l : Log) : Z :=
  fold_right (fun p acc => snd p + acc)%Z 0%Z (paid l).

End EscrowLog.

Module EscrowInv.
Import EthEscrow EscrowLog.

(** The constructor arguments never change. *)
Definition same_terms (s0 s : State) : Prop :=
  deployer s = deployer s0 /\ recipient s = recipient s0 /\
  hashlock s = hashlock s0 /\ timeout s = timeout s0 /\ amount s = amount s0.

(** The three shapes a deployed escrow and its log can have. *)
Definition still_open (s : State) (l : Log) : Prop :=
  claimed s = false /\ refunded s = false /\ logged l = [] /\ paid l = [].

Definition was_claimed (s0 s : State) (l : Log) : Prop :=
  claimed s = true /\ refunded s = false /\
  paid l = [(recipient s0, amount s0)] /\
  exists secret,
    SHA256.sha256 secret = hashlock s0 /\
    logged l = [SecretRevealed secret; Claimed (recipient s0) (amount s0)].

Definition was_refunded (s0 s : State) (l : Log) : Prop :=
  claimed s = false /\ refunded s = true /\
  paid l = [(deployer s0, amount s0)] /\
  logged l = [Refunded (deployer s0) (amount s0)].

End EscrowInv.

(** ** More of [api/server.ts] and [eth/escrow.ts]: creating a swap *)

Module Coordinator.
Import Server.
Local Open Scope Z_scope.

(** [crypto.randomBytes(32).toString('hex')], for the bytes drawn. *)
Definition generateSecret (random : list byte) : string := Buf.toHex random.

(** The fields of the body of [POST /swap/create]; a field may be absent.
    Amounts are typed as the table has them: [btc_amount] an integer,
    [eth_amount] a text; [expiration_hours] is an integer number of hours. *)
Record CreateBody := {
  c_direction : option string;
  c_btc_amount : option Z;
  c_eth_amount : option string;
  c_btc_pubkey : option string;
  c_eth_address : option string;
  c_expiration_hours : option Z
}.

Definition parse_direction (s : string) : option Direction :=
  if String.eqb s "btc-to-eth" then Some BtcToEth
  else if String.eqb s "eth-to-btc" then Some EthToBtc
  else None.

(** [AUTOINCREMENT]: one more than the largest row id.  No statement of the
    server deletes rows, so this is also the largest id ever used. *)
Definition next_rowid (d : gmap Z Swap) : Z :=
  1 + fold_right Z.max 0 (map fst (map_to_list d)).

(** [btc_pubkey || null] *)
Definition or_null (o : option string) : option string :=
  match o with
  | Some s => if String.eqb s "" then None else Some s
  | None => None
  end.

(** [POST /swap/create], at server time [now], with [random] the bytes
    [crypto.randomBytes(32)] returns. *)
Definition create (now : Z) (random : list byte) (b : CreateBody) (w : World)
    : Response * World :=
  match c_direction b ≫= parse_direction with
  | None => (error_response 400 "Invalid direction", w)
  | Some d =>
      match c_btc_amount b, c_eth_amount b, c_eth_address b with
      | Some btc_amount, Some eth_amount, Some eth_address =>
          if (btc_amount =? 0) || String.eqb eth_amount "" || String.eqb eth_address ""
          then (error_response 400 "Missing required fields", w)
          else
            let expiration_hours := default 24 (c_expiration_hours b) in
            let secret := generateSecret random in
            match generateHashlock secret with
            | None => (internal_error, w)
            | Some hashlock =>
            let expiration := now + expiration_hours * 3600 in
            let id := next_rowid (db w) in
            ({| code := 200;
                body := BObj (list_to_map
                  ([("swap_id"%string, JNum id); ("hashlock"%string, JStr hashlock)]
                   ++ match d with
                      | EthToBtc => [("secret"%string, JStr secret)]
                      | BtcToEth => []
                      end
                   ++ [("expiration"%string, JNum expiration);
                       ("direction"%string, JStr (direction_text d))])) |},
             {| db := <[id := inserted_row id now d hashlock secret btc_amount
                                eth_amount (or_null (c_btc_pubkey b)) eth_address
                                expiration]> (db w);
                chain := chain w |})
            end
      | _, _, _ => (error_response 400 "Missing required fields", w)
      end
  end.

(** Everything a client can ask the server to do that changes state. *)
Inductive Action :=
| Create (now : Z) (random : list byte) (b : CreateBody)
| Handle (e : Env) (q : Request).

Definition perform (w : World) (a : Action) : World :=
  match a with
  | Create now random b => snd (create now random b w)
  | Handle e q => snd (handle e q w)
  end.

Definition play (w : World) (acts : list Action) : World :=
  fold_left perform acts w.

(** The columns no statement of the server assigns after the insert. *)
Definition same_swap_terms (r r' : Swap) : Prop :=
  swap_id r' = swap_id r /\ direction r' = direction r /\
  hashlock r' = hashlock r /\ secret r' = secret r /\
  btc_amount r' = btc_amount r /\ eth_amount r' = eth_amount r /\
  btc_pubkey r' = btc_pubkey r /\ eth_address r' = eth_address r /\
  expiration r' = expiration r /\ created_at r' = created_at r.

(** How the other columns can move. *)
Definition progress (r r' : Swap) : Prop :=
  (btc_funded r = true -> btc_funded r' = true) /\
  (eth_funded r = true -> eth_funded r' = true) /\
  (secret_revealed r = true -> secret_revealed r' = true) /\
  (status r' = Pending -> status r = Pending) /\
  (status r' = Expired -> status r = Expired) /\
  (is_Some (eth_escrow_address r) -> is_Some (eth_escrow_address r')) /\
  (is_Some (btc_txid r) -> is_Some (btc_txid r')).

(** Every row is still there afterwards, with the same terms. *)
Definition kept (w w' : World) : Prop :=
  forall k r, db w !! k = Some r ->
    exists r', db w' !! k = Some r' /\ same_swap_terms r r' /\ progress r r'.

(** A list of swaps ordered by [created_at], latest first. *)
Definition newest_first (l : list Swap) : Prop :=
  forall i j a b, (i < j)%nat -> l !! i = Some a -> l !! j = Some b ->
                  created_at b <= created_at a.

(** [EthEscrowManager.generateSecret()], for the bytes drawn. *)
Definition managerGenerateSecret (random : list byte) : string :=
  EthEscrowManager.hexlify random.

(** The condition under which [SwapDetails] renders the "Fund ETH Escrow"
    button: [swap.status === 'pending' && !swap.eth_funded]. *)
Definition showFundEthButton (swap : gmap string JsValue) : bool :=
  match swap !! "status"%string with
  | Some (JStr s) => String.eqb s "pending"
  | _ => false
  end && negb (truthy (swap !! "eth_funded"%string)).

End Coordinator.

(** ** Executing the redeem script

    The consensus rules for the opcodes [createHTLCScript] uses, as applied
    to a pay-to-witness-script-hash spend: the witness items before the
    script are the initial stack, the script runs on it, and the spend is
    valid when exactly one true item is left. *)

Module Script.
Import Btc.
Local Open Scope Z_scope.

(** [bitcoin.script.number.encode]: little-endian magnitude with a sign
    bit in the last byte.  (JavaScript's 32-bit [& 0xff] and [>>= 8] agree
    with [mod 256] and [/ 256] on every byte kept, for magnitudes below
    [2^32].) *)
Definition scriptNumSize (i : Z) : nat :=
  if 2147483647 <? i then 5
  else if 8388607 <? i then 4
  else if 32767 <? i then 3
  else if 127 <? i then 2
  else if 0 <? i then 1
  else 0.

Fixpoint le_digits (n : nat) (v : Z) : list Z :=
  match n with
  | O => []
  | S n' => v mod 256 :: le_digits n' (v / 256)
  end.

Definition scriptNumEncode (n : Z) : list byte :=
  let value := Z.abs n in
  let negative := n <? 0 in
  map Buf.byte_of_Z
    match rev (le_digits (scriptNumSize value) value) with
    | [] => []
    | last :: front =>
        rev ((if 128 <=? last then (if negative then 128 else 0)
              else if negative then last + 128 else last) :: front)
    end.

(** Reading a stack item as a number (at most five bytes, as
    [OP_CHECKLOCKTIMEVERIFY] does). *)
Fixpoint scriptNumParts (bs : list byte) : Z * bool :=
  match bs with
  | [] => (0, false)
  | [b] =>
      let v := Buf.Z_of_byte b in
      if 128 <=? v then (v - 128, true) else (v, false)
  | b :: r =>
      let (m, neg) := scriptNumParts r in (Buf.Z_of_byte b + 256 * m, neg)
  end.

Definition scriptNumDecode (bs : list byte) : option Z :=
  if (5 <? length bs)%nat then None
  else let (m, neg) := scriptNumParts bs in Some (if neg then - m else m).

(** An item is false when all its bytes are zero, or all but a final
    [0x80] (negative zero). *)
Fixpoint castToBool (v : list byte) : bool :=
  match v with
  | [] => false
  | [b] => negb (bool_decide (b = x00) || bool_decide (b = x80))
  | b :: r => if bool_decide (b = x00) then castToBool r else true
  end.

Definition boolItem (b : bool) : list byte := if b then [x01] else [].

Definition MAX_SCRIPT_ELEMENT_SIZE : nat := 520.
Definition LOCKTIME_THRESHOLD : Z := 500000000.
Definition SEQUENCE_FINAL : Z := 4294967295.

(** What the script sees of the spending transaction. *)
Record TxContext := {
  ctx_locktime : Z;
  ctx_sequence : Z
}.

Definition checkLockTime (ctx : TxContext) (n : Z) : bool :=
  (0 <=? n) &&
  (Bool.eqb (ctx_locktime ctx <? LOCKTIME_THRESHOLD) (n <? LOCKTIME_THRESHOLD)) &&
  (n <=? ctx_locktime ctx) &&
  negb (ctx_sequence ctx =? SEQUENCE_FINAL).

Section Interpreter.

(** Signature checking against the spending transaction. *)
Variable checksig : list byte -> list byte -> bool.
Variable ctx : TxContext.

Definition push (d : list byte) (st : list (list byte)) : option (list (list byte)) :=
  if (length d <=? MAX_SCRIPT_ELEMENT_SIZE)%nat then Some (d :: st) else None.

(** One opcode on the stack (top first), in an executed branch. *)
Definition execOp (o : opcode) (st : list (list byte)) : option (list (list byte)) :=
  match o, st with
  | OP_SHA256, top :: st' => Some (SHA256.sha256 top :: st')
  | OP_EQUALVERIFY, a :: b :: st' => if bool_decide (a = b) then Some st' else None
  | OP_CHECKSIG, pubkey :: sig :: st' => Some (boolItem (checksig sig pubkey) :: st')
  | OP_CHECKLOCKTIMEVERIFY, top :: _ =>
      match scriptNumDecode top with
      | Some n => if checkLockTime ctx n then Some st else None
      | None => None
      end
  | OP_DROP, _ :: st' => Some st'
  | _, _ => None
  end.

(** [vf] is the stack of open conditionals, innermost first; a chunk is
    executed when all of them are true. *)
Fixpoint run (cs : list chunk) (vf : list bool) (st : list (list byte))
    : option (list (list byte)) :=
  match cs with
  | [] => match vf with [] => Some st | _ => None end
  | c :: rest =>
      let executing := forallb (fun b => b) vf in
      match c with
      | Op OP_IF =>
          if executing then
            match st with
            | top :: st' => run rest (castToBool top :: vf) st'
            | [] => None
            end
          else run rest (false :: vf) st
      | Op OP_ELSE =>
          match vf with
          | b :: vf' => run rest (negb b :: vf') st
          | [] => None
          end
      | Op OP_ENDIF =>
          match vf with
          | _ :: vf' => run rest vf' st
          | [] => None
          end
      | Op o =>
          if executing then
            match execOp o st with
            | Some st' => run rest vf st'
            | None => None
            end
          else run rest vf st
      | Push d =>
          if executing then
            match push d st with
            | Some st' => run rest vf st'
            | None => None
            end
          else run rest vf st
      | PushNum n =>
          if executing then
            match push (scriptNumEncode n) st with
            | Some st' => run rest vf st'
            | None => None
            end
          else run rest vf st
      end
  end.

(** A witness-script spend: [items] are the witness items before the
    script, first item deepest. *)
Definition spendValid (script : list chunk) (items : list (list byte)) : bool :=
  forallb (fun d => (length d <=? MAX_SCRIPT_ELEMENT_SIZE)%nat) items &&
  match run script [] (rev items) with
  | Some [top] => castToBool top
  | _ => false
  end.

End Interpreter.

(** The transaction data the script of input 0 sees. *)
Definition contextOf (tx : Transaction) : TxContext :=
  {| ctx_locktime := tx_locktime tx;
     ctx_sequence := match ins tx with
                     | i :: _ => in_sequence i
                     | [] => SEQUENCE_FINAL
                     end |}.

(** The witness items of input 0 before the script. *)
Definition stackItems (tx : Transaction) : list (list byte) :=
  match ins tx with
  | i :: _ => removelast (witness i)
  | [] => []
  end.

(** A stack item within the element size limit. *)
Definition sizedItem (d : list byte) : Prop := (length d <= 520)%nat.

(** Pushes of the script within the element size limit. *)
Definition wellSized (params : HTLCParams) : Prop :=
  (length (hashlock params) <= 520)%nat /\
  (length (recipientPubkey params) <= 520)%nat /\
  (length (refundPubkey params) <= 520)%nat.

End Script.

(** ** Bech32 (BIP 173): the address [bitcoin.payments.p2wsh] and [p2wpkh]
       give a version-0 witness program *)

Module Bech32.
Local Open Scope Z_scope.

Definition charset : list ascii :=
  list_ascii_of_string "qpzry9x8gf2tvdw0s3jn54khce6mua7l".

Definition GEN : list (Z * Z) :=
  [ (0, 0x3b6a57b2); (1, 0x26508e6d); (2, 0x1ea119fa);
    (3, 0x3d4233dd); (4, 0x2a1462b3) ].

Definition polymodStep (chk v : Z) : Z :=
  let b := Z.shiftr chk 25 in
  fold_left (fun c g => if Z.testbit b (fst g) then Z.lxor c (snd g) else c) GEN
    (Z.lxor (Z.shiftl (Z.land chk 0x1ffffff) 5) v).

Definition polymod (values : list Z) : Z := fold_left polymodStep values 1.

Definition hrpExpand (hrp : string) : list Z :=
  let cs := map (fun c => Z.of_nat (nat_of_ascii c)) (list_ascii_of_string hrp) in
  map (fun c => Z.shiftr c 5) cs ++ [0] ++ map (fun c => Z.land c 31) cs.

Definition createChecksum (hrp : string) (data : list Z) : list Z :=
  let pm := Z.lxor (polymod (hrpExpand hrp ++ data ++ [0; 0; 0; 0; 0; 0])) 1 in
  map (fun i => Z.land (Z.shiftr pm (5 * (5 - i))) 31) [0; 1; 2; 3; 4; 5].

Definition bitsOfByte (b : byte) : list bool :=
  map (Z.testbit (Buf.Z_of_byte b)) [7; 6; 5; 4; 3; 2; 1; 0].

Definition wordOfBits (bits : list bool) : Z :=
  fold_left (fun acc (b : bool) => 2 * acc + (if b then 1 else 0)) bits 0.

(** Regrouping bytes into 5-bit words, the last one padded with zeros. *)
Definition toWords (bs : list byte) : list Z :=
  map (fun g => wordOfBits (firstn 5 (g ++ [false; false; false; false])))
      (Buf.chunks 5 (flat_map bitsOfByte bs)).

Definition encode (hrp : string) (version : Z) (program : list byte) : string :=
  let data := version :: toWords program in
  (hrp ++ "1" ++
   string_of_list_ascii
     (map (fun w => nth (Z.to_nat w) charset "q"%char)
          (data ++ createChecksum hrp data)))%string.

End Bech32.

(** Concrete inputs for creating a swap and for running the script. *)

Definition demoBody : Coordinator.CreateBody :=
  {| Coordinator.c_direction := Some "eth-to-btc"%string;
     Coordinator.c_btc_amount := Some 100000;
     Coordinator.c_eth_amount := Some "5"%string;
     Coordinator.c_btc_pubkey := None;
     Coordinator.c_eth_address := Some demoRecipient;
     Coordinator.c_expiration_hours := None |}.

Definition demoBadBody : Coordinator.CreateBody :=
  {| Coordinator.c_direction := Some "btc-to-ltc"%string;
     Coordinator.c_btc_amount := Some 100000;
     Coordinator.c_eth_amount := Some "5"%string;
     Coordinator.c_btc_pubkey := None;
     Coordinator.c_eth_address := Some demoRecipient;
     Coordinator.c_expiration_hours := None |}.

Definition emptyWorld : Server.World :=
  {| Server.db := ∅; Server.chain := ∅ |}.

(** The world after the demo swap was created at time 0. *)
Definition demoCreated : Server.World :=
  snd (Coordinator.create 0 demoSecretBytes demoBody emptyWorld).

Definition demoCreateObject : gmap string Server.JsValue :=
  list_to_map
    [ ("swap_id"%string, Server.JNum 1);
      ("hashlock"%string, Server.JStr demoHashlock);
      ("secret"%string, Server.JStr demoSecretHex);
      ("expiration"%string, Server.JNum 86400);
      ("direction"%string, Server.JStr "eth-to-btc") ].

(** Two public keys: the secp256k1 generator and its double. *)
Definition demoPubkey : list byte :=
  Buf.fromHex "0279be667ef9dcbbac55a06295ce870b07029bfcdb2dce28d959f2815b16f81798".
Definition demoRefundPubkey : list byte :=
  Buf.fromHex "02c6047f9441ed7d6d3045406e95c07cd85c778e4b8cef3ca7abac09b95c709ee5".

Definition demoParams : Btc.HTLCParams :=
  {| Btc.hashlock := SHA256.sha256 demoSecretBytes;
     Btc.recipientPubkey := demoPubkey; Btc.refundPubkey := demoRefundPubkey;
     Btc.locktime := 1700000000 |}.

(** A signature check that accepts the demo wallet's signature for either
    key. *)
Definition demoChecksig (sig pubkey : list byte) : bool :=
  bool_decide (sig = [x30]).

(** A swap whose Ethereum address is the server wallet itself, locked to
    the short secret text ["s3"] as the manager encodes it. *)
Definition demoShortSecret : string := "s3".

Definition demoSelfWorld : Server.World :=
  {| Server.db :=
       {[ 1 := Server.inserted_row 1 0 Server.BtcToEth
                 (Buf.toHex (SHA256.sha256
                    (repeat x00 30 ++ list_byte_of_string demoShortSecret)))
                 "7333" 100000 "5" None demoWallet 1000 ]};
     Server.chain := ∅ |}.

Definition demoSelfFunded : Server.World :=
  snd (Server.fund_eth (demoEnv 10) 1 demoSelfWorld).

(** [bitcoin.script.compile] on chunks whose pushes are shorter than 76
    bytes, as those of the redeem script are: opcode bytes, and each push as
    a length byte followed by the data. *)
Definition demoCompile (cs : list Btc.chunk) : list byte :=
  let push d := Buf.byte_of_Z (Z.of_nat (length d)) :: d in
  flat_map
    (fun c =>
       match c with
       | Btc.Op Btc.OP_IF => [x63]
       | Btc.Op Btc.OP_SHA256 => [xa8]
       | Btc.Op Btc.OP_EQUALVERIFY => [x88]
       | Btc.Op Btc.OP_CHECKSIG => [xac]
       | Btc.Op Btc.OP_ELSE => [x67]
       | Btc.Op Btc.OP_CHECKLOCKTIMEVERIFY => [xb1]
       | Btc.Op Btc.OP_DROP => [x75]
       | Btc.Op Btc.OP_ENDIF => [x68]
       | Btc.Push d => push d
       | Btc.PushNum n => push (Script.scriptNumEncode n)
       end) cs.

(** [bitcoin.payments.p2wsh] on testnet: the output script commits to the
    SHA-256 digest of the witness script, and the address is its Bech32
    form. *)
Definition demoP2wsh (witnessScript : list byte)
    : option string * option (list byte) :=
  (Some (Bech32.encode "tb" 0 (SHA256.sha256 witnessScript)),
   Some ([x00; x20] ++ SHA256.sha256 witnessScript)).

Definition demoHtlcScript : Btc.HTLCScript :=
  {| Btc.redeemScript := demoCompile (Btc.htlcChunks demoParams);
     Btc.address :=
       Bech32.encode "tb" 0 (SHA256.sha256 (demoCompile (Btc.htlcChunks demoParams)));
     Btc.scriptPubKey :=
       [x00; x20] ++ SHA256.sha256 (demoCompile (Btc.htlcChunks demoParams)) |}.

(** Concrete runs of the builders.  The wallet holds the key of
    [demoPubkey]; its key-hash output script and address are those of that
    key on testnet, and its signatures are left as the byte [0x30]. *)
Definition demoPublicKey (_ : unit) : list byte := demoPubkey.
Definition demoSign (_ : unit) (_ : Btc.Psbt) (_ : nat) : list byte := [x30].

Definition demoWalletScript : list byte :=
  Buf.fromHex "0014751e76e8199196d454941c45d1b3a323f1433bd6".
Definition demoWalletAddress : string :=
  Bech32.encode "tb" 0 (Buf.fromHex "751e76e8199196d454941c45d1b3a323f1433bd6").
Definition demoLockAddress : string := Btc.address demoHtlcScript.

(** The wallet signs for its own key-hash output, and for a script-hash
    output whose witness script it is given. *)
Definition demoCanSign (_ : unit) (script : list byte)
    (witnessScript : option (list byte)) (v : Z) : bool :=
  Btc.satoshi v &&
  match witnessScript with
  | None => bool_decide (script = demoWalletScript)
  | Some ws => bool_decide (script = [x00; x20] ++ SHA256.sha256 ws)
  end.

(** Of the texts used below, the two addresses decode on testnet. *)
Definition demoValidAddress (a : string) : bool :=
  String.eqb a demoWalletAddress || String.eqb a demoLockAddress.

Definition demoTxid : string :=
  "abababababababababababababababababababababababababababababababab".
Definition demoLockTxid : string :=
  "f0f0f0f0f0f0f0f0f0f0f0f0f0f0f0f0f0f0f0f0f0f0f0f0f0f0f0f0f0f0f0f0".

Definition demoLock : Btc.HtlcUtxo :=
  {| Btc.h_txid := demoLockTxid; Btc.h_vout := 0; Btc.h_value := 50000 |}.

Definition demoUtxo (v : Z) : Btc.Utxo :=
  {| Btc.txid := demoTxid; Btc.vout := 1; Btc.value := v;
     Btc.utxo_scriptPubKey := demoWalletScript |}.

Definition demoRedeemInput : Btc.TxInput :=
  {| Btc.in_hash := demoLockTxid; Btc.in_index := 0;
     Btc.in_sequence := 4294967295;
     Btc.witness := Btc.redeemWitness [x30] demoSecretBytes demoHtlcScript |}.

Definition demoRedeemTx : Btc.Transaction :=
  {| Btc.tx_locktime := 0;
     Btc.ins := [ demoRedeemInput ];
     Btc.outs := [ Btc.mkOutput demoWalletAddress 49000 ] |}.

Definition demoRefundInput : Btc.TxInput :=
  {| Btc.in_hash := demoLockTxid; Btc.in_index := 0;
     Btc.in_sequence := 4294967294;
     Btc.witness := Btc.refundWitness [x30] demoHtlcScript |}.

Definition demoRefundTx : Btc.Transaction :=
  {| Btc.tx_locktime := 1700000000;
     Btc.ins := [ demoRefundInput ];
     Btc.outs := [ Btc.mkOutput demoWalletAddress 49000 ] |}.

Definition demoCtx : Script.TxContext :=
  {| Script.ctx_locktime := 0; Script.ctx_sequence := 4294967295 |}.

(** * Properties *)

(** Known-answer tests: the Bech32 test vectors of BIP 173. *)
Example bech32_p2wsh_testnet :
  Bech32.encode "tb" 0
    (Buf.fromHex "1863143c14c5166804bd19203356da136c985678cd4d27a1b8c6329604903262") =
  "tb1qrp33g0q5c5txsp9arysrx4k6zdkfs4nce4xj0gdcccefvpysxf3q0sl5k7"%string.
Proof. vm_compute. reflexivity. Qed.

Example bech32_p2wpkh_mainnet :
  Bech32.encode "bc" 0 (Buf.fromHex "751e76e8199196d454941c45d1b3a323f1433bd6") =
  "bc1qw508d6qejxtdg4y5r3zarvary0c5xw7kv8f3t4"%string.
Proof. vm_compute. reflexivity. Qed.

Example demoWalletAddress_text :
  demoWalletAddress = "tb1qw508d6qejxtdg4y5r3zarvary0c5xw7kxpjzsx"%string.
Proof. vm_compute. reflexivity. Qed.

(** Known-answer tests for the two digests. *)
Example sha256_abc :
  Buf.toHex (SHA256.sha256 (list_byte_of_string "abc")) =
  "ba7816bf8f01cfea414140de5dae2223b00361a396177a9cb410ff61f20015ad"%string.
Proof. vm_compute. reflexivity. Qed.

Example sha256_empty :
  Buf.toHex (SHA256.sha256 []) =
  "e3b0c44298fc1c149afbf4c8996fb92427ae41e4649b934ca495991b7852b855"%string.
Proof. vm_compute. reflexivity. Qed.

Example keccak256_empty :
  Buf.toHex (Keccak.keccak256 []) =
  "c5d2460186f7233c927e7db2dcc703c0e500b653ca82273b7bfad8045d85a470"%string.
Proof. vm_compute. reflexivity. Qed.

Example keccak256_abc :
  Buf.toHex (Keccak.keccak256 (list_byte_of_string "abc")) =
  "4e03657aea45a94fc7d47ba826c8d667c0d1e6e33a64a036ec44f58fa12d6c45"%string.
Proof. vm_compute. reflexivity. Qed.

(** ** The HTLC builder *)

Section BtcProperties.
Import Btc.
Local Open Scope Z_scope.

Variable KeyPair : Type.
Variable publicKey : KeyPair -> list byte.
Variable sign : KeyPair -> Psbt -> nat -> list byte.
Variable canSign : KeyPair -> list byte -> option (list byte) -> Z -> bool.
Variable validAddress : string -> bool.

Local Notation buildRedeemTx := (buildRedeemTx KeyPair publicKey sign canSign validAddress).
Local Notation buildRefundTx := (buildRefundTx KeyPair publicKey sign canSign validAddress).
Local Notation buildFundingTx := (buildFundingTx KeyPair publicKey sign canSign validAddress).
Local Notation signInput := (signInput KeyPair publicKey sign canSign).
Local Notation signAll := (signAll KeyPair publicKey sign canSign).
Local Notation addOutput := (addOutput validAddress).
Local Notation fundable := (fundable KeyPair canSign).

Lemma bind_Ok_inv {E A B} (m : result E A) (f : A -> result E B) (y : B) :
  (x ← m; f x) = Ok y -> exists x, m = Ok x /\ f x = Ok y.
Proof. destruct m as [x|e]; cbn; [eauto|discriminate]. Qed.

(** *** The spending builders never get past [finalizeInput] *)

(** A finalizer that hands back an array of items is refused, whatever the
    PSBT and the input. *)
Lemma finalizeInput_items (p : Psbt) (i : nat)
    (f : PsbtInput -> result error FinalScriptWitness) :
  (forall inp w, f inp = Ok w -> exists items, w = WitnessItems items) ->
  is_ok (finalizeInput p i f) = false.
Proof.
  intros Hf. unfold finalizeInput.
  destruct (psbt_inputs p !! i) as [inp|]; [|reflexivity].
  destruct (f inp) as [w|e] eqn:E; [|reflexivity].
  destruct (Hf inp w E) as [items ->]. reflexivity.
Qed.

Lemma redeemFinalizer_items (secret : list byte) (s : HTLCScript)
    (inp : PsbtInput) (w : FinalScriptWitness) :
  redeemFinalizer secret s inp = Ok w -> exists items, w = WitnessItems items.
Proof.
  unfold redeemFinalizer. destruct (firstSignature inp); cbn; [|discriminate].
  intros [= <-]. eauto.
Qed.

Lemma refundFinalizer_items (s : HTLCScript) (inp : PsbtInput)
    (w : FinalScriptWitness) :
  refundFinalizer s inp = Ok w -> exists items, w = WitnessItems items.
Proof.
  unfold refundFinalizer. destruct (firstSignature inp); cbn; [|discriminate].
  intros [= <-]. eauto.
Qed.

(** C6: [buildRedeemTx] returns no transaction, for any lock output, script,
    address, secret and key: its finalizer hands [finalizeInput] the array
    [script.toStack] returns where the library takes one Buffer, so the
    call is refused on every PSBT, and every run of the builder that reaches
    it ends there.  The array itself has the secret in second place: in a
    transaction whose input carried it, [extractSecretFromTx] would read
    back exactly the 32-byte secret. *)
Theorem redeem_tx_never_built (u : HtlcUtxo) (s : HTLCScript) (addr : string)
    (secret : list byte) (k : KeyPair) :
  (forall (p : Psbt) (i : nat),
     is_ok (finalizeInput p i (redeemFinalizer secret s)) = false) /\
  is_ok (buildRedeemTx u s addr secret k) = false /\
  (length secret = 32%nat ->
   forall (sig : list byte) (tx : Transaction),
     map witness (ins tx) = [redeemWitness sig secret s] ->
     extractSecretFromTx tx = Some secret).
Proof.
  assert (Hfin : forall (p : Psbt) (i : nat),
             is_ok (finalizeInput p i (redeemFinalizer secret s)) = false).
  { intros p i. apply finalizeInput_items. apply redeemFinalizer_items. }
  split; [exact Hfin|]. split.
  - unfold Btc.buildRedeemTx.
    destruct (addInput _ _) as [p1|]; cbn; [|reflexivity].
    destruct (addOutput p1 _ _) as [p2|]; cbn; [|reflexivity].
    destruct (signInput p2 0 k) as [p3|]; cbn; [|reflexivity].
    specialize (Hfin p3 0%nat).
    destruct (finalizeInput p3 0 _); [discriminate|reflexivity].
  - intros Hlen sig tx Hw. unfold extractSecretFromTx.
    destruct (ins tx) as [|i [|i' l]]; try discriminate.
    cbn in Hw. injection Hw as Hw. cbn. rewrite Hw. cbn. rewrite Hlen.
    reflexivity.
Qed.


(** *** Signing and finalizing the inputs of the funding transaction *)

Lemma same_frame_refl p : same_frame p p.
Proof. repeat split. Qed.

Lemma same_frame_trans p q r : same_frame p q -> same_frame q r -> same_frame p r.
Proof.
  intros (A1 & A2 & A3 & A4) (B1 & B2 & B3 & B4).
  repeat split; congruence.
Qed.

Lemma same_frame_update (p : Psbt) (i : nat) (inp inp' : PsbtInput) :
  psbt_inputs p !! i = Some inp ->
  pi_value inp' = pi_value inp ->
  same_frame p (with_inputs p (<[i := inp']> (psbt_inputs p))).
Proof.
  intros Hi Hv. repeat split; cbn.
  - apply length_insert.
  - rewrite list_fmap_insert, Hv. apply list_insert_id.
    rewrite list_lookup_fmap, Hi. reflexivity.
Qed.

(** The key can sign this input. *)
Local Notation signable k inp :=
  (canSign k (pi_script inp) (pi_witnessScript inp) (pi_value inp) = true).

Lemma signInput_same_frame (k : KeyPair) (p q : Psbt) (i : nat) :
  signInput p i k = Ok q -> same_frame p q.
Proof.
  unfold Btc.signInput.
  destruct (psbt_inputs p !! i) as [inp|] eqn:Hi; [|discriminate].
  destruct (canSign _ _ _ _); [|discriminate].
  intros [= <-]. apply (same_frame_update p i inp); auto.
Qed.

Lemma finalizeInput_same_frame (p q : Psbt) (i : nat) :
  finalizeInput p i keyHashFinalizer = Ok q -> same_frame p q.
Proof.
  unfold finalizeInput.
  destruct (psbt_inputs p !! i) as [inp|] eqn:Hi; [|discriminate].
  unfold keyHashFinalizer. destruct (pi_partialSig inp); [discriminate|].
  cbn. intros [= <-]. apply (same_frame_update p i inp); auto.
Qed.

Lemma fold_steps_inv {A} (step : Psbt -> A -> result error Psbt)
    (R : Psbt -> Psbt -> Prop) :
  (forall p, R p p) ->
  (forall p q q' a, R p q -> step q a = Ok q' -> R p q') ->
  forall l p q,
    fold_left (fun acc a => p' ← acc; step p' a) l (Ok p) = Ok q -> R p q.
Proof.
  intros Hrefl Hstep l p.
  assert (G : forall (l : list A) (acc : result error Psbt) q,
             (forall q0, acc = Ok q0 -> R p q0) ->
             fold_left (fun acc a => p' ← acc; step p' a) l acc = Ok q -> R p q).
  { clear l. induction l as [|a l IH]; intros acc q Hacc H; cbn in H.
    - apply Hacc, H.
    - apply (IH _ q) in H; [exact H|].
      intros q0 Hq0. apply bind_Ok_inv in Hq0. destruct Hq0 as (q1 & -> & Hs).
      eapply Hstep; [apply Hacc; reflexivity|exact Hs]. }
  intros q H. apply (G l (Ok p) q); [|exact H].
  intros q0 [= <-]. apply Hrefl.
Qed.

Lemma signAll_same_frame (k : KeyPair) (n : nat) (p q : Psbt) :
  signAll n p k = Ok q -> same_frame p q.
Proof.
  apply (fold_steps_inv (fun p i => signInput p i k) same_frame).
  - apply same_frame_refl.
  - intros p0 q0 q' a H0 Hs. eapply same_frame_trans; [exact H0|].
    eapply signInput_same_frame, Hs.
Qed.

Lemma finalizeAllInputs_inv (p q : Psbt) :
  finalizeAllInputs p = Ok q -> psbt_inputs p <> [] /\ same_frame p q.
Proof.
  unfold finalizeAllInputs.
  destruct (psbt_inputs p) as [|a l] eqn:E; [discriminate|].
  rewrite <- E. intros H. split; [rewrite E; discriminate|].
  revert H. apply (fold_steps_inv (fun p i => finalizeInput p i keyHashFinalizer) same_frame).
  - apply same_frame_refl.
  - intros p0 q0 q' i H0 Hs. eapply same_frame_trans; [exact H0|].
    eapply finalizeInput_same_frame, Hs.
Qed.

Lemma signAll_from (k : KeyPair) (l : list nat) : forall p : Psbt,
  (forall i, i ∈ l -> exists inp, psbt_inputs p !! i = Some inp /\ signable k inp) ->
  exists q,
    fold_left (fun acc i => p' ← acc; signInput p' i k) l (Ok p) = Ok q /\
    same_frame p q /\
    (forall j inp', psbt_inputs q !! j = Some inp' ->
       j ∈ l \/ (exists inp, psbt_inputs p !! j = Some inp /\ signed inp) ->
       signed inp') /\
    (forall j inp', psbt_inputs q !! j = Some inp' ->
       exists inp, psbt_inputs p !! j = Some inp /\ pi_final inp' = pi_final inp).
Proof.
  induction l as [|a l IH]; intros p Hl.
  - exists p. cbn. split; [reflexivity|]. split; [apply same_frame_refl|]. split.
    + intros j inp' Hj [Hin|(inp & Hp & Hs)]; [inversion Hin|]. congruence.
    + intros j inp' Hj. eauto.
  - destruct (Hl a) as (inp & Ha & Hcs); [left|].
    set (ps := {| ps_pubkey := publicKey k; ps_signature := sign k p a |}).
    set (p1 := with_inputs p (<[a := set_partialSig inp ps]> (psbt_inputs p))).
    assert (Hf1 : same_frame p p1) by (apply (same_frame_update p a inp); auto).
    destruct (IH p1) as (q & Hq & Hf & Hsig & Hfin).
    { intros i Hi. destruct (Hl i) as (inp0 & H0 & Hc0); [right; exact Hi|].
      cbn. destruct (decide (i = a)) as [->|Hne].
      - rewrite list_lookup_insert_eq by (eapply lookup_lt_Some; eauto).
        eexists. split; [reflexivity|]. cbn. exact Hcs.
      - rewrite list_lookup_insert_ne by auto. eauto. }
    exists q. split.
    { cbn. unfold Btc.signInput at 2. rewrite Ha, Hcs. exact Hq. }
    split; [eapply same_frame_trans; eauto|]. split.
    + intros j inp' Hj Hcase. apply (Hsig j inp' Hj).
      destruct (decide (j = a)) as [->|Hne].
      * right. exists (set_partialSig inp ps). split.
        -- cbn. apply list_lookup_insert_eq. eapply lookup_lt_Some; eauto.
        -- unfold signed. cbn. destruct (pi_partialSig inp); discriminate.
      * destruct Hcase as [Hin|(inp0 & Hp & Hs)].
        -- left. apply elem_of_cons in Hin as [?|?]; [contradiction|assumption].
        -- right. exists inp0. split; [|exact Hs].
           cbn. rewrite list_lookup_insert_ne by auto. exact Hp.
    + intros j inp' Hj. destruct (Hfin j inp' Hj) as (inp1 & H1 & E1).
      cbn in H1. destruct (decide (j = a)) as [->|Hne].
      * rewrite list_lookup_insert_eq in H1 by (eapply lookup_lt_Some; eauto).
        injection H1 as <-. exists inp. split; [exact Ha|exact E1].
      * rewrite list_lookup_insert_ne in H1 by auto. eauto.
Qed.

Lemma finalizeAll_from (l : list nat) : forall p : Psbt,
  (forall i, i ∈ l -> exists inp, psbt_inputs p !! i = Some inp /\ signed inp) ->
  exists q,
    fold_left (fun acc i => p' ← acc; finalizeInput p' i keyHashFinalizer) l (Ok p)
      = Ok q /\
    same_frame p q /\
    (forall j inp', psbt_inputs q !! j = Some inp' ->
       j ∈ l \/ (exists inp, psbt_inputs p !! j = Some inp /\ finalized inp = true) ->
       finalized inp' = true).
Proof.
  induction l as [|a l IH]; intros p Hl.
  - exists p. cbn. split; [reflexivity|]. split; [apply same_frame_refl|].
    intros j inp' Hj [Hin|(inp & Hp & Hs)]; [inversion Hin|]. congruence.
  - destruct (Hl a) as (inp & Ha & Hs); [left|].
    destruct (pi_partialSig inp) as [|sig sigs] eqn:Esig; [contradiction|].
    set (p1 := with_inputs p
                 (<[a := set_final inp [ps_signature sig; ps_pubkey sig]]> (psbt_inputs p))).
    assert (Hf1 : same_frame p p1) by (apply (same_frame_update p a inp); auto).
    destruct (IH p1) as (q & Hq & Hf & Hfin).
    { intros i Hi. destruct (Hl i) as (inp0 & H0 & Hs0); [right; exact Hi|].
      cbn. destruct (decide (i = a)) as [->|Hne].
      - rewrite list_lookup_insert_eq by (eapply lookup_lt_Some; eauto).
        eexists. split; [reflexivity|]. unfold signed. cbn. congruence.
      - rewrite list_lookup_insert_ne by auto. eauto. }
    exists q. split.
    { cbn. unfold finalizeInput at 2. rewrite Ha. unfold keyHashFinalizer at 2.
      rewrite Esig. exact Hq. }
    split; [eapply same_frame_trans; eauto|].
    intros j inp' Hj Hcase. apply (Hfin j inp' Hj).
    destruct (decide (j = a)) as [->|Hne].
    + right. exists (set_final inp [ps_signature sig; ps_pubkey sig]). split.
      * cbn. apply list_lookup_insert_eq. eapply lookup_lt_Some; eauto.
      * reflexivity.
    + destruct Hcase as [Hin|(inp0 & Hp & Hfz)].
      * left. apply elem_of_cons in Hin as [?|?]; [contradiction|assumption].
      * right. exists inp0. split; [|exact Hfz].
        cbn. rewrite list_lookup_insert_ne by auto. exact Hp.
Qed.

Lemma sign_then_finalize (k : KeyPair) (p : Psbt) :
  psbt_inputs p <> [] ->
  Forall (fun inp => signable k inp) (psbt_inputs p) ->
  exists q r,
    signAll (length (psbt_inputs p)) p k = Ok q /\
    finalizeAllInputs q = Ok r /\
    same_frame p r /\
    forallb finalized (psbt_inputs r) = true.
Proof.
  intros Hne Hcs.
  destruct (signAll_from k (seq 0 (length (psbt_inputs p))) p) as (q & Hq & Hf & Hsig & _).
  { intros i Hi. apply elem_of_seq in Hi.
    destruct (lookup_lt_is_Some_2 (psbt_inputs p) i) as [inp Hi']; [lia|].
    exists inp. split; [exact Hi'|].
    eapply Forall_forall in Hcs; [exact Hcs|]. eapply list_elem_of_lookup_2, Hi'. }
  assert (Hlen : length (psbt_inputs q) = length (psbt_inputs p)) by apply Hf.
  destruct (finalizeAll_from (seq 0 (length (psbt_inputs q))) q) as (r & Hr & Hf' & Hfin).
  { intros i Hi. apply elem_of_seq in Hi.
    destruct (lookup_lt_is_Some_2 (psbt_inputs q) i) as [inp Hi']; [lia|].
    exists inp. split; [exact Hi'|]. apply (Hsig i inp Hi'). left.
    apply elem_of_seq. lia. }
  exists q, r. split; [exact Hq|]. split.
  { unfold finalizeAllInputs. destruct (psbt_inputs q) as [|a l] eqn:E.
    - exfalso. apply Hne. destruct (psbt_inputs p); [reflexivity|discriminate Hlen].
    - exact Hr. }
  split; [eapply same_frame_trans; eauto|].
  apply forallb_forall. intros inp Hin.
  apply list_elem_of_In, list_elem_of_lookup in Hin as [j Hj].
  apply (Hfin j inp Hj). left. apply elem_of_seq.
  apply lookup_lt_Some in Hj. destruct Hf' as (_ & _ & Hlen' & _). lia.
Qed.

(** *** The funding transaction *)

Lemma fold_sum_shift {A} (f : A -> Z) (l : list A) (a : Z) :
  fold_left (fun acc x => acc + f x) l a = a + sum_values f l.
Proof.
  unfold sum_values. revert a. induction l as [|x l IH]; intros a; cbn.
  - lia.
  - rewrite (IH (a + f x)), (IH (0 + f x)). lia.
Qed.

Lemma sum_values_cons {A} (f : A -> Z) (x : A) (l : list A) :
  sum_values f (x :: l) = f x + sum_values f l.
Proof. unfold sum_values at 1. cbn. apply fold_sum_shift. Qed.

Lemma sum_values_map {A} (f : A -> Z) (l : list A) :
  sum_values f l = sum_values (fun z => z) (map f l).
Proof.
  induction l as [|x l IH]; [reflexivity|].
  cbn [map]. rewrite !sum_values_cons, IH. reflexivity.
Qed.

(** One turn of the loop over the wallet outputs. *)
Local Notation addUtxo :=
  (fun (acc : result error (Psbt * Z)) (u : Utxo) =>
     st ← acc;
     p' ← addInput (fst st) (fundingInput u);
     Ok (p', snd st + value u)).

Lemma addUtxos_Err (utxos : list Utxo) (e : error) :
  fold_left addUtxo utxos (Err e) = Err e.
Proof. induction utxos as [|u l IH]; [reflexivity|]. cbn. exact IH. Qed.

Lemma addInput_inv (p q : Psbt) (i : PsbtInput) :
  addInput p i = Ok q ->
  validOutpoint (pi_hash i) (pi_index i) = true /\
  (forall j, In j (psbt_inputs p) ->
     spent (pi_hash j) (pi_index j) <> spent (pi_hash i) (pi_index i)) /\
  q = with_inputs p (psbt_inputs p ++ [i]).
Proof.
  unfold addInput.
  destruct (validOutpoint _ _); cbn [negb]; [|discriminate].
  destruct (existsb _ _) eqn:Ex; [discriminate|].
  intros [= <-]. split; [reflexivity|]. split; [|reflexivity].
  intros j Hj Heq.
  assert (Ht : existsb (fun j0 => bool_decide (spent (pi_hash j0) (pi_index j0)
                                             = spent (pi_hash i) (pi_index i)))
                 (psbt_inputs p) = true).
  { apply existsb_exists. exists j. split; [exact Hj|].
    apply bool_decide_eq_true_2, Heq. }
  congruence.
Qed.

Lemma addInput_intro (p : Psbt) (i : PsbtInput) :
  validOutpoint (pi_hash i) (pi_index i) = true ->
  (forall j, In j (psbt_inputs p) ->
     spent (pi_hash j) (pi_index j) <> spent (pi_hash i) (pi_index i)) ->
  addInput p i = Ok (with_inputs p (psbt_inputs p ++ [i])).
Proof.
  intros Hv Hd. unfold addInput. rewrite Hv. cbn [negb].
  destruct (existsb _ _) eqn:Ex; [|reflexivity].
  apply existsb_exists in Ex. destruct Ex as (j & Hj & Hb).
  apply bool_decide_eq_true_1 in Hb. exfalso. exact (Hd j Hj Hb).
Qed.

Lemma addUtxos_from_inv (utxos : list Utxo) : forall (p q : Psbt) (t t' : Z),
  fold_left addUtxo utxos (Ok (p, t)) = Ok (q, t') ->
  q = with_inputs p (psbt_inputs p ++ map fundingInput utxos) /\
  t' = t + sum_values value utxos.
Proof.
  induction utxos as [|u l IH]; intros p q t t' H.
  - cbn in H. injection H as <- <-. unfold with_inputs, sum_values. cbn.
    rewrite app_nil_r, Z.add_0_r. destruct p; auto.
  - cbn [fold_left] in H. cbn [mbind result_bind fst snd] in H.
    destruct (addInput p (fundingInput u)) as [p1|e] eqn:E.
    + cbn in H. apply addInput_inv in E. destruct E as (_ & _ & ->).
      apply IH in H. destruct H as [-> ->]. rewrite sum_values_cons.
      unfold with_inputs. cbn. rewrite <- app_assoc. cbn. split; [reflexivity|lia].
    + cbn in H. rewrite addUtxos_Err in H. discriminate.
Qed.

Lemma addUtxos_inv (utxos : list Utxo) (p : Psbt) (t : Z) :
  addUtxos utxos newPsbt = Ok (p, t) ->
  p = {| psbt_locktime := 0; psbt_inputs := map fundingInput utxos;
         psbt_outputs := [] |} /\
  t = sum_values value utxos.
Proof.
  intros H. apply addUtxos_from_inv in H. destruct H as [-> ->]. auto.
Qed.

Lemma addUtxos_from_intro (utxos : list Utxo) : forall (p : Psbt) (t : Z),
  Forall (fun u => validOutpoint (txid u) (vout u) = true) utxos ->
  NoDup (map (fun i => spent (pi_hash i) (pi_index i)) (psbt_inputs p)
         ++ map (fun u => spent (txid u) (vout u)) utxos) ->
  fold_left addUtxo utxos (Ok (p, t)) =
  Ok (with_inputs p (psbt_inputs p ++ map fundingInput utxos),
      t + sum_values value utxos).
Proof.
  induction utxos as [|u l IH]; intros p t Hv Hd.
  - cbn. unfold with_inputs, sum_values. cbn.
    rewrite app_nil_r, Z.add_0_r. destruct p; reflexivity.
  - cbn [fold_left]. cbn [mbind result_bind fst snd].
    inversion Hv as [|? ? Hvu Hvl]; subst.
    rewrite (addInput_intro p (fundingInput u)).
    + cbn [mbind result_bind]. rewrite IH.
      * rewrite sum_values_cons. unfold with_inputs. cbn.
        rewrite <- app_assoc. cbn. do 2 f_equal. lia.
      * exact Hvl.
      * cbn [with_inputs psbt_inputs]. rewrite map_app. cbn [map fundingInput pi_hash pi_index].
        rewrite <- app_assoc. exact Hd.
    + exact Hvu.
    + intros j Hj Heq. cbn [fundingInput pi_hash pi_index] in Heq.
      apply NoDup_app in Hd. destruct Hd as (_ & Hd & _).
      apply (Hd (spent (pi_hash j) (pi_index j))).
      * apply list_elem_of_In, in_map_iff. exists j. auto.
      * rewrite Heq. cbn [map]. left.
Qed.

Lemma addOutput_eq (p : Psbt) (addr : string) (v : Z) :
  addOutput p addr v =
  if negb (validAddress addr) then Err InvalidAddress
  else if satoshi v
  then Ok {| psbt_locktime := psbt_locktime p; psbt_inputs := psbt_inputs p;
             psbt_outputs := psbt_outputs p ++ [mkOutput addr v] |}
  else Err InvalidSatoshi.
Proof. reflexivity. Qed.

Lemma addOutput_inv (p q : Psbt) (addr : string) (v : Z) :
  addOutput p addr v = Ok q ->
  validAddress addr = true /\ satoshi v = true /\
  q = {| psbt_locktime := psbt_locktime p; psbt_inputs := psbt_inputs p;
         psbt_outputs := psbt_outputs p ++ [mkOutput addr v] |}.
Proof.
  rewrite addOutput_eq. destruct (validAddress addr); cbn [negb]; [|discriminate].
  destruct (satoshi v); [|discriminate]. intros [= <-]. auto.
Qed.

(** What a funding transaction that was built looks like. *)
Lemma buildFundingTx_inv (utxos : list Utxo) (htlcAddress : string)
    (amount : Z) (changeAddress : string) (k : KeyPair) (tx : Transaction) :
  let total := sum_values value utxos in
  let change := total - amount - 1000 in
  buildFundingTx utxos htlcAddress amount changeAddress k = Ok tx ->
  outs tx = mkOutput htlcAddress amount ::
            (if 546 <? change then [mkOutput changeAddress change] else []) /\
  length (ins tx) = length utxos /\
  0 <= total - sum_values out_value (outs tx).
Proof.
  intros total change. unfold Btc.buildFundingTx. intros H.
  apply bind_Ok_inv in H. destruct H as ([p0 t0] & E0 & H).
  apply addUtxos_inv in E0. destruct E0 as [-> ->]. fold total in H.
  apply bind_Ok_inv in H. destruct H as (p1 & E1 & H).
  apply bind_Ok_inv in H. destruct H as (p2 & E2 & H).
  apply bind_Ok_inv in H. destruct H as (p3 & E3 & H).
  apply bind_Ok_inv in H. destruct H as (p4 & E4 & H).
  apply addOutput_inv in E1. destruct E1 as (_ & _ & ->).
  cbn [psbt_locktime psbt_inputs psbt_outputs app] in E2.
  fold change in E2.
  assert (I2 : psbt_inputs p2 = map fundingInput utxos /\
               psbt_outputs p2 = mkOutput htlcAddress amount ::
                 (if 546 <? change then [mkOutput changeAddress change] else [])).
  { destruct (546 <? change).
    - apply addOutput_inv in E2. destruct E2 as (_ & _ & ->). auto.
    - injection E2 as <-. auto. }
  destruct I2 as [I2 O2].
  apply signAll_same_frame in E3. apply finalizeAllInputs_inv in E4.
  destruct E4 as [_ E4].
  pose proof (same_frame_trans _ _ _ E3 E4) as (F1 & F2 & F3 & F4).
  unfold extractTransaction in H.
  destruct (negb _); [discriminate|].
  destruct (_ <? 0) eqn:Ef; [discriminate|].
  injection H as <-. cbn [outs ins].
  rewrite F2, O2. split; [reflexivity|]. split.
  - rewrite length_map, F3, I2. apply length_map.
  - apply Z.ltb_ge in Ef.
    rewrite (sum_values_map pi_value), F4, I2, F2, O2 in Ef.
    rewrite map_map in Ef. cbn [fundingInput pi_value] in Ef.
    rewrite <- (sum_values_map value) in Ef. exact Ef.
Qed.

(** Inputs the key can spend and outputs the library accepts make the
    builder succeed as long as the outputs do not exceed the inputs. *)
Lemma buildFundingTx_intro (utxos : list Utxo) (htlcAddress : string)
    (amount : Z) (changeAddress : string) (k : KeyPair) :
  let total := sum_values value utxos in
  let change := total - amount - 1000 in
  fundable utxos k ->
  validAddress htlcAddress = true ->
  (546 < change -> validAddress changeAddress = true) ->
  satoshi amount = true -> amount <= total -> change <= SATOSHI_MAX ->
  is_ok (buildFundingTx utxos htlcAddress amount changeAddress k) = true.
Proof.
  intros total change (Hne & Hvalid & Hdup & Hcs) Hva Hvc Ha Hcover Hmax.
  unfold Btc.buildFundingTx, addUtxos.
  rewrite (addUtxos_from_intro utxos newPsbt 0 Hvalid) by exact Hdup.
  cbn [mbind result_bind]. unfold with_inputs, newPsbt.
  cbn [psbt_inputs app psbt_locktime psbt_outputs].
  rewrite Z.add_0_l. fold total. fold change.
  rewrite addOutput_eq, Hva, Ha.
  cbn [negb mbind result_bind psbt_locktime psbt_inputs psbt_outputs app].
  set (os := mkOutput htlcAddress amount ::
             (if 546 <? change then [mkOutput changeAddress change] else [])).
  assert (E2 : (if 546 <? change
                then addOutput {| psbt_locktime := 0;
                                  psbt_inputs := map fundingInput utxos;
                                  psbt_outputs := [mkOutput htlcAddress amount] |}
                       changeAddress change
                else Ok {| psbt_locktime := 0;
                           psbt_inputs := map fundingInput utxos;
                           psbt_outputs := [mkOutput htlcAddress amount] |})
               = Ok {| psbt_locktime := 0; psbt_inputs := map fundingInput utxos;
                       psbt_outputs := os |}).
  { subst os. destruct (546 <? change) eqn:Ec; [|reflexivity].
    apply Z.ltb_lt in Ec. rewrite addOutput_eq, (Hvc Ec). cbn [negb].
    assert (Hs : satoshi change = true).
    { apply andb_true_iff. split; apply Z.leb_le; lia. }
    rewrite Hs. reflexivity. }
  rewrite E2. cbn [mbind result_bind].
  set (p2 := {| psbt_locktime := 0; psbt_inputs := map fundingInput utxos;
                psbt_outputs := os |}).
  destruct (sign_then_finalize k p2) as (q & r & Hq & Hr & Hf & Hfin).
  { cbn. destruct utxos; [contradiction|discriminate]. }
  { cbn. apply Forall_forall. intros inp Hin.
    apply list_elem_of_In, in_map_iff in Hin. destruct Hin as (u & <- & Hu).
    cbn. eapply Forall_forall in Hcs; [exact Hcs|]. apply list_elem_of_In, Hu. }
  replace (length utxos) with (length (psbt_inputs p2)) by (cbn; apply length_map).
  rewrite Hq. cbn [mbind result_bind]. rewrite Hr. cbn [mbind result_bind].
  destruct Hf as (F1 & F2 & F3 & F4).
  unfold extractTransaction. rewrite Hfin. cbn [negb].
  rewrite (sum_values_map pi_value), F4, F2. cbn [p2 psbt_inputs psbt_outputs].
  rewrite map_map. cbn [fundingInput pi_value].
  rewrite <- (sum_values_map value). fold total.
  assert (Hsum : sum_values out_value os
                 = if 546 <? change then amount + change else amount).
  { subst os. destruct (546 <? change); rewrite !sum_values_cons;
      unfold sum_values; cbn; lia. }
  rewrite Hsum.
  destruct (546 <? change) eqn:Ec.
  - replace (total - (amount + change) <? 0) with false; [reflexivity|].
    symmetry. apply Z.ltb_ge. subst change. lia.
  - replace (total - amount <? 0) with false; [reflexivity|].
    symmetry. apply Z.ltb_ge. lia.
Qed.

(** C7 (amended): [buildFundingTx] emits one output of exactly [amount] to
    the lock address and adds a change output of
    [totalInput - amount - 1000] exactly when that remainder exceeds 546;
    otherwise the lock output is the only one and the fee paid is
    [totalInput - amount].  It fails when [totalInput] is below [amount]
    (the outputs would spend more than the inputs).  Given at least one
    wallet output, all distinct, well-formed and signable by the key, and
    addresses the library accepts, it succeeds for every satoshi amount
    that the inputs cover, also when they do not cover the 1000-unit fee on
    top of it. *)
Theorem funding_tx_outputs (utxos : list Utxo) (htlcAddress : string)
    (amount : Z) (changeAddress : string) (k : KeyPair) :
  let total := sum_values value utxos in
  let change := total - amount - 1000 in
  let r := buildFundingTx utxos htlcAddress amount changeAddress k in
  (forall tx, r = Ok tx ->
     outs tx = mkOutput htlcAddress amount ::
               (if 546 <? change then [mkOutput changeAddress change] else []) /\
     length (ins tx) = length utxos /\
     total - sum_values out_value (outs tx) =
       (if 546 <? change then 1000 else total - amount) /\
     amount <= total) /\
  (total < amount -> is_ok r = false) /\
  (fundable utxos k ->
   validAddress htlcAddress = true ->
   (546 < change -> validAddress changeAddress = true) ->
   satoshi amount = true -> amount <= total -> change <= SATOSHI_MAX ->
   is_ok r = true).
Proof.
  intros total change r.
  assert (Hsum : sum_values out_value
            (mkOutput htlcAddress amount ::
             (if 546 <? change then [mkOutput changeAddress change] else []))
          = if 546 <? change then amount + change else amount).
  { destruct (546 <? change); rewrite !sum_values_cons; unfold sum_values; cbn; lia. }
  assert (Hinv : forall tx, r = Ok tx ->
     outs tx = mkOutput htlcAddress amount ::
               (if 546 <? change then [mkOutput changeAddress change] else []) /\
     length (ins tx) = length utxos /\
     total - sum_values out_value (outs tx) =
       (if 546 <? change then 1000 else total - amount) /\
     amount <= total).
  { intros tx Htx.
    destruct (buildFundingTx_inv utxos htlcAddress amount changeAddress k tx Htx)
      as (Ho & Hl & Hfee).
    fold total in Ho, Hfee. fold change in Ho.
    rewrite Ho in Hfee |- *. rewrite Hsum in Hfee |- *.
    split; [reflexivity|]. split; [exact Hl|].
    destruct (546 <? change) eqn:Ec.
    - apply Z.ltb_lt in Ec. subst change. split; lia.
    - split; lia. }
  split; [exact Hinv|]. split.
  - intros Hlt. destruct r as [tx|e] eqn:Er; [|reflexivity].
    destruct (Hinv tx eq_refl) as (_ & _ & _ & Hle). lia.
  - apply buildFundingTx_intro.
Qed.

End BtcProperties.

(** C6 at a concrete input: a 32-byte secret and a lock output of 50000
    paying to the script of [demoParams].  The builder ends at
    [finalizeInput]; no transaction is returned. *)
Lemma redeem_tx_never_built_witness :
  Btc.createHTLCScript demoCompile demoP2wsh demoParams = Ok demoHtlcScript /\
  Btc.buildRedeemTx unit demoPublicKey demoSign demoCanSign demoValidAddress
    demoLock demoHtlcScript demoWalletAddress demoSecretBytes tt
    = Err Btc.InvalidFinalWitness /\
  Btc.extractSecretFromTx demoRedeemTx = Some demoSecretBytes.
Proof.
  split; [reflexivity|]. split; [vm_compute; reflexivity|].
  destruct (redeem_tx_never_built unit demoPublicKey demoSign demoCanSign
              demoValidAddress demoLock demoHtlcScript demoWalletAddress
              demoSecretBytes tt) as (_ & _ & Hread).
  apply (Hread eq_refl [x30]). reflexivity.
Defined.


(** C7, as stated, fails: inputs worth 1500 do not cover the amount 1000
    plus the fee 1000, yet the builder returns a transaction, with the lock
    output alone. *)
Lemma funding_below_amount_plus_fee_succeeds :
  Btc.sum_values Btc.value [demoUtxo 1500] < 1000 + 1000 /\
  Btc.buildFundingTx unit demoPublicKey demoSign demoCanSign demoValidAddress
    [demoUtxo 1500] demoLockAddress 1000 demoWalletAddress tt
  = Ok {| Btc.tx_locktime := 0;
          Btc.ins := [ {| Btc.in_hash := demoTxid; Btc.in_index := 1;
                          Btc.in_sequence := 4294967295;
                          Btc.witness := [[x30]; demoPubkey] |} ];
          Btc.outs := [ Btc.mkOutput demoLockAddress 1000 ] |}.
Proof. split; vm_compute; reflexivity. Qed.

Lemma funding_tx_outputs_witness :
  is_ok (Btc.buildFundingTx unit demoPublicKey demoSign demoCanSign demoValidAddress
           [demoUtxo 1500] demoLockAddress 1000 demoWalletAddress tt) = true.
Proof.
  apply (funding_tx_outputs unit demoPublicKey demoSign demoCanSign demoValidAddress
           [demoUtxo 1500] demoLockAddress 1000 demoWalletAddress tt).
  - split; [discriminate|]. split; [repeat constructor|].
    split; [|repeat constructor].
    apply NoDup_cons. split; [intros H; inversion H|apply NoDup_nil_2].
  - vm_compute. reflexivity.
  - intros H. vm_compute in H. discriminate H.
  - reflexivity.
  - vm_compute. discriminate.
  - vm_compute. discriminate.
Defined.

(** ** The escrow contract *)

Section EscrowProperties.
Import EthEscrow.

Lemma claim_ok_inv (env : Env) (secret : list byte) (s : State) (o : Outcome) :
  claim env secret s = Ok o ->
  msg_sender env = recipient s /\ claimed s = false /\ refunded s = false /\
  SHA256.sha256 secret = hashlock s /\
  o = {| state := {| deployer := deployer s; recipient := recipient s;
                     hashlock := hashlock s; timeout := timeout s;
                     amount := amount s; claimed := true; refunded := false |};
         events := [SecretRevealed secret; Claimed (recipient s) (amount s)];
         transfers := [(recipient s, amount s)] |}.
Proof.
  unfold claim, onlyRecipient, notClaimed, notRefunded, require, bytes_eqb.
  destruct (String.eqb_spec (msg_sender env) (recipient s)) as [Hs|]; cbn; [|discriminate].
  destruct (claimed s) eqn:Ec; cbn; [discriminate|].
  destruct (refunded s) eqn:Er; cbn; [discriminate|].
  case_bool_decide as Hh; cbn; [|discriminate].
  unfold transfer, require. destruct (accepts env (recipient s)); cbn; [|discriminate].
  intros H. injection H as <-. auto.
Qed.

Lemma claim_ok_accepts (env : Env) (secret : list byte) (s : State) (o : Outcome) :
  claim env secret s = Ok o -> accepts env (recipient s) = true.
Proof.
  unfold claim, transfer, require.
  destruct (onlyRecipient env s); cbn; [|discriminate].
  destruct (notClaimed s); cbn; [|discriminate].
  destruct (notRefunded s); cbn; [|discriminate].
  destruct (bytes_eqb _ _); cbn; [|discriminate].
  destruct (accepts env (recipient s)); [reflexivity|discriminate].
Qed.

Lemma refund_ok_inv (env : Env) (s : State) (o : Outcome) :
  refund env s = Ok o ->
  msg_sender env = deployer s /\ timeout s <= block_timestamp env /\
  claimed s = false /\ refunded s = false /\
  o = {| state := {| deployer := deployer s; recipient := recipient s;
                     hashlock := hashlock s; timeout := timeout s;
                     amount := amount s; claimed := false; refunded := true |};
         events := [Refunded (deployer s) (amount s)];
         transfers := [(deployer s, amount s)] |}.
Proof.
  unfold refund, onlyDeployer, afterTimeout, notClaimed, notRefunded, require.
  destruct (String.eqb_spec (msg_sender env) (deployer s)) as [Hs|]; cbn; [|discriminate].
  destruct (timeout s <=? block_timestamp env) eqn:Et; cbn; [|discriminate].
  destruct (claimed s) eqn:Ec; cbn; [discriminate|].
  destruct (refunded s) eqn:Er; cbn; [discriminate|].
  unfold transfer, require. destruct (accepts env (deployer s)); cbn; [|discriminate].
  intros H. injection H as <-. apply Z.leb_le in Et. auto.
Qed.

Lemma refund_ok_accepts (env : Env) (s : State) (o : Outcome) :
  refund env s = Ok o -> accepts env (deployer s) = true.
Proof.
  unfold refund, transfer, require.
  destruct (onlyDeployer env s); cbn; [|discriminate].
  destruct (afterTimeout env s); cbn; [|discriminate].
  destruct (notClaimed s); cbn; [|discriminate].
  destruct (notRefunded s); cbn; [|discriminate].
  destruct (accepts env (deployer s)); [reflexivity|discriminate].
Qed.

Lemma claim_ok_intro (env : Env) (secret : list byte) (s : State) :
  msg_sender env = recipient s -> claimed s = false -> refunded s = false ->
  SHA256.sha256 secret = hashlock s ->
  accepts env (recipient s) = true ->
  is_ok (claim env secret s) = true.
Proof.
  intros Hs Hc Hr Hh Ha.
  unfold claim, onlyRecipient, notClaimed, notRefunded, transfer, require, bytes_eqb.
  rewrite Hs, String.eqb_refl, Hc, Hr. cbn.
  rewrite bool_decide_eq_true_2 by exact Hh. cbn. rewrite Ha. reflexivity.
Qed.

Lemma refund_ok_intro (env : Env) (s : State) :
  msg_sender env = deployer s -> timeout s <= block_timestamp env ->
  claimed s = false -> refunded s = false ->
  accepts env (deployer s) = true ->
  is_ok (refund env s) = true.
Proof.
  intros Hs Ht Hc Hr Ha.
  unfold refund, onlyDeployer, afterTimeout, notClaimed, notRefunded, transfer, require.
  rewrite Hs, String.eqb_refl, Hc, Hr. cbn.
  rewrite (proj2 (Z.leb_le _ _) Ht). cbn. rewrite Ha. reflexivity.
Qed.

(** C5 (amended): [claim(secret)] succeeds exactly when the caller is the
    recipient, neither flag is set, the SHA-256 digest of the secret is the
    stored hashlock, and the recipient's account takes the transfer of the
    amount.  The block timestamp plays no part, so such a claim succeeds at
    or after the timeout as well.  On success the new state differs from the
    old one only in [claimed = true], the secret is emitted in a
    [SecretRevealed] event, and [amount] is sent to the recipient. *)
Theorem claim_succeeds_iff (env : Env) (secret : list byte) (s : State) :
  (is_ok (claim env secret s) = true <->
     msg_sender env = recipient s /\ claimed s = false /\ refunded s = false /\
     SHA256.sha256 secret = hashlock s /\
     accepts env (recipient s) = true) /\
  (forall t : Z,
     claim {| msg_sender := msg_sender env; block_timestamp := t;
              accepts := accepts env |} secret s
     = claim env secret s) /\
  (forall o, claim env secret s = Ok o ->
     state o = {| deployer := deployer s; recipient := recipient s;
                  hashlock := hashlock s; timeout := timeout s;
                  amount := amount s; claimed := true;
                  refunded := false |} /\
     In (SecretRevealed secret) (events o) /\
     transfers o = [(recipient s, amount s)]).
Proof.
  split; [|split].
  - split.
    + destruct (claim env secret s) as [o|r] eqn:E; [|discriminate].
      intros _. destruct (claim_ok_inv env secret s o E) as (A & B & C & D & _).
      pose proof (claim_ok_accepts env secret s o E). auto.
    + intros (A & B & C & D & F). apply claim_ok_intro; auto.
  - intros t. reflexivity.
  - intros o E. destruct (claim_ok_inv env secret s o E) as (_ & _ & _ & _ & ->).
    cbn. auto.
Qed.

Lemma step_claimed (s : State) (c : Call) :
  claimed s = true -> step s c = s.
Proof.
  intros Hc. unfold step. destruct (call c s) as [o|r] eqn:E; [|reflexivity].
  destruct c as [env secret|env]; cbn in E.
  - apply claim_ok_inv in E. destruct E as (_ & E & _). congruence.
  - apply refund_ok_inv in E. destruct E as (_ & _ & E & _). congruence.
Qed.

Lemma step_refunded (s : State) (c : Call) :
  refunded s = true -> step s c = s.
Proof.
  intros Hc. unfold step. destruct (call c s) as [o|r] eqn:E; [|reflexivity].
  destruct c as [env secret|env]; cbn in E.
  - apply claim_ok_inv in E. destruct E as (_ & _ & E & _). congruence.
  - apply refund_ok_inv in E. destruct E as (_ & _ & _ & E & _). congruence.
Qed.

Lemma step_exclusive (s : State) (c : Call) :
  claimed s && refunded s = false ->
  claimed (step s c) && refunded (step s c) = false.
Proof.
  intros H. unfold step. destruct (call c s) as [o|r] eqn:E; [|exact H].
  destruct c as [env secret|env]; cbn in E.
  - apply claim_ok_inv in E. destruct E as (_ & _ & _ & _ & ->). reflexivity.
  - apply refund_ok_inv in E. destruct E as (_ & _ & _ & _ & ->). reflexivity.
Qed.

Lemma run_exclusive (cs : list Call) : forall s : State,
  claimed s && refunded s = false ->
  claimed (run s cs) && refunded (run s cs) = false.
Proof.
  induction cs as [|c cs IH]; intros s H; [exact H|].
  cbn. apply IH, step_exclusive, H.
Qed.

Lemma run_settled_fixed (cs : list Call) : forall s : State,
  settled s = true -> run s cs = s.
Proof.
  induction cs as [|c cs IH]; intros s H; [reflexivity|].
  cbn. assert (Hs : step s c = s).
  { apply orb_true_iff in H as [H|H]; [apply step_claimed|apply step_refunded]; exact H. }
  rewrite Hs. apply IH, H.
Qed.

Lemma constructor_open (env : Env) (v : Z) (rcp : address) (hl : list byte)
    (t : Z) (s0 : State) :
  constructor env v rcp hl t = Ok s0 -> claimed s0 = false /\ refunded s0 = false.
Proof.
  unfold constructor, require.
  destruct (0 <? v); cbn; [|discriminate].
  destruct (negb (String.eqb rcp zero_address)); cbn; [|discriminate].
  destruct (block_timestamp env <? t); cbn; [|discriminate].
  intros H. injection H as <-. auto.
Qed.

Lemma settled_call_fails (s : State) (c : Call) :
  settled s = true ->
  exists r, call c s = Err r /\
            (passes_earlier_checks c s -> already_settled r = true).
Proof.
  unfold settled. intros H. destruct (call c s) as [o|r] eqn:E.
  - exfalso. apply orb_true_iff in H.
    destruct c as [env secret|env]; cbn in E.
    + apply claim_ok_inv in E. destruct E as (_ & E1 & E2 & _).
      destruct H; congruence.
    + apply refund_ok_inv in E. destruct E as (_ & _ & E1 & E2 & _).
      destruct H; congruence.
  - exists r. split; [reflexivity|].
    destruct c as [env secret|env]; cbn in E |- *.
    + intros Hs. revert E.
      unfold claim, onlyRecipient, notClaimed, notRefunded, require.
      rewrite Hs, String.eqb_refl. cbn.
      destruct (claimed s); cbn; [intros [= <-]; reflexivity|].
      destruct (refunded s); cbn; [intros [= <-]; reflexivity|].
      discriminate H.
    + intros [Hs Ht]. revert E.
      unfold refund, onlyDeployer, afterTimeout, notClaimed, notRefunded, require.
      rewrite Hs, String.eqb_refl. cbn.
      rewrite (proj2 (Z.leb_le _ _) Ht). cbn.
      destruct (claimed s); cbn; [intros [= <-]; reflexivity|].
      destruct (refunded s); cbn; [intros [= <-]; reflexivity|].
      discriminate H.
Qed.


End EscrowProperties.

Lemma claim_succeeds_iff_witness :
  is_ok (EthEscrow.claim (demoRecipientAt 250) demoSecretBytes
           (demoOpen (SHA256.sha256 demoSecretBytes))) = true.
Proof.
  apply (proj2 (proj1 (claim_succeeds_iff (demoRecipientAt 250) demoSecretBytes
                         (demoOpen (SHA256.sha256 demoSecretBytes))))).
  split; [vm_compute; reflexivity|].
  split; [vm_compute; reflexivity|].
  split; [vm_compute; reflexivity|].
  split; vm_compute; reflexivity.
Defined.

(** C5, as stated, fails: the caller is the recipient, neither flag is set
    and the secret hashes to the hashlock, yet the claim reverts, because the
    recipient is a contract that takes no ether and [transfer] fails. *)
Lemma claim_reverts_when_recipient_refuses :
  let s := demoOpen (SHA256.sha256 demoSecretBytes) in
  let env := demoRefusingRecipientAt 150 in
  EthEscrow.msg_sender env = EthEscrow.recipient s /\
  EthEscrow.claimed s = false /\ EthEscrow.refunded s = false /\
  SHA256.sha256 demoSecretBytes = EthEscrow.hashlock s /\
  EthEscrow.claim env demoSecretBytes s = Err EthEscrow.TransferFailed.
Proof.
  cbv zeta.
  split; [vm_compute; reflexivity|]. split; [vm_compute; reflexivity|].
  split; [vm_compute; reflexivity|]. split; vm_compute; reflexivity.
Qed.



(** ** One hash function for every hashlock *)

(** The script's preimage check is [OP_SHA256], for any parameters. *)
Lemma script_hash_opcode (params : Btc.HTLCParams) :
  firstn 4 (Btc.htlcChunks params) =
  [Btc.Op Btc.OP_IF; Btc.Op Btc.OP_SHA256; Btc.Push (Btc.hashlock params);
   Btc.Op Btc.OP_EQUALVERIFY].
Proof. reflexivity. Qed.

(** An escrow opened under the server's [generateHashlock] accepts the
    secret it was computed from: the contract recomputes the same digest. *)
Lemma server_hashlock_passes_claim (secretHex : string) (env : EthEscrow.Env)
    (s : EthEscrow.State) :
  EthEscrow.hashlock s = SHA256.sha256 (Buf.fromHex secretHex) ->
  (forall h, Server.generateHashlock secretHex = Some h ->
             h = Buf.toHex (EthEscrow.hashlock s)) /\
  (EthEscrow.msg_sender env = EthEscrow.recipient s ->
   EthEscrow.claimed s = false -> EthEscrow.refunded s = false ->
   EthEscrow.accepts env (EthEscrow.recipient s) = true ->
   is_ok (EthEscrow.claim env (Buf.fromHex secretHex) s) = true).
Proof.
  intros H. split.
  - unfold Server.generateHashlock. rewrite H.
    destruct (Nat.even _); intros h [= <-]. reflexivity.
  - intros Hs Hc Hr Ha. apply claim_ok_intro; auto.
Qed.

(** C1 at a concrete secret: [EthEscrowManager.generateHashlock] yields the
    Keccak-256 digest of the secret's bytes, the contract's claim check
    recomputes the SHA-256 digest of the same 32 bytes, the two differ, and
    the recipient's claim against an escrow opened under the manager's
    hashlock reverts with "Invalid secret". *)
Theorem manager_hashlock_rejected_by_claim :
  EthEscrowManager.generateHashlock demoSecretText =
    "0x9a57067ee21cfc99ac55dbc3bc5e6f9461dbd7ffc60b79a12f3e93c9c987f0cf"%string /\
  EthEscrowManager.claimSecretBytes demoSecretText = Some demoSecretBytes /\
  EthEscrowManager.hexlify (SHA256.sha256 demoSecretBytes) =
    "0x3eb1bd439947eb762998e566ccc2e099c791118b2f40579cc4f7da2b5061b7f9"%string /\
  exists hl,
    EthEscrowManager.getBytes (EthEscrowManager.generateHashlock demoSecretText)
      = Some hl /\
    EthEscrow.constructor demoDeployEnv 5 demoRecipient hl 200 = Ok (demoOpen hl) /\
    EthEscrow.claim (demoRecipientAt 150) demoSecretBytes (demoOpen hl)
      = Err EthEscrow.InvalidSecret.
Proof.
  split; [vm_compute; reflexivity|].
  split; [vm_compute; reflexivity|].
  split; [vm_compute; reflexivity|].
  exists (Keccak.keccak256 demoSecretBytes).
  split; [vm_compute; reflexivity|].
  split; vm_compute; reflexivity.
Qed.

(** ** The swap coordinator *)

Section ServerProperties.
Import Server.

Lemma update_row_lookup (f : Swap -> Swap) (id : Z) (w : World) (r : Swap) :
  db w !! id = Some r -> db (update_row f id w) !! id = Some (f r).
Proof.
  intros H. unfold update_row. cbn.
  rewrite lookup_alter_eq, H. reflexivity.
Qed.

(** The server wallet takes the ether the escrow sends it. *)
Lemma wallet_accepts (e : Env) :
  EthEscrow.accepts (wallet_call e) (wallet e) = true.
Proof. cbn. rewrite String.eqb_refl. reflexivity. Qed.

Lemma missing_false (s : string) : s <> ""%string -> missing (Some s) = false.
Proof. intros H. cbn. apply String.eqb_neq. exact H. Qed.

(** C2 (amended): marking a chain funded sets that chain's funded flag,
    leaves the other chain's flag as it was, and sets the status to
    'funded' at once, whatever the other flag is.  This holds for fund-btc
    on any existing swap and for fund-eth whenever the escrow deployment
    succeeds; a fund-eth whose deployment fails changes nothing. *)
Theorem fund_sets_flag_and_status (e : Env) (id : Z) (w : World) (r : Swap) :
  db w !! id = Some r ->
  (forall rs tx : string, rs <> ""%string -> tx <> ""%string ->
     exists r',
       db (snd (fund_btc e id (Some rs) (Some tx) w)) !! id = Some r' /\
       btc_funded r' = true /\ eth_funded r' = eth_funded r /\
       status r' = Funded) /\
  (code (fst (fund_eth e id w)) = 200 ->
     exists r',
       db (snd (fund_eth e id w)) !! id = Some r' /\
       eth_funded r' = true /\ btc_funded r' = btc_funded r /\
       status r' = Funded) /\
  (code (fst (fund_eth e id w)) <> 200 -> snd (fund_eth e id w) = w).
Proof.
  intros Hr. split; [|split].
  - intros rs tx Hrs Htx. unfold fund_btc.
    rewrite (missing_false rs Hrs), (missing_false tx Htx), Hr. cbn [orb snd].
    eexists. split; [apply update_row_lookup, Hr|]. cbn. auto.
  - unfold fund_eth. rewrite Hr.
    destruct (deployEscrow e (chain w) (eth_address r) ("0x" ++ hashlock r)
                (expiration r) (eth_amount r)) as [[[c a] h]|]; cbn [fst snd code].
    + intros _. eexists. split.
      * apply (update_row_lookup _ id (with_chain c w) r). exact Hr.
      * cbn. auto.
    + discriminate.
  - unfold fund_eth. rewrite Hr.
    destruct (deployEscrow e (chain w) (eth_address r) ("0x" ++ hashlock r)
                (expiration r) (eth_amount r)) as [[[c a] h]|]; cbn [fst snd code].
    + intros H. contradiction.
    + reflexivity.
Qed.

Lemma manager_refund_inv (e : Env) (c c' : gmap string EthEscrow.State)
    (addr h : string) :
  manager_refund e c addr = Some (c', h) ->
  exists st,
    c !! addr = Some st /\
    EthEscrow.deployer st = wallet e /\
    EthEscrow.timeout st <= block_time e /\
    EthEscrow.claimed st = false /\ EthEscrow.refunded st = false /\
    (EthEscrow.refunded <$> c' !! addr) = Some true.
Proof.
  unfold manager_refund. destruct (c !! addr) as [st|] eqn:Hst; [|discriminate].
  destruct (EthEscrow.refund _ st) as [o|] eqn:E; [|discriminate].
  intros H. injection H as <- <-.
  apply refund_ok_inv in E. cbn in E. destruct E as (A & B & C & D & ->).
  exists st. rewrite lookup_insert_eq. cbn. auto 10.
Qed.

Lemma manager_refund_intro (e : Env) (c : gmap string EthEscrow.State)
    (addr : string) (st : EthEscrow.State) :
  c !! addr = Some st ->
  EthEscrow.deployer st = wallet e ->
  EthEscrow.timeout st <= block_time e ->
  EthEscrow.claimed st = false -> EthEscrow.refunded st = false ->
  exists c' h, manager_refund e c addr = Some (c', h).
Proof.
  intros Hst Hd Ht Hc Hr. unfold manager_refund. rewrite Hst.
  pose proof (refund_ok_intro (wallet_call e) st) as Hok.
  destruct (EthEscrow.refund (wallet_call e) st) as [o|]; [eauto|].
  cbn in Hok. rewrite Hd, String.eqb_refl in Hok.
  specialize (Hok eq_refl Ht Hc Hr eq_refl). discriminate.
Qed.



Lemma row_object_revealed (r : Swap) :
  row_object r !! "secret_revealed"%string = Some (sql_bool (secret_revealed r)).
Proof. reflexivity. Qed.

Lemma sanitize_unrevealed (r : Swap) :
  secret_revealed r = false ->
  sanitize (row_object r) = delete "secret"%string (row_object r).
Proof.
  intros H. unfold sanitize. rewrite row_object_revealed, H. reflexivity.
Qed.

Lemma insert_desc_In (x r : Swap) (l : list Swap) :
  In x (insert_desc r l) -> x = r \/ In x l.
Proof.
  induction l as [|y l IH]; cbn.
  - intros [H|[]]; auto.
  - destruct (created_at y <? created_at r); cbn.
    + intros [H|[H|H]]; auto.
    + intros [H|H]; auto. destruct (IH H); auto.
Qed.

Lemma order_desc_In (x : Swap) (l : list Swap) :
  In x (order_desc l) -> In x l.
Proof.
  induction l as [|y l IH]; cbn; [auto|].
  intros H. destruct (insert_desc_In _ _ _ H); auto.
Qed.

Lemma select_swaps_in_db (st dir : option string) (w : World) (r : Swap) :
  In r (select_swaps st dir w) -> exists id, db w !! id = Some r.
Proof.
  unfold select_swaps. intros H.
  apply order_desc_In, List.filter_In in H. destruct H as [H _].
  apply in_map_iff in H. destruct H as ([id r'] & <- & H).
  exists id. apply elem_of_map_to_list, list_elem_of_In. exact H.
Qed.

(** C10: neither read operation shows an unrevealed secret.  For a swap
    whose [secret_revealed] flag is false, the object [GET /swap/:id]
    returns has no [secret] key; and every object [GET /swaps] returns is
    the sanitized object of a stored swap and has no [secret] key when that
    swap's flag is false, whatever the filters. *)
Theorem reads_hide_unrevealed_secret (w : World) :
  (forall id r, db w !! id = Some r -> secret_revealed r = false ->
     exists o, get_swap id w = {| code := 200; body := BObj o |} /\
               o !! "secret"%string = None) /\
  (forall st dir, exists l,
     get_swaps st dir w = {| code := 200; body := BList l |} /\
     Forall (fun o => exists r,
               (exists id, db w !! id = Some r) /\
               o = sanitize (row_object r) /\
               (secret_revealed r = false -> o !! "secret"%string = None)) l).
Proof.
  split.
  - intros id r Hr Hf. unfold get_swap. rewrite Hr, row_object_revealed, Hf.
    eexists. split; [reflexivity|]. apply lookup_delete_eq.
  - intros st dir. eexists. split; [reflexivity|].
    apply Forall_forall. intros o Ho.
    apply list_elem_of_In, in_map_iff in Ho. destruct Ho as (o' & <- & Ho).
    apply in_map_iff in Ho. destruct Ho as (r & <- & Hr).
    exists r. split; [eapply select_swaps_in_db; eauto|]. split; [reflexivity|].
    intros Hf. rewrite (sanitize_unrevealed r Hf). apply lookup_delete_eq.
Qed.

End ServerProperties.

(** C2, as stated, fails: marking only the Bitcoin leg funded on a pending
    swap makes its status 'funded' while the Ethereum leg is unfunded. *)
Lemma one_leg_funded_is_funded :
  status_of demoWorld 1 = Some Server.Pending /\
  let w1 := snd (Server.fund_btc (demoEnv 10) 1 (Some "63a8"%string)
                   (Some "f0"%string) demoWorld) in
  status_of w1 1 = Some Server.Funded /\
  (Server.btc_funded <$> Server.db w1 !! 1) = Some true /\
  (Server.eth_funded <$> Server.db w1 !! 1) = Some false.
Proof.
  split; [vm_compute; reflexivity|]. cbv zeta.
  split; [vm_compute; reflexivity|].
  split; vm_compute; reflexivity.
Qed.

Lemma fund_sets_flag_and_status_witness :
  exists r',
    Server.db (snd (Server.fund_btc (demoEnv 10) 1 (Some "63a8"%string)
                      (Some "f0"%string) demoWorld)) !! 1 = Some r' /\
    Server.btc_funded r' = true /\
    Server.eth_funded r' = Server.eth_funded demoSwap /\
    Server.status r' = Server.Funded.
Proof.
  assert (H : Server.db demoWorld !! 1 = Some demoSwap) by (vm_compute; reflexivity).
  destruct (fund_sets_flag_and_status (demoEnv 10) 1 demoWorld demoSwap H) as [Hb _].
  apply (Hb "63a8"%string "f0"%string); discriminate.
Defined.




Lemma reads_hide_unrevealed_secret_witness :
  exists o,
    Server.get_swap 1 demoWorld = {| Server.code := 200; Server.body := Server.BObj o |} /\
    o !! "secret"%string = None.
Proof.
  destruct (reads_hide_unrevealed_secret demoWorld) as [Hget _].
  apply (Hget 1 demoSwap).
  - vm_compute. reflexivity.
  - reflexivity.
Defined.

(** * Further properties of the code *)

(** ** Spending transactions *)

Section BtcMoreProperties.
Import Btc BtcMore.
Local Open Scope Z_scope.

Lemma extractSecretFromIns_cons (i : TxInput) (l : list TxInput) :
  extractSecretFromIns (i :: l) =
  if carries_secret i then witness i !! 1%nat else extractSecretFromIns l.
Proof.
  cbn [extractSecretFromIns]. unfold carries_secret.
  destruct (4 <=? length (witness i))%nat; cbn [andb]; [|reflexivity].
  destruct (witness i !! 1%nat) as [s0|]; [|reflexivity].
  destruct (length s0 =? 32)%nat; reflexivity.
Qed.

Lemma carries_secret_inv (i : TxInput) (secret : list byte) :
  carries_secret i = true -> witness i !! 1%nat = Some secret ->
  (4 <= length (witness i))%nat /\ length secret = 32%nat.
Proof.
  unfold carries_secret. intros H E. rewrite E in H.
  apply andb_true_iff in H. destruct H as [H4 H32].
  split; [apply Nat.leb_le, H4|apply Nat.eqb_eq, H32].
Qed.

Lemma extractSecretFromIns_Some (l : list TxInput) (secret : list byte) :
  extractSecretFromIns l = Some secret ->
  exists pre input post,
    l = pre ++ input :: post /\
    forallb (fun i => negb (carries_secret i)) pre = true /\
    (4 <= length (witness input))%nat /\
    witness input !! 1%nat = Some secret /\
    length secret = 32%nat.
Proof.
  induction l as [|i l IH]; [discriminate|].
  rewrite extractSecretFromIns_cons.
  destruct (carries_secret i) eqn:E.
  - intros H. destruct (carries_secret_inv i secret E H) as [H4 H32].
    exists [], i, l. repeat split; auto.
  - intros H. destruct (IH H) as (pre & input & post & -> & Hpre & Hrest).
    exists (i :: pre), input, post. cbn [forallb app]. rewrite E. cbn. auto.
Qed.

Lemma extractSecretFromIns_None (l : list TxInput) :
  extractSecretFromIns l = None <->
  forallb (fun i => negb (carries_secret i)) l = true.
Proof.
  induction l as [|i l IH]; [cbn; tauto|].
  rewrite extractSecretFromIns_cons. cbn [forallb].
  destruct (carries_secret i) eqn:E; cbn [negb andb]; [|exact IH].
  split; [|discriminate].
  intros H. unfold carries_secret in E. rewrite H in E.
  rewrite andb_false_r in E. discriminate.
Qed.

(** What [extractSecretFromTx] returns: a value it returns is 32 bytes
    long and is the second witness item of the first input that has at
    least four witness items and a 32-byte second item; it returns nothing
    exactly when no input is of that form. *)
Theorem extract_secret_characterised (tx : Transaction) :
  (forall secret, extractSecretFromTx tx = Some secret ->
     length secret = 32%nat /\
     exists pre input post,
       ins tx = pre ++ input :: post /\
       forallb (fun i => negb (carries_secret i)) pre = true /\
       (4 <= length (witness input))%nat /\
       witness input !! 1%nat = Some secret) /\
  (extractSecretFromTx tx = None <->
   forallb (fun i => negb (carries_secret i)) (ins tx) = true).
Proof.
  split.
  - intros secret H. apply extractSecretFromIns_Some in H.
    destruct H as (pre & input & post & E & Hpre & H4 & H1 & H32).
    split; [exact H32|]. exists pre, input, post. auto.
  - apply extractSecretFromIns_None.
Qed.

End BtcMoreProperties.

Lemma extract_secret_characterised_witness :
  length (repeat x07 32) = 32%nat.
Proof.
  apply (extract_secret_characterised
           {| Btc.tx_locktime := 0;
              Btc.ins := [ {| Btc.in_hash := "f0"; Btc.in_index := 0;
                              Btc.in_sequence := 4294967295;
                              Btc.witness := [[x30]; repeat x07 32; [x01]; [x63]] |} ];
              Btc.outs := [] |}).
  vm_compute. reflexivity.
Defined.

(** ** The inputs of a funding transaction *)

Section FundingInputs.
Import Btc BtcMore.
Local Open Scope Z_scope.

Variable KeyPair : Type.
Variable publicKey : KeyPair -> list byte.
Variable sign : KeyPair -> Psbt -> nat -> list byte.
Variable canSign : KeyPair -> list byte -> option (list byte) -> Z -> bool.
Variable validAddress : string -> bool.

Lemma map_insert_same {A B} (f : A -> B) (l : list A) (i : nat) (x y : A) :
  l !! i = Some x -> f y = f x -> map f (<[i := y]> l) = map f l.
Proof.
  intros Hi Hf. rewrite list_fmap_insert, Hf. apply list_insert_id.
  rewrite list_lookup_fmap, Hi. reflexivity.
Qed.

Lemma signInput_frame (k : KeyPair) (p q q' : Psbt) (i : nat) :
  sign_frame p q ->
  signInput KeyPair publicKey sign canSign q i k = Ok q' -> sign_frame p q'.
Proof.
  intros (A1 & A2 & A3 & A4). unfold signInput.
  destruct (psbt_inputs q !! i) as [inp|] eqn:Hi; [|discriminate].
  destruct (canSign _ _ _ _); [|discriminate].
  intros [= <-]. unfold sign_frame. cbn.
  rewrite !(map_insert_same _ _ i inp) by (auto; reflexivity). auto.
Qed.

Lemma finalizeInput_frame (p q q' : Psbt) (i : nat) :
  final_frame p q -> finalizeInput q i keyHashFinalizer = Ok q' -> final_frame p q'.
Proof.
  intros (A1 & A2 & A3 & A4). unfold finalizeInput.
  destruct (psbt_inputs q !! i) as [inp|] eqn:Hi; [|discriminate].
  unfold keyHashFinalizer. destruct (pi_partialSig inp) as [|ps rest]; [discriminate|].
  cbn. intros [= <-]. unfold final_frame. cbn.
  rewrite (map_insert_same _ _ i inp) by (auto; reflexivity).
  repeat split; auto.
  intros j b Hj. destruct (decide (j = i)) as [->|Hne].
  - rewrite list_lookup_insert_eq in Hj by (eapply lookup_lt_Some; eauto).
    injection Hj as <-. destruct (A4 i inp Hi) as (a & Ha & _).
    exists a. split; [exact Ha|]. right. cbn. eauto.
  - rewrite list_lookup_insert_ne in Hj by auto. apply A4, Hj.
Qed.

Lemma final_frame_refl (p : Psbt) : final_frame p p.
Proof. repeat split; auto. intros j b Hj. eauto. Qed.

Lemma sign_frame_refl (p : Psbt) : sign_frame p p.
Proof. repeat split; auto. Qed.

(** Every funding transaction spends exactly the given wallet outputs, in
    order and with the final sequence number; each input carries the
    two-item witness (signature, public key); the locktime is zero; so
    [extractSecretFromTx] finds no secret in a funding transaction. *)
Theorem funding_tx_inputs (utxos : list Utxo) (htlcAddress : string)
    (amount : Z) (changeAddress : string) (k : KeyPair) (tx : Transaction) :
  buildFundingTx KeyPair publicKey sign canSign validAddress
    utxos htlcAddress amount changeAddress k = Ok tx ->
  map outpoint (ins tx) = map (fun u => (txid u, vout u, 4294967295)) utxos /\
  Forall (fun i => length (witness i) = 2%nat) (ins tx) /\
  tx_locktime tx = 0 /\
  extractSecretFromTx tx = None.
Proof.
  unfold buildFundingTx. intros H.
  apply bind_Ok_inv in H. destruct H as ([p0 t0] & E0 & H).
  apply addUtxos_inv in E0. destruct E0 as [-> ->].
  apply bind_Ok_inv in H. destruct H as (p1 & E1 & H).
  apply bind_Ok_inv in H. destruct H as (p2 & E2 & H).
  apply bind_Ok_inv in H. destruct H as (p3 & E3 & H).
  apply bind_Ok_inv in H. destruct H as (p4 & E4 & H).
  assert (I1 : psbt_inputs p1 = map fundingInput utxos /\ psbt_locktime p1 = 0).
  { apply addOutput_inv in E1. destruct E1 as (_ & _ & ->). auto. }
  assert (I2 : psbt_inputs p2 = map fundingInput utxos /\ psbt_locktime p2 = 0).
  { destruct (546 <? _).
    - apply addOutput_inv in E2. destruct E2 as (_ & _ & ->). exact I1.
    - injection E2 as <-. exact I1. }
  destruct I2 as [I2 L2].
  assert (F3 : sign_frame p2 p3).
  { apply (fold_steps_inv (fun p i => signInput KeyPair publicKey sign canSign p i k)
             sign_frame)
      with (l := seq 0 (length utxos)); [apply sign_frame_refl| |exact E3].
    intros p q q' a. apply signInput_frame. }
  assert (F4 : final_frame p3 p4).
  { unfold finalizeAllInputs in E4.
    destruct (psbt_inputs p3) as [|a0 l0] eqn:E3i; [discriminate|]. rewrite <- E3i in E4.
    apply (fold_steps_inv (fun p i => finalizeInput p i keyHashFinalizer) final_frame)
      with (l := seq 0 (length (psbt_inputs p3))); [apply final_frame_refl| |exact E4].
    intros p q q' a. apply finalizeInput_frame. }
  destruct F3 as (S1 & _ & S3 & S4). destruct F4 as (T1 & _ & T3 & T4).
  unfold extractTransaction in H.
  destruct (forallb finalized (psbt_inputs p4)) eqn:Ef; cbn [negb] in H; [|discriminate].
  destruct (_ <? 0); [discriminate|]. injection H as <-. cbn [ins tx_locktime].
  assert (Hcore : map input_core (psbt_inputs p4) = map input_core (map fundingInput utxos)).
  { rewrite T3, S3, I2. reflexivity. }
  assert (Hw : Forall (fun i => length (witness i) = 2%nat)
                 (map tx_input_of (psbt_inputs p4))).
  { apply Forall_forall. intros i Hi.
    apply list_elem_of_In, in_map_iff in Hi. destruct Hi as (b & <- & Hb).
    assert (Hfz : finalized b = true) by (eapply forallb_forall in Ef; eauto).
    apply list_elem_of_In, list_elem_of_lookup in Hb. destruct Hb as [j Hj].
    destruct (T4 j b Hj) as (a & Ha & [Hsame|(x & y & Hxy)]).
    - exfalso.
      assert (Hnone : pi_final a = None).
      { assert (Hm : map pi_final (psbt_inputs p3) !! j = Some (pi_final a))
          by (rewrite list_lookup_fmap, Ha; reflexivity).
        rewrite S4, I2, map_map, list_lookup_fmap in Hm.
        destruct (utxos !! j); cbn in Hm; congruence. }
      unfold finalized in Hfz. rewrite Hsame, Hnone in Hfz. discriminate.
    - unfold tx_input_of. cbn. rewrite Hxy. reflexivity. }
  split; [|split; [exact Hw|split]].
  - rewrite map_map.
    transitivity (map (fun c : string * Z * Z * Z => (c.1.1.1, c.1.1.2, c.1.2))
                      (map input_core (psbt_inputs p4))).
    { rewrite map_map. reflexivity. }
    rewrite Hcore, !map_map. reflexivity.
  - rewrite T1, S1. exact L2.
  - unfold extractSecretFromTx. cbn [ins]. apply extractSecretFromIns_None.
    apply forallb_forall. intros i Hi.
    apply list_elem_of_In in Hi. eapply Forall_forall in Hw; [|exact Hi].
    unfold carries_secret. rewrite Hw. reflexivity.
Qed.

End FundingInputs.

Lemma funding_tx_inputs_witness :
  Btc.extractSecretFromTx
    {| Btc.tx_locktime := 0;
       Btc.ins := [ {| Btc.in_hash := demoTxid; Btc.in_index := 1;
                       Btc.in_sequence := 4294967295;
                       Btc.witness := [[x30]; demoPubkey] |} ];
       Btc.outs := [ Btc.mkOutput demoLockAddress 1000;
                     Btc.mkOutput demoWalletAddress 3000 ] |} = None.
Proof.
  apply (funding_tx_inputs unit demoPublicKey demoSign demoCanSign
           demoValidAddress [demoUtxo 5000]
           demoLockAddress 1000 demoWalletAddress tt).
  vm_compute. reflexivity.
Defined.

(** ** More on the escrow contract *)

Section EscrowMoreProperties.
Import EthEscrow EscrowLog EscrowInv.
Local Open Scope Z_scope.

(** [refund()] succeeds exactly when the caller is the deployer, the block
    timestamp has reached the timeout, neither flag is set and the deployer's
    account takes the transfer of the amount.  On success the state differs
    only in [refunded = true], one [Refunded] event is logged and [amount] is
    sent back to the deployer. *)
Theorem refund_succeeds_iff (env : Env) (s : State) :
  (is_ok (refund env s) = true <->
     msg_sender env = deployer s /\ timeout s <= block_timestamp env /\
     claimed s = false /\ refunded s = false /\
     accepts env (deployer s) = true) /\
  (forall o, refund env s = Ok o ->
     state o = {| deployer := deployer s; recipient := recipient s;
                  hashlock := hashlock s; timeout := timeout s;
                  amount := amount s; claimed := false; refunded := true |} /\
     events o = [Refunded (deployer s) (amount s)] /\
     transfers o = [(deployer s, amount s)]).
Proof.
  split.
  - split.
    + destruct (refund env s) as [o|r] eqn:E; [|discriminate].
      intros _. destruct (refund_ok_inv env s o E) as (A & B & C & D & _).
      pose proof (refund_ok_accepts env s o E). auto.
    + intros (A & B & C & D & F). apply refund_ok_intro; assumption.
  - intros o E. destruct (refund_ok_inv env s o E) as (_ & _ & _ & _ & ->).
    cbn. auto.
Qed.

(** The error of a refund that fails is that of the first check that
    fails, in the order caller, timeout, claimed, refunded, transfer. *)
Lemma refund_error_order (env : Env) (s : State) :
  refund env s =
  if negb (String.eqb (msg_sender env) (deployer s)) then Err OnlyDeployer
  else if block_timestamp env <? timeout s then Err TimeoutNotReached
  else if claimed s then Err AlreadyClaimed
  else if refunded s then Err AlreadyRefunded
  else if negb (accepts env (deployer s)) then Err TransferFailed
  else Ok {| state := {| deployer := deployer s; recipient := recipient s;
                         hashlock := hashlock s; timeout := timeout s;
                         amount := amount s; claimed := false;
                         refunded := true |};
             events := [Refunded (deployer s) (amount s)];
             transfers := [(deployer s, amount s)] |}.
Proof.
  unfold refund, onlyDeployer, afterTimeout, notClaimed, notRefunded, transfer, require.
  destruct (String.eqb (msg_sender env) (deployer s)); cbn; [|reflexivity].
  rewrite Z.leb_antisym.
  destruct (block_timestamp env <? timeout s); cbn; [reflexivity|].
  destruct (claimed s) eqn:Ec; cbn; [reflexivity|].
  destruct (refunded s) eqn:Er; cbn; [reflexivity|].
  destruct (accepts env (deployer s)); reflexivity.
Qed.

Lemma constructor_ok_inv (env : Env) (v : Z) (rcp : address) (hl : list byte)
    (t : Z) (s0 : State) :
  constructor env v rcp hl t = Ok s0 ->
  0 < v /\ rcp <> zero_address /\ block_timestamp env < t /\
  s0 = {| deployer := msg_sender env; recipient := rcp; hashlock := hl;
          timeout := t; amount := v; claimed := false; refunded := false |}.
Proof.
  unfold constructor, require.
  destruct (0 <? v) eqn:Ev; cbn; [|discriminate].
  destruct (String.eqb_spec rcp zero_address); cbn; [discriminate|].
  destruct (block_timestamp env <? t) eqn:Et; cbn; [|discriminate].
  intros [= <-]. apply Z.ltb_lt in Ev, Et. auto.
Qed.

Lemma constructor_ok_intro (env : Env) (v : Z) (rcp : address) (hl : list byte)
    (t : Z) :
  0 < v -> rcp <> zero_address -> block_timestamp env < t ->
  constructor env v rcp hl t =
  Ok {| deployer := msg_sender env; recipient := rcp; hashlock := hl;
        timeout := t; amount := v; claimed := false; refunded := false |}.
Proof.
  intros A B C. unfold constructor, require.
  rewrite (proj2 (Z.ltb_lt _ _) A). cbn.
  destruct (String.eqb_spec rcp zero_address); [contradiction|]. cbn.
  rewrite (proj2 (Z.ltb_lt _ _) C). reflexivity.
Qed.

(** The constructor succeeds exactly when ether is attached, the recipient
    is not the zero address and the timeout lies strictly after the block
    timestamp; the escrow then starts open, holding the attached value for
    the given recipient, with the sender as deployer. *)
Theorem constructor_succeeds_iff (env : Env) (v : Z) (rcp : address)
    (hl : list byte) (t : Z) :
  (is_ok (constructor env v rcp hl t) = true <->
     0 < v /\ rcp <> zero_address /\ block_timestamp env < t) /\
  (forall s0, constructor env v rcp hl t = Ok s0 ->
     s0 = {| deployer := msg_sender env; recipient := rcp; hashlock := hl;
             timeout := t; amount := v; claimed := false; refunded := false |}).
Proof.
  split.
  - split.
    + destruct (constructor env v rcp hl t) as [s0|r] eqn:E; [|discriminate].
      intros _. destruct (constructor_ok_inv env v rcp hl t s0 E) as (A & B & C & _).
      auto.
    + intros (A & B & C). rewrite (constructor_ok_intro env v rcp hl t A B C).
      reflexivity.
  - intros s0 E. apply (constructor_ok_inv env v rcp hl t s0 E).
Qed.

Lemma step_log_inv (s0 s : State) (l : Log) (c : Call) :
  same_terms s0 s ->
  still_open s l \/ was_claimed s0 s l \/ was_refunded s0 s l ->
  same_terms s0 (fst (step_log (s, l) c)) /\
  (still_open (fst (step_log (s, l) c)) (snd (step_log (s, l) c)) \/
   was_claimed s0 (fst (step_log (s, l) c)) (snd (step_log (s, l) c)) \/
   was_refunded s0 (fst (step_log (s, l) c)) (snd (step_log (s, l) c))).
Proof.
  intros Ht Hs. unfold step_log. cbn [fst snd].
  destruct (call c s) as [o|r] eqn:E; cbn [fst snd]; [|auto].
  destruct Ht as (T1 & T2 & T3 & T4 & T5).
  destruct c as [env secret|env]; cbn in E.
  - apply claim_ok_inv in E. destruct E as (_ & Ec & Er & Eh & ->). cbn.
    split; [repeat split; assumption|].
    destruct Hs as [(_ & _ & Hl & Hp)|[(Hc & _)|(_ & Hr & _)]]; try congruence.
    right. left. unfold was_claimed. cbn. rewrite Hl, Hp, T2, T5. cbn.
    repeat split; auto. exists secret. rewrite <- T3. auto.
  - apply refund_ok_inv in E. destruct E as (_ & _ & Ec & Er & ->). cbn.
    split; [repeat split; assumption|].
    destruct Hs as [(_ & _ & Hl & Hp)|[(Hc & _)|(_ & Hr & _)]]; try congruence.
    right. right. unfold was_refunded. cbn. rewrite Hl, Hp, T1, T5. cbn.
    repeat split; auto.
Qed.

Lemma run_log_inv (s0 : State) (cs : list Call) : forall (s : State) (l : Log),
  same_terms s0 s ->
  still_open s l \/ was_claimed s0 s l \/ was_refunded s0 s l ->
  same_terms s0 (fst (fold_left step_log cs (s, l))) /\
  (still_open (fst (fold_left step_log cs (s, l))) (snd (fold_left step_log cs (s, l))) \/
   was_claimed s0 (fst (fold_left step_log cs (s, l))) (snd (fold_left step_log cs (s, l))) \/
   was_refunded s0 (fst (fold_left step_log cs (s, l))) (snd (fold_left step_log cs (s, l)))).
Proof.
  induction cs as [|c cs IH]; intros s l Ht Hs; [auto|].
  cbn [fold_left].
  destruct (step_log_inv s0 s l c Ht Hs) as [Ht' Hs'].
  destruct (step_log (s, l) c) as [s' l']. apply IH; assumption.
Qed.

Lemma run_log_state (cs : list Call) : forall (s : State) (l : Log),
  fst (fold_left step_log cs (s, l)) = run s cs.
Proof.
  induction cs as [|c cs IH]; intros s l; [reflexivity|].
  cbn [fold_left run]. unfold step_log at 2, step at 2. cbn [fst snd].
  destruct (call c s) as [o|r]; apply IH.
Qed.

Lemma run_log_from_constructor (env0 : Env) (v : Z) (rcp : address)
    (hl : list byte) (t : Z) (s0 : State) (cs : list Call) :
  constructor env0 v rcp hl t = Ok s0 ->
  fst (run_log s0 cs) = run s0 cs /\
  same_terms s0 (fst (run_log s0 cs)) /\
  (still_open (fst (run_log s0 cs)) (snd (run_log s0 cs)) \/
   was_claimed s0 (fst (run_log s0 cs)) (snd (run_log s0 cs)) \/
   was_refunded s0 (fst (run_log s0 cs)) (snd (run_log s0 cs))).
Proof.
  intros H0. destruct (constructor_ok_inv env0 v rcp hl t s0 H0) as (_ & _ & _ & E0).
  assert (Hopen : still_open s0 empty_log) by (subst s0; repeat split).
  destruct (run_log_inv s0 cs s0 empty_log) as [Ht Hs]; [repeat split|auto|].
  split; [apply run_log_state|]. split; [exact Ht|exact Hs].
Qed.

(** Whatever calls are made on a deployed escrow, in whatever order and by
    whomever: the constructor arguments never change, and the escrow is
    either open with nothing logged or paid, or claimed with the amount paid
    once to the recipient, or refunded with the amount paid once to the
    deployer.  The total paid out is never more than what was locked. *)
Theorem escrow_pays_at_most_once (env0 : Env) (v : Z) (rcp : address)
    (hl : list byte) (t : Z) (s0 : State) (cs : list Call) :
  constructor env0 v rcp hl t = Ok s0 ->
  let s := fst (run_log s0 cs) in
  let l := snd (run_log s0 cs) in
  s = run s0 cs /\
  same_terms s0 s /\
  (still_open s l \/ was_claimed s0 s l \/ was_refunded s0 s l) /\
  (total_paid l = 0 \/ total_paid l = v) /\
  0 < v.
Proof.
  intros H0 s l.
  destruct (constructor_ok_inv env0 v rcp hl t s0 H0) as (Hv & _ & _ & E0).
  destruct (run_log_from_constructor env0 v rcp hl t s0 cs H0) as (Es & Ht & Hs).
  split; [exact Es|]. split; [exact Ht|]. split; [exact Hs|].
  split; [|exact Hv].
  assert (Ha : amount s0 = v) by (subst s0; reflexivity).
  unfold total_paid. fold l in Hs.
  destruct Hs as [(_ & _ & _ & Hp)|[(_ & _ & Hp & _)|(_ & _ & Hp & _)]];
    unfold l, run_log in *; rewrite Hp; cbn; [left|right|right]; lia.
Qed.

(** A claimed escrow has published a preimage of its hashlock: whenever
    the [claimed] flag is set after some calls, the log holds a
    [SecretRevealed] event whose secret hashes to the hashlock given at
    deployment. *)
Theorem claimed_escrow_revealed_preimage (env0 : Env) (v : Z) (rcp : address)
    (hl : list byte) (t : Z) (s0 : State) (cs : list Call) :
  constructor env0 v rcp hl t = Ok s0 ->
  claimed (run s0 cs) = true ->
  exists secret,
    In (SecretRevealed secret) (logged (snd (run_log s0 cs))) /\
    SHA256.sha256 secret = hl.
Proof.
  intros H0 Hc.
  destruct (run_log_from_constructor env0 v rcp hl t s0 cs H0) as (Es & _ & Hs).
  destruct (constructor_ok_inv env0 v rcp hl t s0 H0) as (_ & _ & _ & E0).
  rewrite <- Es in Hc.
  destruct Hs as [(Hc' & _)|[(_ & _ & _ & secret & Hh & Hl)|(Hc' & _)]];
    try congruence.
  exists secret. rewrite Hl. split; [left; reflexivity|].
  rewrite Hh. subst s0. reflexivity.
Qed.

(** The race at the timeout: on an open escrow whose timeout has passed and
    whose recipient and deployer both take a transfer, a valid claim and a
    valid refund are both possible, the first one made wins, and the other
    then fails with the already-settled error. *)
Theorem first_valid_call_wins (s : State) (envc envr : Env) (secret : list byte) :
  claimed s = false -> refunded s = false ->
  msg_sender envc = recipient s -> SHA256.sha256 secret = hashlock s ->
  accepts envc (recipient s) = true ->
  msg_sender envr = deployer s -> timeout s <= block_timestamp envr ->
  accepts envr (deployer s) = true ->
  (claimed (run s [CallClaim envc secret; CallRefund envr]) = true /\
   refunded (run s [CallClaim envc secret; CallRefund envr]) = false /\
   refund envr (step s (CallClaim envc secret)) = Err AlreadyClaimed) /\
  (refunded (run s [CallRefund envr; CallClaim envc secret]) = true /\
   claimed (run s [CallRefund envr; CallClaim envc secret]) = false /\
   claim envc secret (step s (CallRefund envr)) = Err AlreadyRefunded).
Proof.
  intros Hc Hr Hsc Hh Hac Hsr Ht Har.
  assert (E1 : step s (CallClaim envc secret) =
               {| deployer := deployer s; recipient := recipient s;
                  hashlock := hashlock s; timeout := timeout s;
                  amount := amount s; claimed := true; refunded := false |}).
  { unfold step. cbn [call].
    destruct (claim envc secret s) as [o|r] eqn:E.
    - apply claim_ok_inv in E. destruct E as (_ & _ & _ & _ & ->). reflexivity.
    - pose proof (claim_ok_intro envc secret s Hsc Hc Hr Hh Hac) as Hok.
      rewrite E in Hok. discriminate. }
  assert (E2 : step s (CallRefund envr) =
               {| deployer := deployer s; recipient := recipient s;
                  hashlock := hashlock s; timeout := timeout s;
                  amount := amount s; claimed := false; refunded := true |}).
  { unfold step. cbn [call]. rewrite refund_error_order.
    rewrite Hsr, String.eqb_refl. cbn [negb].
    rewrite (proj2 (Z.ltb_ge _ _) Ht), Hc, Hr, Har. reflexivity. }
  split.
  - assert (E : refund envr (step s (CallClaim envc secret)) = Err AlreadyClaimed).
    { rewrite E1, refund_error_order. cbn.
      rewrite Hsr, String.eqb_refl. cbn [negb].
      rewrite (proj2 (Z.ltb_ge _ _) Ht). reflexivity. }
    cbn [run fold_left]. unfold step at 1 3. cbn [call]. rewrite E.
    rewrite E1. auto.
  - assert (E : claim envc secret (step s (CallRefund envr)) = Err AlreadyRefunded).
    { rewrite E2. unfold claim, onlyRecipient, notClaimed, notRefunded, require.
      cbn. rewrite Hsc, String.eqb_refl. reflexivity. }
    cbn [run fold_left]. unfold step at 1 3. cbn [call]. rewrite E.
    rewrite E2. auto.
Qed.

End EscrowMoreProperties.

Lemma refund_succeeds_iff_witness :
  is_ok (EthEscrow.refund (demoDeployerAt 200)
           (demoOpen (SHA256.sha256 demoSecretBytes))) = true.
Proof.
  apply (proj2 (proj1 (refund_succeeds_iff (demoDeployerAt 200)
                         (demoOpen (SHA256.sha256 demoSecretBytes))))).
  split; [reflexivity|]. split; [vm_compute; discriminate|].
  split; [reflexivity|]. split; reflexivity.
Defined.

Lemma constructor_succeeds_iff_witness :
  is_ok (EthEscrow.constructor demoDeployEnv 5 demoRecipient [] 200) = true.
Proof.
  apply (proj2 (proj1 (constructor_succeeds_iff demoDeployEnv 5 demoRecipient [] 200))).
  split; [reflexivity|]. split; [discriminate|reflexivity].
Defined.

Lemma escrow_pays_at_most_once_witness :
  EscrowLog.total_paid
    (snd (EscrowLog.run_log (demoOpen [])
            [EthEscrow.CallRefund (demoDeployerAt 200);
             EthEscrow.CallRefund (demoDeployerAt 201)])) = 0 \/
  EscrowLog.total_paid
    (snd (EscrowLog.run_log (demoOpen [])
            [EthEscrow.CallRefund (demoDeployerAt 200);
             EthEscrow.CallRefund (demoDeployerAt 201)])) = 5.
Proof.
  apply (escrow_pays_at_most_once demoDeployEnv 5 demoRecipient [] 200 (demoOpen [])
           [EthEscrow.CallRefund (demoDeployerAt 200);
            EthEscrow.CallRefund (demoDeployerAt 201)]).
  reflexivity.
Defined.

Lemma claimed_escrow_revealed_preimage_witness :
  exists secret,
    In (EthEscrow.SecretRevealed secret)
       (EscrowLog.logged
          (snd (EscrowLog.run_log (demoOpen (SHA256.sha256 demoSecretBytes))
                  [EthEscrow.CallClaim (demoRecipientAt 150) demoSecretBytes]))) /\
    SHA256.sha256 secret = SHA256.sha256 demoSecretBytes.
Proof.
  assert (H0 : EthEscrow.constructor demoDeployEnv 5 demoRecipient
                 (SHA256.sha256 demoSecretBytes) 200
               = Ok (demoOpen (SHA256.sha256 demoSecretBytes)))
    by (vm_compute; reflexivity).
  apply (claimed_escrow_revealed_preimage demoDeployEnv 5 demoRecipient
           (SHA256.sha256 demoSecretBytes) 200
           (demoOpen (SHA256.sha256 demoSecretBytes))
           [EthEscrow.CallClaim (demoRecipientAt 150) demoSecretBytes] H0).
  vm_compute. reflexivity.
Defined.

Lemma first_valid_call_wins_witness :
  EthEscrow.refund (demoDeployerAt 210)
    (EthEscrow.step (demoOpen (SHA256.sha256 demoSecretBytes))
       (EthEscrow.CallClaim (demoRecipientAt 205) demoSecretBytes))
  = Err EthEscrow.AlreadyClaimed.
Proof.
  apply (first_valid_call_wins (demoOpen (SHA256.sha256 demoSecretBytes))
           (demoRecipientAt 205) (demoDeployerAt 210) demoSecretBytes).
  - reflexivity.
  - reflexivity.
  - reflexivity.
  - vm_compute. reflexivity.
  - reflexivity.
  - reflexivity.
  - vm_compute. discriminate.
  - reflexivity.
Defined.

(** ** Hexadecimal strings and digest lengths *)

Section HexLemmas.
Import Buf.
Local Open Scope Z_scope.

Lemma hex_byte_roundtrip (b : byte) :
  hex_value (hex_digit (Z_of_byte b / 16)) = Some (Z_of_byte b / 16) /\
  hex_value (hex_digit (Z_of_byte b mod 16)) = Some (Z_of_byte b mod 16) /\
  byte_of_Z (16 * (Z_of_byte b / 16) + Z_of_byte b mod 16) = b.
Proof. destruct b; vm_compute; auto. Qed.

Lemma fromHex_toHex (bs : list byte) : fromHex (toHex bs) = bs.
Proof.
  induction bs as [|b bs IH]; [reflexivity|].
  cbn [toHex fromHex].
  destruct (hex_byte_roundtrip b) as (H1 & H2 & H3).
  rewrite H1, H2, H3, IH. reflexivity.
Qed.

Lemma fromHexStrict_toHex (bs : list byte) : fromHexStrict (toHex bs) = Some bs.
Proof.
  induction bs as [|b bs IH]; [reflexivity|].
  cbn [toHex fromHexStrict].
  destruct (hex_byte_roundtrip b) as (H1 & H2 & H3).
  rewrite H1, H2, H3, IH. reflexivity.
Qed.

Lemma toHex_length (bs : list byte) :
  String.length (toHex bs) = (2 * length bs)%nat.
Proof.
  induction bs as [|b bs IH]; [reflexivity|].
  cbn [toHex String.length length]. rewrite IH. lia.
Qed.

Lemma toHex_nonempty (bs : list byte) : bs <> [] -> toHex bs <> ""%string.
Proof. destruct bs; [contradiction|discriminate]. Qed.

Lemma hex_digit_units (b : byte) :
  Server.utf16_units (hex_digit (Z_of_byte b / 16)) = 1%nat /\
  Server.utf16_units (hex_digit (Z_of_byte b mod 16)) = 1%nat.
Proof. destruct b; vm_compute; auto. Qed.

Lemma toHex_utf16_length (bs : list byte) :
  Server.utf16_length (toHex bs) = (2 * length bs)%nat.
Proof.
  induction bs as [|b bs IH]; [reflexivity|].
  cbn [toHex Server.utf16_length length].
  destruct (hex_digit_units b) as [H1 H2]. rewrite H1, H2, IH. lia.
Qed.

(** The server's hashlock of the secrets it generates: hexadecimal text has
    even length and decodes to the bytes it was made from. *)
Lemma generateHashlock_toHex (bs : list byte) :
  Server.generateHashlock (toHex bs) = Some (toHex (SHA256.sha256 bs)).
Proof.
  unfold Server.generateHashlock.
  rewrite toHex_utf16_length, fromHex_toHex.
  replace (Nat.even (2 * length bs)) with true; [reflexivity|].
  symmetry. apply Nat.even_spec. exists (length bs). reflexivity.
Qed.

Lemma be_bytes_length (n : nat) (z : Z) : length (be_bytes n z) = n.
Proof.
  revert z. induction n as [|n IH]; intros z; [reflexivity|].
  cbn [be_bytes]. rewrite length_app, IH. cbn. lia.
Qed.

Lemma le_bytes_length (n : nat) (z : Z) : length (le_bytes n z) = n.
Proof.
  revert z. induction n as [|n IH]; intros z; [reflexivity|].
  cbn [le_bytes length]. rewrite IH. reflexivity.
Qed.

Lemma concat_fixed_length {A B} (f : A -> list B) (n : nat) (l : list A) :
  (forall a, length (f a) = n) ->
  length (concat (map f l)) = (n * length l)%nat.
Proof.
  intros Hf. induction l as [|a l IH]; cbn; [lia|].
  rewrite length_app, Hf, IH. lia.
Qed.

Lemma sha_round_length (st : list Z) (kw : Z * Z) :
  length st = 8%nat -> length (SHA256.round st kw) = 8%nat.
Proof.
  intros H.
  do 9 (destruct st as [|? st]; try discriminate H).
  reflexivity.
Qed.

Lemma sha_rounds_length (kws : list (Z * Z)) : forall st,
  length st = 8%nat -> length (fold_left SHA256.round kws st) = 8%nat.
Proof.
  induction kws as [|kw kws IH]; intros st H; [exact H|].
  cbn [fold_left]. apply IH, sha_round_length, H.
Qed.

Lemma sha_compress_length (h : list Z) (blk : list byte) :
  length h = 8%nat -> length (SHA256.compress h blk) = 8%nat.
Proof.
  intros H. unfold SHA256.compress.
  rewrite length_map, length_combine, sha_rounds_length by exact H.
  rewrite H. reflexivity.
Qed.

Lemma sha256_length (msg : list byte) : length (SHA256.sha256 msg) = 32%nat.
Proof.
  unfold SHA256.sha256.
  rewrite (concat_fixed_length (be_bytes 4) 4) by (intros; apply be_bytes_length).
  assert (H : forall bl h, length h = 8%nat ->
                length (fold_left SHA256.compress bl h) = 8%nat).
  { induction bl as [|b bl IH]; intros h Hh; [exact Hh|].
    cbn [fold_left]. apply IH, sha_compress_length, Hh. }
  rewrite H by reflexivity. reflexivity.
Qed.

Lemma keccak_round_length (A : list Z) (rc : Z) :
  length (Keccak.keccak_round A rc) = 25%nat.
Proof.
  unfold Keccak.keccak_round, Keccak.iota, Keccak.chi.
  cbn [seq map]. reflexivity.
Qed.

Lemma keccak_f_length (A : list Z) : length (Keccak.keccak_f A) = 25%nat.
Proof.
  unfold Keccak.keccak_f, Keccak.RC.
  repeat (cbn [fold_left]; try apply keccak_round_length).
Qed.

Lemma keccak256_length (msg : list byte) : length (Keccak.keccak256 msg) = 32%nat.
Proof.
  unfold Keccak.keccak256.
  rewrite (concat_fixed_length (le_bytes 8) 8) by (intros; apply le_bytes_length).
  assert (H : forall bl A, length A = 25%nat ->
                length (fold_left Keccak.absorb bl A) = 25%nat).
  { induction bl as [|b bl IH]; intros A HA; [exact HA|].
    cbn [fold_left]. apply IH. unfold Keccak.absorb. apply keccak_f_length. }
  rewrite length_firstn, H by apply repeat_length. reflexivity.
Qed.

End HexLemmas.

(** ** Reading swaps *)

Section ReadLemmas.
Import Server.

Lemma get_swap_hides_unrevealed (w : World) (id : Z) (r : Swap) :
  db w !! id = Some r -> secret_revealed r = false ->
  exists o, get_swap id w = {| code := 200; body := BObj o |} /\
            o !! "secret"%string = None.
Proof.
  intros Hr Hf. unfold get_swap. rewrite Hr, row_object_revealed, Hf.
  eexists. split; [reflexivity|]. apply lookup_delete_eq.
Qed.

End ReadLemmas.

(** ** Creating a swap *)

Section CreateProperties.
Import Server Coordinator.
Local Open Scope Z_scope.

Lemma le_fold_max (k : Z) (l : list Z) : In k l -> k <= fold_right Z.max 0 l.
Proof.
  induction l as [|x l IH]; cbn; [tauto|].
  intros [->|H]; [lia|]. specialize (IH H). lia.
Qed.

Lemma next_rowid_fresh (d : gmap Z Swap) : d !! next_rowid d = None.
Proof.
  destruct (d !! next_rowid d) as [r|] eqn:E; [|reflexivity].
  exfalso. apply elem_of_map_to_list, list_elem_of_In in E.
  apply (in_map fst) in E. apply le_fold_max in E.
  cbn [fst] in E. unfold next_rowid in E. lia.
Qed.

(** The rest of [create] once the body passed validation. *)
Lemma create_valid (now : Z) (random : list byte) (b : CreateBody) (w : World)
    (d : Direction) (ba : Z) (ea addr : string) :
  c_direction b ≫= parse_direction = Some d ->
  c_btc_amount b = Some ba -> c_eth_amount b = Some ea ->
  c_eth_address b = Some addr ->
  ba <> 0 -> ea <> ""%string -> addr <> ""%string ->
  let id := next_rowid (db w) in
  let secret := generateSecret random in
  let row := inserted_row id now d (Buf.toHex (SHA256.sha256 random)) secret ba ea
               (or_null (c_btc_pubkey b)) addr
               (now + default 24 (c_expiration_hours b) * 3600) in
  code (fst (create now random b w)) = 200 /\
  snd (create now random b w) = {| db := <[id := row]> (db w); chain := chain w |}.
Proof.
  intros Hd Hba Hea Haddr Nba Nea Naddr. unfold create.
  rewrite Hd, Hba, Hea, Haddr.
  rewrite (proj2 (Z.eqb_neq _ _) Nba), (proj2 (String.eqb_neq _ _) Nea),
    (proj2 (String.eqb_neq _ _) Naddr).
  unfold generateSecret. rewrite generateHashlock_toHex.
  cbn [orb fst snd code]. split; reflexivity.
Qed.

Lemma create_200_inv (now : Z) (random : list byte) (b : CreateBody) (w : World) :
  code (fst (create now random b w)) = 200 ->
  exists d ba ea addr,
    c_direction b ≫= parse_direction = Some d /\
    c_btc_amount b = Some ba /\ c_eth_amount b = Some ea /\
    c_eth_address b = Some addr /\
    ba <> 0 /\ ea <> ""%string /\ addr <> ""%string.
Proof.
  unfold create.
  destruct (c_direction b ≫= parse_direction) as [d|]; [|discriminate].
  destruct (c_btc_amount b) as [ba|]; [|discriminate].
  destruct (c_eth_amount b) as [ea|]; [|discriminate].
  destruct (c_eth_address b) as [addr|]; [|discriminate].
  destruct (Z.eqb_spec ba 0); [discriminate|].
  destruct (String.eqb_spec ea ""); [discriminate|].
  destruct (String.eqb_spec addr ""); [discriminate|].
  intros _. exists d, ba, ea, addr. auto 10.
Qed.

Lemma create_not_200 (now : Z) (random : list byte) (b : CreateBody) (w : World) :
  code (fst (create now random b w)) <> 200 -> snd (create now random b w) = w.
Proof.
  unfold create.
  destruct (c_direction b ≫= parse_direction) as [d|]; [|reflexivity].
  destruct (c_btc_amount b) as [ba|]; [|reflexivity].
  destruct (c_eth_amount b) as [ea|]; [|reflexivity].
  destruct (c_eth_address b) as [addr|]; [|reflexivity].
  destruct ((ba =? 0) || String.eqb ea "" || String.eqb addr ""); [reflexivity|].
  unfold generateSecret. rewrite generateHashlock_toHex.
  cbn. intros H. contradiction.
Qed.


(** The create response carries the secret exactly for the direction
    'eth-to-btc'; and whatever the direction, reading the new swap back
    with [GET /swap/:id] does not show the secret. *)
Theorem create_discloses_secret_by_direction (now : Z) (random : list byte)
    (b : CreateBody) (w : World) (o : gmap string JsValue) :
  fst (create now random b w) = {| code := 200; body := BObj o |} ->
  (c_direction b = Some "eth-to-btc"%string ->
   o !! "secret"%string = Some (JStr (Buf.toHex random))) /\
  (c_direction b = Some "btc-to-eth"%string -> o !! "secret"%string = None) /\
  exists id o',
    o !! "swap_id"%string = Some (JNum id) /\
    get_swap id (snd (create now random b w)) = {| code := 200; body := BObj o' |} /\
    o' !! "secret"%string = None.
Proof.
  intros H.
  assert (H200 : code (fst (create now random b w)) = 200) by (rewrite H; reflexivity).
  destruct (create_200_inv now random b w H200)
    as (d & ba & ea & addr & Hd & Hba & Hea & Haddr & Nba & Nea & Naddr).
  destruct (create_valid now random b w d ba ea addr Hd Hba Hea Haddr Nba Nea Naddr)
    as [_ Hw].
  revert H. unfold create at 1. rewrite Hd, Hba, Hea, Haddr.
  rewrite (proj2 (Z.eqb_neq _ _) Nba), (proj2 (String.eqb_neq _ _) Nea),
    (proj2 (String.eqb_neq _ _) Naddr).
  unfold generateSecret at 1. rewrite generateHashlock_toHex.
  cbn [orb fst]. intros [= <-].
  split; [|split].
  - intros Hdir. rewrite Hdir in Hd. cbn in Hd. injection Hd as <-. reflexivity.
  - intros Hdir. rewrite Hdir in Hd. cbn in Hd. injection Hd as <-. reflexivity.
  - exists (next_rowid (db w)).
    destruct (get_swap_hides_unrevealed (snd (create now random b w))
                (next_rowid (db w))
                (inserted_row (next_rowid (db w)) now d
                   (Buf.toHex (SHA256.sha256 random)) (generateSecret random)
                   ba ea (or_null (c_btc_pubkey b)) addr
                   (now + default 24 (c_expiration_hours b) * 3600)))
      as (o' & Ho' & Hs).
    { rewrite Hw. cbn [db]. apply lookup_insert_eq. }
    { reflexivity. }
    exists o'. split; [|split; assumption].
    destruct d; reflexivity.
Qed.

(** The secret drawn at creation completes the swap: submitting the stored
    secret to submit-secret is accepted and sets the status 'completed'. *)
Theorem created_secret_completes_swap (now : Z) (random : list byte)
    (b : CreateBody) (w : World) (e : Env) :
  random <> [] ->
  code (fst (create now random b w)) = 200 ->
  let w1 := snd (create now random b w) in
  let id := next_rowid (db w) in
  code (fst (submit_secret e id (Some (generateSecret random)) w1)) = 200 /\
  (status <$> db (snd (submit_secret e id (Some (generateSecret random)) w1)) !! id)
    = Some Completed.
Proof.
  intros Hr H w1 id.
  destruct (create_200_inv now random b w H)
    as (d & ba & ea & addr & Hd & Hba & Hea & Haddr & Nba & Nea & Naddr).
  destruct (create_valid now random b w d ba ea addr Hd Hba Hea Haddr Nba Nea Naddr)
    as [_ Hw].
  assert (Hrow : db w1 !! id =
                 Some (inserted_row id now d (Buf.toHex (SHA256.sha256 random))
                         (generateSecret random) ba ea (or_null (c_btc_pubkey b)) addr
                         (now + default 24 (c_expiration_hours b) * 3600))).
  { unfold w1. rewrite Hw. cbn [db]. apply lookup_insert_eq. }
  assert (Hne : generateSecret random <> ""%string)
    by (apply toHex_nonempty, Hr).
  unfold submit_secret.
  assert (Hg : generateHashlock (generateSecret random)
               = Some (Buf.toHex (SHA256.sha256 random)))
    by apply generateHashlock_toHex.
  rewrite (missing_false (generateSecret random) Hne), Hrow, Hg.
  cbn [hashlock inserted_row]. rewrite String.eqb_refl. cbn [negb fst snd code].
  split; [reflexivity|].
  rewrite (update_row_lookup _ id w1 _ Hrow). reflexivity.
Qed.

End CreateProperties.

(** ** Funding, claiming and refunding the Ethereum escrow through the
       server *)

Section EscrowRouteProperties.
Import Server Coordinator.
Local Open Scope Z_scope.

Lemma getBytes_0x (s : string) :
  EthEscrowManager.getBytes ("0x" ++ s) = Buf.fromHexStrict s.
Proof. reflexivity. Qed.

Lemma deployEscrow_inv (e : Env) (c c' : gmap string EthEscrow.State)
    (rcp hl : string) (t : Z) (amt a h : string) :
  deployEscrow e c rcp hl t amt = Some (c', a, h) ->
  exists r bytes v,
    resolve_address e rcp = Some r /\
    EthEscrowManager.getBytes hl = Some bytes /\ length bytes = 32%nat /\
    parseWei amt = Some v /\ 0 < v <= funds e /\ r <> EthEscrow.zero_address /\
    block_time e < t /\
    a = new_address e /\ h = tx_hash e /\
    c' = <[new_address e :=
             {| EthEscrow.deployer := wallet e; EthEscrow.recipient := r;
                EthEscrow.hashlock := bytes; EthEscrow.timeout := t;
                EthEscrow.amount := v; EthEscrow.claimed := false;
                EthEscrow.refunded := false |}]> c.
Proof.
  unfold deployEscrow.
  destruct (resolve_address e rcp) as [r|]; [|discriminate].
  destruct (EthEscrowManager.getBytes hl) as [bytes|]; [|discriminate].
  destruct (parseWei amt) as [v|]; [|discriminate].
  destruct (Nat.eqb_spec (length bytes) 32) as [Hl|]; [|discriminate].
  destruct (Z.leb_spec 0 t); [|discriminate].
  destruct (Z.leb_spec 0 v); [|discriminate].
  destruct (Z.leb_spec v (funds e)); [|discriminate].
  cbn [andb].
  destruct (EthEscrow.constructor _ v r bytes t) as [st|] eqn:E; [|discriminate].
  intros H'. injection H' as <- <- <-.
  destruct (constructor_ok_inv _ v r bytes t st E) as (A & B & C & ->).
  exists r, bytes, v. cbn. auto 14.
Qed.

Lemma deployEscrow_intro (e : Env) (c : gmap string EthEscrow.State)
    (rcp hl : string) (t : Z) (amt r : string) (bytes : list byte) (v : Z) :
  resolve_address e rcp = Some r ->
  EthEscrowManager.getBytes hl = Some bytes -> length bytes = 32%nat ->
  parseWei amt = Some v -> 0 < v <= funds e -> r <> EthEscrow.zero_address ->
  0 <= block_time e < t ->
  deployEscrow e c rcp hl t amt =
  Some (<[new_address e :=
            {| EthEscrow.deployer := wallet e; EthEscrow.recipient := r;
               EthEscrow.hashlock := bytes; EthEscrow.timeout := t;
               EthEscrow.amount := v; EthEscrow.claimed := false;
               EthEscrow.refunded := false |}]> c,
        new_address e, tx_hash e).
Proof.
  intros Ha Hb Hl Hv [Hpos Hf] Hr [Ht0 Ht]. unfold deployEscrow.
  rewrite Ha, Hb, Hv, Hl. cbn [Nat.eqb andb].
  rewrite (proj2 (Z.leb_le 0 t)) by lia.
  rewrite (proj2 (Z.leb_le 0 v)) by lia.
  rewrite (proj2 (Z.leb_le v (funds e))) by lia.
  cbn [andb].
  rewrite (constructor_ok_intro (wallet_call e) v r bytes t Hpos Hr Ht).
  reflexivity.
Qed.


(** A swap created by the server, once funded, can be claimed on chain with
    the bytes drawn at creation: whenever fund-eth succeeds on a swap just
    created from 32 random bytes, the escrow it deploys is locked to the
    SHA-256 digest of those bytes and pays the account the swap's address
    resolves to, so a claim by that account with the raw bytes as secret
    succeeds, provided the account takes the transfer. *)
Theorem created_swap_claimable_on_chain (now0 : Z) (random : list byte)
    (b : CreateBody) (w : World) (e : Env) :
  length random = 32%nat ->
  code (fst (create now0 random b w)) = 200 ->
  let w1 := snd (create now0 random b w) in
  let id := next_rowid (db w) in
  let w2 := snd (fund_eth e id w1) in
  code (fst (fund_eth e id w1)) = 200 ->
  exists st,
    chain w2 !! new_address e = Some st /\
    (c_eth_address b ≫= resolve_address e) = Some (EthEscrow.recipient st) /\
    EthEscrow.hashlock st = SHA256.sha256 random /\
    forall envc, EthEscrow.msg_sender envc = EthEscrow.recipient st ->
                 EthEscrow.accepts envc (EthEscrow.recipient st) = true ->
                 is_ok (EthEscrow.claim envc random st) = true.
Proof.
  intros Hlen H w1 id w2 H2.
  destruct (create_200_inv now0 random b w H)
    as (d & ba & ea & addr & Hd & Hba & Hea & Haddr & Nba & Nea & Naddr).
  destruct (create_valid now0 random b w d ba ea addr Hd Hba Hea Haddr Nba Nea Naddr)
    as [_ Hw].
  set (row := inserted_row id now0 d (Buf.toHex (SHA256.sha256 random))
                (generateSecret random) ba ea (or_null (c_btc_pubkey b)) addr
                (now0 + default 24 (c_expiration_hours b) * 3600)).
  assert (Hrow : db w1 !! id = Some row).
  { unfold w1. rewrite Hw. cbn [db]. apply lookup_insert_eq. }
  revert H2. unfold w2, fund_eth. rewrite Hrow.
  destruct (deployEscrow e (chain w1) (eth_address row) ("0x" ++ hashlock row)
              (expiration row) (eth_amount row)) as [[[c a] h]|] eqn:E;
    cbn [fst snd code]; [|discriminate].
  intros _.
  destruct (deployEscrow_inv _ _ _ _ _ _ _ _ _ E)
    as (rcp & bytes & v & Ha & Hb & Hl & Hv & Hpos & Hr & Ht & -> & -> & ->).
  rewrite getBytes_0x in Hb. cbn [hashlock row inserted_row] in Hb.
  rewrite fromHexStrict_toHex in Hb. injection Hb as <-.
  eexists. split; [cbn; apply lookup_insert_eq|].
  cbn [EthEscrow.recipient EthEscrow.hashlock].
  split; [rewrite Haddr; exact Ha|]. split; [reflexivity|].
  intros envc Hc Hacc. apply claim_ok_intro; auto.
Qed.

Lemma utf8_length (s : string) :
  length (EthEscrowManager.toUtf8Bytes s) = String.length s.
Proof.
  unfold EthEscrowManager.toUtf8Bytes, list_byte_of_string.
  rewrite length_map. induction s as [|c s IH]; [reflexivity|].
  cbn. rewrite IH. reflexivity.
Qed.

Lemma manager_claim_inv (e : Env) (c c' : gmap string EthEscrow.State)
    (addr secret h : string) :
  manager_claim e c addr secret = Some (c', h) ->
  exists st bytes,
    c !! addr = Some st /\
    EthEscrowManager.claimSecretBytes secret = Some bytes /\
    EthEscrow.recipient st = wallet e /\
    EthEscrow.claimed st = false /\ EthEscrow.refunded st = false /\
    SHA256.sha256 bytes = EthEscrow.hashlock st /\
    (EthEscrow.claimed <$> c' !! addr) = Some true.
Proof.
  unfold manager_claim. destruct (c !! addr) as [st|] eqn:Hst; [|discriminate].
  destruct (EthEscrowManager.claimSecretBytes secret) as [bytes|]; [|discriminate].
  destruct (EthEscrow.claim _ bytes st) as [o|] eqn:E; [|discriminate].
  intros [= <- <-]. apply claim_ok_inv in E. cbn in E.
  destruct E as (A & B & C & D & ->).
  exists st, bytes. rewrite lookup_insert_eq. cbn. auto 10.
Qed.

Lemma manager_claim_intro (e : Env) (c : gmap string EthEscrow.State)
    (addr secret : string) (st : EthEscrow.State) (bytes : list byte) :
  c !! addr = Some st ->
  EthEscrowManager.claimSecretBytes secret = Some bytes ->
  EthEscrow.recipient st = wallet e ->
  EthEscrow.claimed st = false -> EthEscrow.refunded st = false ->
  SHA256.sha256 bytes = EthEscrow.hashlock st ->
  exists c' h, manager_claim e c addr secret = Some (c', h).
Proof.
  intros Hst Hb Hr Hc Hf Hh. unfold manager_claim. rewrite Hst, Hb.
  pose proof (claim_ok_intro (wallet_call e) bytes st) as Hok.
  destruct (EthEscrow.claim _ bytes st) as [o|]; [eauto|].
  cbn in Hok. rewrite Hr, String.eqb_refl in Hok.
  specialize (Hok eq_refl Hc Hf Hh eq_refl). discriminate.
Qed.


(** A secret longer than 32 bytes can never be claimed through claim-eth:
    the request fails and changes nothing.  The secrets the server itself
    creates are 64 hexadecimal characters long, so claim-eth always fails
    on a swap's own stored secret. *)
Theorem claim_eth_rejects_long_secret (e : Env) (id : Z) (s : string) (w : World) :
  (32 < String.length s)%nat ->
  code (fst (claim_eth e id (Some s) w)) <> 200 /\
  snd (claim_eth e id (Some s) w) = w /\
  (forall random, length random = 32%nat ->
     code (fst (claim_eth e id (Some (generateSecret random)) w)) <> 200).
Proof.
  assert (G : forall s', (32 < String.length s')%nat ->
                code (fst (claim_eth e id (Some s') w)) <> 200 /\
                snd (claim_eth e id (Some s') w) = w).
  { intros s' Hlen.
    assert (Hpad : EthEscrowManager.claimSecretBytes s' = None).
    { unfold EthEscrowManager.claimSecretBytes, EthEscrowManager.zeroPadValue.
      rewrite utf8_length.
      destruct (Nat.leb_spec (String.length s') 32); [lia|reflexivity]. }
    assert (Hm : forall addr, manager_claim e (chain w) addr s' = None).
    { intros addr. unfold manager_claim. rewrite Hpad.
      destruct (chain w !! addr); reflexivity. }
    unfold claim_eth.
    destruct (db w !! id) as [swap|]; [|split; [discriminate|reflexivity]].
    destruct (eth_escrow_address swap) as [addr|]; [|split; [discriminate|reflexivity]].
    destruct (String.eqb addr ""); [split; [discriminate|reflexivity]|].
    rewrite Hm. split; [discriminate|reflexivity]. }
  intros Hlen. destruct (G s Hlen) as [G1 G2].
  split; [exact G1|]. split; [exact G2|].
  intros random Hr. apply G. unfold generateSecret.
  rewrite toHex_length, Hr. lia.
Qed.

(** An escrow deployed through fund-eth can be refunded through refund-eth
    once the swap has expired, as long as nobody claimed it: with the same
    server wallet, server and chain clocks at or past the expiration, and
    the escrow still as deployed, refund-eth succeeds, the escrow is
    refunded and the swap's status becomes 'refunded'. *)
Theorem funded_escrow_refundable_after_expiry (e1 e2 : Env) (id : Z) (w : World) :
  code (fst (fund_eth e1 id w)) = 200 ->
  new_address e1 <> ""%string ->
  wallet e2 = wallet e1 ->
  let w1 := snd (fund_eth e1 id w) in
  (forall swap, db w !! id = Some swap ->
     expiration swap <= now e2 /\ expiration swap <= block_time e2) ->
  code (fst (refund_eth e2 id w1)) = 200 /\
  (status <$> db (snd (refund_eth e2 id w1)) !! id) = Some Refunded /\
  (EthEscrow.refunded <$> chain (snd (refund_eth e2 id w1)) !! new_address e1)
    = Some true.
Proof.
  intros H Hne Hw w1 Hexp.
  unfold w1. clear w1. revert H. unfold fund_eth.
  destruct (db w !! id) as [swap|] eqn:Hs; [|discriminate].
  destruct (Hexp swap eq_refl) as [Hn Hb].
  destruct (deployEscrow e1 (chain w) (eth_address swap) ("0x" ++ hashlock swap)
              (expiration swap) (eth_amount swap)) as [[[c a] h]|] eqn:E;
    [|discriminate].
  intros _. cbn [snd].
  destruct (deployEscrow_inv _ _ _ _ _ _ _ _ _ E)
    as (rcp & bytes & v & _ & _ & _ & _ & _ & _ & _ & -> & -> & ->).
  set (st := {| EthEscrow.deployer := wallet e1;
                EthEscrow.recipient := rcp;
                EthEscrow.hashlock := bytes; EthEscrow.timeout := expiration swap;
                EthEscrow.amount := v; EthEscrow.claimed := false;
                EthEscrow.refunded := false |}).
  set (w1 := update_row (update_fund_eth (new_address e1) (now e1)) id
               (with_chain (<[new_address e1 := st]> (chain w)) w)).
  assert (Hrow : db w1 !! id = Some (update_fund_eth (new_address e1) (now e1) swap)).
  { apply (update_row_lookup _ id (with_chain _ w) swap). exact Hs. }
  assert (Hch : chain w1 !! new_address e1 = Some st) by (cbn; apply lookup_insert_eq).
  assert (Hm : manager_refund e2 (chain w1) (new_address e1) =
               Some (<[new_address e1 :=
                         {| EthEscrow.deployer := wallet e1;
                            EthEscrow.recipient := rcp;
                            EthEscrow.hashlock := bytes;
                            EthEscrow.timeout := expiration swap;
                            EthEscrow.amount := v; EthEscrow.claimed := false;
                            EthEscrow.refunded := true |}]> (chain w1), tx_hash e2)).
  { unfold manager_refund. rewrite Hch, refund_error_order. cbn.
    rewrite Hw, String.eqb_refl. cbn [negb orb].
    rewrite (proj2 (Z.ltb_ge _ _) Hb). reflexivity. }
  unfold refund_eth. rewrite Hrow. cbn [eth_escrow_address update_fund_eth].
  rewrite (proj2 (String.eqb_neq _ _) Hne).
  cbn [expiration update_fund_eth].
  rewrite (proj2 (Z.ltb_ge _ _) Hn), Hm. cbn [fst snd code].
  split; [reflexivity|]. split.
  - erewrite update_row_lookup; [reflexivity|exact Hrow].
  - cbn [update_row chain with_chain]. rewrite lookup_insert_eq. reflexivity.
Qed.

End EscrowRouteProperties.

(** ** What no request ever does to a swap *)

Section FrameProperties.
Import Server Coordinator.
Local Open Scope Z_scope.

Lemma same_swap_terms_refl (r : Swap) : same_swap_terms r r.
Proof. repeat split. Qed.

Lemma same_swap_terms_trans (a b c : Swap) :
  same_swap_terms a b -> same_swap_terms b c -> same_swap_terms a c.
Proof.
  unfold same_swap_terms.
  intros (A1 & A2 & A3 & A4 & A5 & A6 & A7 & A8 & A9 & A10)
         (B1 & B2 & B3 & B4 & B5 & B6 & B7 & B8 & B9 & B10).
  repeat split; congruence.
Qed.

Lemma progress_refl (r : Swap) : progress r r.
Proof. repeat split; auto. Qed.

Lemma progress_trans (a b c : Swap) : progress a b -> progress b c -> progress a c.
Proof.
  unfold progress.
  intros (A1 & A2 & A3 & A4 & A5 & A6 & A7) (B1 & B2 & B3 & B4 & B5 & B6 & B7).
  repeat split; auto.
Qed.

Lemma kept_refl (w : World) : kept w w.
Proof.
  intros k r H. exists r. split; [exact H|].
  split; [apply same_swap_terms_refl|apply progress_refl].
Qed.

Lemma kept_update_row (f : Swap -> Swap) (id : Z) (w : World)
    (c : gmap string EthEscrow.State) :
  (forall r, same_swap_terms r (f r) /\ progress r (f r)) ->
  kept w (update_row f id (with_chain c w)).
Proof.
  intros Hf k r H. cbn. destruct (decide (k = id)) as [->|Hne].
  - exists (f r). rewrite lookup_alter_eq, H. split; [reflexivity|apply Hf].
  - exists r. rewrite lookup_alter_ne by auto. split; [exact H|].
    split; [apply same_swap_terms_refl|apply progress_refl].
Qed.

Lemma kept_update_row' (f : Swap -> Swap) (id : Z) (w : World) :
  (forall r, same_swap_terms r (f r) /\ progress r (f r)) ->
  kept w (update_row f id w).
Proof.
  intros Hf. pose proof (kept_update_row f id w (chain w) Hf) as H.
  destruct w. exact H.
Qed.

Lemma update_fund_btc_ok rs tx t r :
  same_swap_terms r (update_fund_btc rs tx t r) /\ progress r (update_fund_btc rs tx t r).
Proof. split; repeat split; cbn; auto; try discriminate; eauto. Qed.

Lemma update_fund_eth_ok a t r :
  same_swap_terms r (update_fund_eth a t r) /\ progress r (update_fund_eth a t r).
Proof. split; repeat split; cbn; auto; try discriminate; eauto. Qed.

Lemma update_completed_ok t r :
  same_swap_terms r (update_completed t r) /\ progress r (update_completed t r).
Proof. split; repeat split; cbn; auto; try discriminate. Qed.

Lemma update_refunded_ok t r :
  same_swap_terms r (update_refunded t r) /\ progress r (update_refunded t r).
Proof. split; repeat split; cbn; auto; try discriminate. Qed.

Lemma handle_kept (e : Env) (q : Request) (w : World) : kept w (snd (handle e q w)).
Proof.
  destruct q as [id rs tx|id|id s|id s|id]; cbn [handle].
  - unfold fund_btc. destruct rs as [rs|]; [|apply kept_refl].
    destruct tx as [tx|]; [|apply kept_refl].
    destruct (missing (Some rs) || missing (Some tx)); [apply kept_refl|].
    destruct (db w !! id); [|apply kept_refl].
    cbn [snd]. apply kept_update_row'. intros r. apply update_fund_btc_ok.
  - unfold fund_eth. destruct (db w !! id) as [swap|]; [|apply kept_refl].
    destruct (deployEscrow _ _ _ _ _ _) as [[[c a] h]|]; [|apply kept_refl].
    cbn [snd]. apply kept_update_row. intros r. apply update_fund_eth_ok.
  - unfold submit_secret. destruct s as [s|]; [|apply kept_refl].
    destruct (missing (Some s)); [apply kept_refl|].
    destruct (db w !! id) as [swap|]; [|apply kept_refl].
    destruct (generateHashlock s) as [h|]; [|apply kept_refl].
    destruct (negb _); [apply kept_refl|].
    cbn [snd]. apply kept_update_row'. intros r. apply update_completed_ok.
  - unfold claim_eth. destruct (db w !! id) as [swap|]; [|apply kept_refl].
    destruct (eth_escrow_address swap) as [addr|]; [|apply kept_refl].
    destruct (String.eqb addr ""); [apply kept_refl|].
    destruct s as [s|]; [|apply kept_refl].
    destruct (manager_claim _ _ _ _) as [[c h]|]; [|apply kept_refl].
    cbn [snd]. apply kept_update_row. intros r. apply update_completed_ok.
  - unfold refund_eth. destruct (db w !! id) as [swap|]; [|apply kept_refl].
    destruct (eth_escrow_address swap) as [addr|]; [|apply kept_refl].
    destruct (String.eqb addr ""); [apply kept_refl|].
    destruct (now e <? expiration swap); [apply kept_refl|].
    destruct (manager_refund _ _ _) as [[c h]|]; [|apply kept_refl].
    cbn [snd]. apply kept_update_row. intros r. apply update_refunded_ok.
Qed.

Lemma create_kept (now : Z) (random : list byte) (b : CreateBody) (w : World) :
  kept w (snd (create now random b w)).
Proof.
  destruct (Z.eq_dec (code (fst (create now random b w))) 200) as [H|H].
  - destruct (create_200_inv now random b w H)
      as (d & ba & ea & addr & Hd & Hba & Hea & Haddr & Nba & Nea & Naddr).
    destruct (create_valid now random b w d ba ea addr Hd Hba Hea Haddr Nba Nea Naddr)
      as [_ Hw].
    intros k r Hk. exists r. rewrite Hw. cbn [db]. split.
    + rewrite lookup_insert_ne; [exact Hk|].
      intros <-. rewrite next_rowid_fresh in Hk. discriminate.
    + split; [apply same_swap_terms_refl|apply progress_refl].
  - rewrite (create_not_200 now random b w H). apply kept_refl.
Qed.

Lemma play_kept (acts : list Action) : forall w, kept w (play w acts).
Proof.
  induction acts as [|a acts IH]; intros w; [apply kept_refl|].
  cbn [play fold_left]. intros k r Hk.
  assert (K1 : kept w (perform w a)).
  { destruct a; cbn [perform]; [apply create_kept|apply handle_kept]. }
  destruct (K1 k r Hk) as (r1 & H1 & T1 & P1).
  destruct (IH (perform w a) k r1 H1) as (r2 & H2 & T2 & P2).
  exists r2. split; [exact H2|].
  split; [eapply same_swap_terms_trans; eauto|eapply progress_trans; eauto].
Qed.

(** No sequence of requests (create, fund-btc, fund-eth, submit-secret,
    claim-eth, refund-eth) deletes a swap or changes its id, direction,
    hashlock, stored secret, amounts, public key, address, expiration or
    creation time. *)
Theorem swap_terms_never_change (w : World) (acts : list Action) (k : Z) (r : Swap) :
  db w !! k = Some r ->
  exists r', db (play w acts) !! k = Some r' /\ same_swap_terms r r'.
Proof.
  intros H. destruct (play_kept acts w k r H) as (r' & H' & T & _). eauto.
Qed.

(** No sequence of requests clears a funded flag, the revealed flag, the
    escrow address or the Bitcoin transaction id of a swap, or brings its
    status back to 'pending', and none ever assigns the status 'expired'. *)
Theorem swap_progress_never_undone (w : World) (acts : list Action) (k : Z) (r : Swap) :
  db w !! k = Some r ->
  exists r', db (play w acts) !! k = Some r' /\ progress r r'.
Proof.
  intros H. destruct (play_kept acts w k r H) as (r' & H' & _ & P). eauto.
Qed.

End FrameProperties.

(** ** Reading swaps back *)

Section ReadProperties.
Import Server Coordinator.
Local Open Scope Z_scope.

(** After a successful submit-secret, [GET /swap/:id] shows the secret
    stored at creation, together with the revealed flag and the status
    'completed'. *)
Theorem revealed_swap_shows_secret (e : Env) (id : Z) (s : string) (w : World) :
  code (fst (submit_secret e id (Some s) w)) = 200 ->
  exists swap o,
    db w !! id = Some swap /\
    get_swap id (snd (submit_secret e id (Some s) w)) = {| code := 200; body := BObj o |} /\
    o !! "secret"%string = Some (opt_str (secret swap)) /\
    o !! "secret_revealed"%string = Some (JNum 1) /\
    o !! "status"%string = Some (JStr "completed").
Proof.
  unfold submit_secret.
  destruct (missing (Some s)); [discriminate|].
  destruct (db w !! id) as [swap|] eqn:Hs; [|discriminate].
  destruct (generateHashlock s) as [h|]; [|discriminate].
  destruct (negb _); [discriminate|]. cbn [fst snd code]. intros _.
  exists swap. eexists. split; [reflexivity|].
  unfold get_swap. rewrite (update_row_lookup _ id w swap Hs).
  rewrite row_object_revealed. cbn [secret_revealed update_completed sql_bool truthy negb Z.eqb].
  split; [reflexivity|]. repeat split; reflexivity.
Qed.

Lemma insert_desc_In_rev (x r : Swap) (l : list Swap) :
  x = r \/ In x l -> In x (insert_desc r l).
Proof.
  induction l as [|y l IH]; cbn.
  - intros [H|[]]; auto.
  - destruct (created_at y <? created_at r); cbn.
    + intros [H|[H|H]]; auto.
    + intros [H|[H|H]]; auto.
Qed.

Lemma order_desc_In_rev (x : Swap) (l : list Swap) :
  In x l -> In x (order_desc l).
Proof.
  induction l as [|y l IH]; cbn; [auto|].
  intros [H|H]; apply insert_desc_In_rev; auto.
Qed.

Lemma newest_first_cons (x : Swap) (l : list Swap) :
  newest_first l -> (forall y, In y l -> created_at y <= created_at x) ->
  newest_first (x :: l).
Proof.
  intros Hl Hx i j a b Hij Hi Hj.
  destruct j as [|j]; [lia|]. cbn in Hj.
  destruct i as [|i]; cbn in Hi.
  - injection Hi as <-. apply Hx.
    apply list_elem_of_In, list_elem_of_lookup. eauto.
  - apply (Hl i j a b); auto. lia.
Qed.

Lemma newest_first_tail (x : Swap) (l : list Swap) :
  newest_first (x :: l) ->
  newest_first l /\ (forall y, In y l -> created_at y <= created_at x).
Proof.
  intros H. split.
  - intros i j a b Hij Hi Hj. apply (H (S i) (S j) a b); auto. lia.
  - intros y Hy. apply list_elem_of_In, list_elem_of_lookup in Hy.
    destruct Hy as [j Hj]. apply (H 0%nat (S j) x y); auto. lia.
Qed.

Lemma insert_desc_sorted (r : Swap) (l : list Swap) :
  newest_first l -> newest_first (insert_desc r l).
Proof.
  induction l as [|y l IH]; intros Hl; cbn.
  - apply newest_first_cons; [intros i j a b _ Hi; destruct i; discriminate|].
    intros y [].
  - destruct (newest_first_tail y l Hl) as [Hl' Hy].
    destruct (created_at y <? created_at r) eqn:E.
    + apply Z.ltb_lt in E. apply newest_first_cons; [exact Hl|].
      intros z [<-|Hz]; [lia|]. specialize (Hy z Hz). lia.
    + apply Z.ltb_ge in E. apply newest_first_cons; [apply IH, Hl'|].
      intros z Hz. apply insert_desc_In in Hz. destruct Hz as [->|Hz]; auto.
Qed.

Lemma order_desc_sorted (l : list Swap) : newest_first (order_desc l).
Proof.
  induction l as [|y l IH]; cbn.
  - intros i j a b _ Hi. destruct i; discriminate.
  - apply insert_desc_sorted, IH.
Qed.

(** The query behind [GET /swaps]: the swaps listed are exactly the stored
    swaps whose status and direction equal the given, non-empty filters,
    newest first; the response holds their sanitized objects in that
    order. *)
Theorem get_swaps_lists_matching_newest_first (st dir : option string) (w : World) :
  (forall r, In r (select_swaps st dir w) <->
     (exists id, db w !! id = Some r) /\
     (forall s, st = Some s -> s <> ""%string -> status_text (status r) = s) /\
     (forall d, dir = Some d -> d <> ""%string -> direction_text (direction r) = d)) /\
  newest_first (select_swaps st dir w) /\
  get_swaps st dir w =
    {| code := 200;
       body := BList (map (fun r => sanitize (row_object r)) (select_swaps st dir w)) |}.
Proof.
  split; [|split].
  - intros r. unfold select_swaps. split.
    + intros H. apply order_desc_In, List.filter_In in H. destruct H as [Hin Hk].
      split.
      * apply in_map_iff in Hin. destruct Hin as ([id r'] & <- & Hin).
        exists id. apply elem_of_map_to_list, list_elem_of_In. exact Hin.
      * apply andb_true_iff in Hk. destruct Hk as [Hs Hd]. split.
        -- intros s -> Hne. rewrite (missing_false s Hne) in Hs.
           apply String.eqb_eq, Hs.
        -- intros d -> Hne. rewrite (missing_false d Hne) in Hd.
           apply String.eqb_eq, Hd.
    + intros ((id & Hid) & Hs & Hd).
      apply order_desc_In_rev, List.filter_In. split.
      * apply in_map_iff. exists (id, r). split; [reflexivity|].
        apply list_elem_of_In, elem_of_map_to_list. exact Hid.
      * apply andb_true_iff. split.
        -- destruct st as [s|]; [|reflexivity].
           destruct (missing (Some s)) eqn:Em; [reflexivity|].
           apply String.eqb_eq, Hs; [reflexivity|].
           intros ->. discriminate.
        -- destruct dir as [d|]; [|reflexivity].
           destruct (missing (Some d)) eqn:Em; [reflexivity|].
           apply String.eqb_eq, Hd; [reflexivity|].
           intros ->. discriminate.
  - apply order_desc_sorted.
  - unfold get_swaps. rewrite map_map. reflexivity.
Qed.

Lemma response_object_inj (c : Z) (o o' : gmap string JsValue) :
  {| code := c; body := BObj o |} = {| code := c; body := BObj o' |} -> o = o'.
Proof. intros H. injection H. auto. Qed.

Lemma row_object_status (r : Swap) :
  row_object r !! "status"%string = Some (JStr (status_text (status r))).
Proof. reflexivity. Qed.

Lemma row_object_eth_funded (r : Swap) :
  row_object r !! "eth_funded"%string = Some (sql_bool (eth_funded r)).
Proof. reflexivity. Qed.

Lemma button_on_read_object (r : Swap) :
  showFundEthButton
    (if negb (truthy (Some (sql_bool (secret_revealed r))))
     then delete "secret"%string (row_object r) else row_object r)
  = String.eqb (status_text (status r)) "pending" && negb (eth_funded r).
Proof.
  unfold showFundEthButton.
  destruct (negb (truthy (Some (sql_bool (secret_revealed r))))).
  - rewrite !lookup_delete_ne by discriminate.
    rewrite row_object_status, row_object_eth_funded.
    destruct (eth_funded r); reflexivity.
  - rewrite row_object_status, row_object_eth_funded.
    destruct (eth_funded r); reflexivity.
Qed.

(** The details page offers the "Fund ETH Escrow" button only for a swap
    read back as pending with the Ethereum leg unfunded.  Once fund-btc has
    marked the Bitcoin leg funded, the swap reads back with status 'funded',
    so the button is no longer offered, whether or not the Ethereum leg is
    funded. *)
Theorem fund_eth_button_hidden_after_fund_btc (e : Env) (id : Z)
    (rs tx : string) (w : World) (r : Swap) :
  db w !! id = Some r -> rs <> ""%string -> tx <> ""%string ->
  (forall o, get_swap id w = {| code := 200; body := BObj o |} ->
     showFundEthButton o = true <-> status r = Pending /\ eth_funded r = false) /\
  exists o',
    get_swap id (snd (fund_btc e id (Some rs) (Some tx) w))
      = {| code := 200; body := BObj o' |} /\
    showFundEthButton o' = false.
Proof.
  intros Hr Hrs Htx. split.
  - intros o. unfold get_swap. rewrite Hr, row_object_revealed.
    intros H. apply response_object_inj in H. rewrite <- H.
    rewrite button_on_read_object.
    rewrite andb_true_iff, negb_true_iff.
    destruct (status r); cbn; split; intros [A B]; split; auto; discriminate.
  - unfold fund_btc.
    rewrite (missing_false rs Hrs), (missing_false tx Htx), Hr. cbn [orb snd].
    unfold get_swap. rewrite (update_row_lookup _ id w r Hr), row_object_revealed.
    set (r1 := update_fund_btc rs tx (now e) r).
    exists (if negb (truthy (Some (sql_bool (secret_revealed r1))))
            then delete "secret"%string (row_object r1) else row_object r1).
    split; [reflexivity|].
    rewrite button_on_read_object. reflexivity.
Qed.

End ReadProperties.

(** ** The escrow manager's secrets and hashlocks *)

Section ManagerProperties.
Import EthEscrowManager Coordinator.

Lemma hexlify_length (bs : list byte) :
  String.length (hexlify bs) = (2 + 2 * length bs)%nat.
Proof.
  unfold hexlify.
  change (String.length ("0x" ++ Buf.toHex bs))
    with (S (S (String.length (Buf.toHex bs)))).
  rewrite toHex_length. reflexivity.
Qed.

Lemma getBytes_hexlify (bs : list byte) : getBytes (hexlify bs) = Some bs.
Proof. unfold hexlify. cbn. apply fromHexStrict_toHex. Qed.

(** What [claim] sends to the contract is exactly 32 bytes, the secret's
    bytes after leading zero bytes, when the secret is at most 32 bytes
    long; a longer secret makes [claim] throw before any call.  The secrets
    of [generateSecret] are 66 characters long, so [claim] throws on every
    one of them. *)
Theorem manager_claim_secret_bytes (secret : string) :
  ((String.length secret <= 32)%nat ->
   exists bytes,
     claimSecretBytes secret = Some bytes /\ length bytes = 32%nat /\
     bytes = repeat x00 (32 - String.length secret) ++ toUtf8Bytes secret) /\
  ((32 < String.length secret)%nat -> claimSecretBytes secret = None) /\
  (forall random, length random = 32%nat ->
     claimSecretBytes (managerGenerateSecret random) = None).
Proof.
  assert (G : forall s, (32 < String.length s)%nat -> claimSecretBytes s = None).
  { intros s H. unfold claimSecretBytes, zeroPadValue. rewrite utf8_length.
    destruct (Nat.leb_spec (String.length s) 32); [lia|reflexivity]. }
  split; [|split].
  - intros H. unfold claimSecretBytes, zeroPadValue. rewrite utf8_length.
    destruct (Nat.leb_spec (String.length secret) 32); [|lia].
    eexists. split; [reflexivity|]. split; [|reflexivity].
    rewrite length_app, repeat_length, utf8_length. lia.
  - apply G.
  - intros random Hr. apply G. unfold managerGenerateSecret.
    rewrite hexlify_length, Hr. lia.
Qed.

(** The manager's hashlock always encodes a [bytes32]: decoding
    [generateHashlock(secret)] gives the 32-byte Keccak-256 digest of the
    secret's bytes, so [deployEscrow] accepts it as a hashlock. *)
Theorem manager_hashlock_is_bytes32 (secret : string) :
  getBytes (generateHashlock secret) = Some (Keccak.keccak256 (toUtf8Bytes secret)) /\
  length (Keccak.keccak256 (toUtf8Bytes secret)) = 32%nat /\
  String.length (generateHashlock secret) = 66%nat.
Proof.
  split; [apply getBytes_hexlify|]. split; [apply keccak256_length|].
  unfold generateHashlock. rewrite hexlify_length, keccak256_length. reflexivity.
Qed.

End ManagerProperties.

(** ** The redeem script and the witnesses the builders supply *)

Section ScriptProperties.
Import Btc Script.
Local Open Scope Z_scope.

Variable checksig : list byte -> list byte -> bool.

Lemma Z_of_byte_of_Z (d : Z) : 0 <= d < 256 -> Buf.Z_of_byte (Buf.byte_of_Z d) = d.
Proof.
  intros H. unfold Buf.Z_of_byte, Buf.byte_of_Z.
  rewrite Z.mod_small by lia.
  destruct (Byte.of_N (Z.to_N d)) as [b|] eqn:E.
  - apply Byte.to_of_N in E. rewrite E. apply Z2N.id. lia.
  - apply Byte.of_N_None_iff in E. lia.
Qed.

Lemma scriptNumEncode_length (n : Z) : (length (scriptNumEncode n) <= 5)%nat.
Proof.
  unfold scriptNumEncode. rewrite length_map.
  assert (H : forall k v, length (le_digits k v) = k).
  { induction k as [|k IH]; intros v; cbn; [reflexivity|]. rewrite IH. reflexivity. }
  assert (Hs : (scriptNumSize (Z.abs n) <= 5)%nat).
  { unfold scriptNumSize. repeat (destruct (_ <? _); [lia|]). lia. }
  destruct (rev (le_digits (scriptNumSize (Z.abs n)) (Z.abs n))) as [|l f] eqn:E.
  - cbn. lia.
  - rewrite length_rev. cbn [length].
    apply (f_equal (@length Z)) in E. rewrite length_rev, H in E. cbn in E. lia.
Qed.

(** The locktime pushed by the script reads back as the same number. *)
Lemma scriptNum_roundtrip (t : Z) :
  0 <= t <= 4294967295 -> scriptNumDecode (scriptNumEncode t) = Some t.
Proof.
  intros [H0 H1]. unfold scriptNumEncode.
  rewrite Z.abs_eq by lia. rewrite (proj2 (Z.ltb_ge t 0)) by lia.
  pose proof (Z.div_mod t 256 ltac:(lia)) as E0.
  pose proof (Z.mod_pos_bound t 256 ltac:(lia)) as B0.
  pose proof (Z.div_mod (t / 256) 256 ltac:(lia)) as E1.
  pose proof (Z.mod_pos_bound (t / 256) 256 ltac:(lia)) as B1.
  pose proof (Z.div_mod (t / 256 / 256) 256 ltac:(lia)) as E2.
  pose proof (Z.mod_pos_bound (t / 256 / 256) 256 ltac:(lia)) as B2.
  pose proof (Z.div_mod (t / 256 / 256 / 256) 256 ltac:(lia)) as E3.
  pose proof (Z.mod_pos_bound (t / 256 / 256 / 256) 256 ltac:(lia)) as B3.
  pose proof (Z.div_mod (t / 256 / 256 / 256 / 256) 256 ltac:(lia)) as E4.
  pose proof (Z.mod_pos_bound (t / 256 / 256 / 256 / 256) 256 ltac:(lia)) as B4.
  set (d0 := t mod 256) in *. set (q1 := t / 256) in *.
  set (d1 := q1 mod 256) in *. set (q2 := q1 / 256) in *.
  set (d2 := q2 mod 256) in *. set (q3 := q2 / 256) in *.
  set (d3 := q3 mod 256) in *. set (q4 := q3 / 256) in *.
  set (d4 := q4 mod 256) in *. set (q5 := q4 / 256) in *.
  unfold scriptNumSize.
  destruct (Z.ltb_spec 2147483647 t) as [C5|C5].
  { cbn [le_digits rev app]. fold d0 q1 d1 q2 d2 q3 d3 q4 d4.
    destruct (Z.leb_spec 128 d4) as [L|L]; [lia|].
    cbn [rev app map]. unfold scriptNumDecode. cbn [length Nat.ltb Nat.leb scriptNumParts].
    rewrite !Z_of_byte_of_Z by lia.
    destruct (Z.leb_spec 128 d4); [lia|]. f_equal. lia. }
  destruct (Z.ltb_spec 8388607 t) as [C4|C4].
  { cbn [le_digits rev app]. fold d0 q1 d1 q2 d2 q3 d3.
    destruct (Z.leb_spec 128 d3) as [L|L]; [lia|].
    cbn [rev app map]. unfold scriptNumDecode. cbn [length Nat.ltb Nat.leb scriptNumParts].
    rewrite !Z_of_byte_of_Z by lia.
    destruct (Z.leb_spec 128 d3); [lia|]. f_equal. lia. }
  destruct (Z.ltb_spec 32767 t) as [C3|C3].
  { cbn [le_digits rev app]. fold d0 q1 d1 q2 d2.
    destruct (Z.leb_spec 128 d2) as [L|L]; [lia|].
    cbn [rev app map]. unfold scriptNumDecode. cbn [length Nat.ltb Nat.leb scriptNumParts].
    rewrite !Z_of_byte_of_Z by lia.
    destruct (Z.leb_spec 128 d2); [lia|]. f_equal. lia. }
  destruct (Z.ltb_spec 127 t) as [C2|C2].
  { cbn [le_digits rev app]. fold d0 q1 d1.
    destruct (Z.leb_spec 128 d1) as [L|L]; [lia|].
    cbn [rev app map]. unfold scriptNumDecode. cbn [length Nat.ltb Nat.leb scriptNumParts].
    rewrite !Z_of_byte_of_Z by lia.
    destruct (Z.leb_spec 128 d1); [lia|]. f_equal. lia. }
  destruct (Z.ltb_spec 0 t) as [C1|C1].
  { cbn [le_digits rev app]. fold d0.
    destruct (Z.leb_spec 128 d0) as [L|L]; [lia|].
    cbn [rev app map]. unfold scriptNumDecode. cbn [length Nat.ltb Nat.leb scriptNumParts].
    rewrite !Z_of_byte_of_Z by lia.
    destruct (Z.leb_spec 128 d0); [lia|]. f_equal. lia. }
  cbn. f_equal. lia.
Qed.

End ScriptProperties.

Section ScriptSpends.
Import Btc Script.
Local Open Scope Z_scope.

Variable checksig : list byte -> list byte -> bool.
Variable ctx : TxContext.
Variable params : HTLCParams.

Hypothesis sized : wellSized params.
Hypothesis locktime_range : 0 <= locktime params <= 4294967295.

Lemma push_ok (d : list byte) (st : list (list byte)) :
  (length d <= 520)%nat -> push d st = Some (d :: st).
Proof.
  intros H. unfold push, MAX_SCRIPT_ELEMENT_SIZE.
  rewrite (proj2 (Nat.leb_le _ _) H). reflexivity.
Qed.

Lemma castToBool_boolItem (b : bool) : castToBool (boolItem b) = b.
Proof. destruct b; reflexivity. Qed.

(** The script on a stack whose top item is true: the hash branch. *)
Lemma run_htlc_true (top : list byte) (st : list (list byte)) :
  castToBool top = true ->
  run checksig ctx (htlcChunks params) [] (top :: st) =
  match st with
  | secret :: sig :: st2 =>
      if bool_decide (hashlock params = SHA256.sha256 secret)
      then Some (boolItem (checksig sig (recipientPubkey params)) :: st2)
      else None
  | _ => None
  end.
Proof.
  intros Ht. destruct sized as (S1 & S2 & S3).
  unfold htlcChunks. cbn [run forallb]. rewrite Ht. cbn [forallb andb].
  destruct st as [|secret st1]; [reflexivity|]. cbn [execOp].
  rewrite (push_ok _ _ S1). cbn [execOp].
  destruct st1 as [|sig st2].
  - case_bool_decide; [|reflexivity]. rewrite (push_ok _ _ S2). reflexivity.
  - case_bool_decide; [|reflexivity]. rewrite (push_ok _ _ S2). reflexivity.
Qed.

(** The script on a stack whose top item is false: the timeout branch. *)
Lemma run_htlc_false (top : list byte) (st : list (list byte)) :
  castToBool top = false ->
  run checksig ctx (htlcChunks params) [] (top :: st) =
  if checkLockTime ctx (locktime params) then
    match st with
    | sig :: st2 => Some (boolItem (checksig sig (refundPubkey params)) :: st2)
    | [] => None
    end
  else None.
Proof.
  intros Ht. destruct sized as (S1 & S2 & S3).
  unfold htlcChunks. cbn [run forallb]. rewrite Ht. cbn [forallb andb negb].
  rewrite push_ok by (pose proof (scriptNumEncode_length (locktime params)); lia).
  cbn [execOp]. rewrite (scriptNum_roundtrip _ locktime_range).
  destruct (checkLockTime ctx (locktime params)); [|reflexivity].
  cbn [execOp]. rewrite (push_ok _ _ S3).
  destruct st as [|sig st2]; reflexivity.
Qed.

Lemma sized_items_iff (items : list (list byte)) :
  forallb (fun d => (length d <=? MAX_SCRIPT_ELEMENT_SIZE)%nat) items = true <->
  Forall sizedItem items.
Proof.
  rewrite forallb_forall, Forall_forall. unfold sizedItem, MAX_SCRIPT_ELEMENT_SIZE.
  split; intros H d Hd.
  - apply Nat.leb_le, H, list_elem_of_In, Hd.
  - apply Nat.leb_le, H, list_elem_of_In, Hd.
Qed.

(** Every valid spend of the lock output, whatever witness it brings,
    either presents a preimage of the hashlock with a signature of the
    recipient key, or comes in a transaction whose locktime has reached the
    script's, with a non-final sequence number and a signature of the refund
    key; and exactly the three-item and two-item witnesses of these two
    forms are valid. *)
Theorem htlc_spend_needs_secret_or_timeout (items : list (list byte)) :
  spendValid checksig ctx (htlcChunks params) items = true <->
  Forall sizedItem items /\
  ((exists sig secret selector,
      items = [sig; secret; selector] /\ castToBool selector = true /\
      SHA256.sha256 secret = hashlock params /\
      checksig sig (recipientPubkey params) = true) \/
   (exists sig selector,
      items = [sig; selector] /\ castToBool selector = false /\
      checkLockTime ctx (locktime params) = true /\
      checksig sig (refundPubkey params) = true)).
Proof.
  unfold spendValid. rewrite andb_true_iff, sized_items_iff.
  apply and_iff_compat_l.
  destruct (rev items) as [|top st] eqn:Er.
  { assert (items = []) by (apply (f_equal (@rev _)) in Er; rewrite rev_involutive in Er;
                            exact Er).
    subst items. cbn. split; [discriminate|].
    intros [(? & ? & ? & H & _)|(? & ? & H & _)]; discriminate. }
  assert (Ei : items = rev st ++ [top]).
  { apply (f_equal (@rev _)) in Er. rewrite rev_involutive in Er. exact Er. }
  destruct (castToBool top) eqn:Et.
  - rewrite (run_htlc_true top st Et).
    destruct st as [|secret [|sig st2]].
    + split; [discriminate|]. subst items. cbn.
      intros [(? & ? & ? & H & _)|(? & ? & H & _)]; discriminate.
    + split; [discriminate|]. subst items. cbn.
      intros [(? & ? & ? & H & _)|(? & ? & H & Hf & _)]; [discriminate|].
      injection H as <- <-. congruence.
    + case_bool_decide as Hh.
      * destruct st2 as [|x st3].
        -- rewrite castToBool_boolItem. subst items. cbn. split.
           ++ intros Hc. left. exists sig, secret, top. auto.
           ++ intros [(? & ? & ? & H & _ & _ & Hc)|(? & ? & H & _)]; [|discriminate].
              injection H as <- <- <-. exact Hc.
        -- split; [discriminate|]. subst items. cbn [rev].
           intros [(? & ? & ? & H & _)|(? & ? & H & _)];
             apply (f_equal (@length _)) in H; rewrite !length_app in H; cbn in H; lia.
      * split; [discriminate|]. subst items. cbn [rev].
        intros [(? & s' & ? & H & _ & Hs & _)|(? & ? & H & _)].
        -- assert (Hl : length st2 = 0%nat).
           { apply (f_equal (@length _)) in H. rewrite !length_app in H. cbn in H.
             rewrite length_rev in H. lia. }
           destruct st2; [|discriminate]. cbn in H. injection H as <- <- <-.
           congruence.
        -- apply (f_equal (@length _)) in H; rewrite !length_app in H; cbn in H; lia.
  - rewrite (run_htlc_false top st Et).
    destruct (checkLockTime ctx (locktime params)) eqn:Ec.
    + destruct st as [|sig [|x st3]].
      * split; [discriminate|]. subst items. cbn.
        intros [(? & ? & ? & H & _)|(? & ? & H & _)]; discriminate.
      * rewrite castToBool_boolItem. subst items. cbn. split.
        -- intros Hc. right. exists sig, top. auto.
        -- intros [(? & ? & ? & H & _)|(? & ? & H & _ & _ & Hc)]; [discriminate|].
           injection H as <- <-. exact Hc.
      * split; [discriminate|]. subst items. cbn [rev].
        intros [(? & ? & ? & H & Hb & _)|(? & ? & H & _)].
        -- assert (Hl : length st3 = 0%nat).
           { apply (f_equal (@length _)) in H. rewrite !length_app in H. cbn in H.
             rewrite length_rev in H. lia. }
           destruct st3; [|discriminate]. cbn in H. injection H as <- <- <-.
           congruence.
        -- apply (f_equal (@length _)) in H; rewrite !length_app in H; cbn in H; lia.
    + split; [discriminate|]. subst items.
      intros [(? & ? & ? & H & Hb & _)|(? & ? & H & _ & Hc & _)]; [|discriminate].
      assert (Hl : length st = 2%nat).
      { apply (f_equal (@length _)) in H. rewrite !length_app in H. cbn in H.
        rewrite length_rev in H. lia. }
      destruct st as [|a [|b' [|? ?]]]; try discriminate. cbn in H.
      injection H as <- <- <-. congruence.
Qed.

End ScriptSpends.

Section BuilderSpends.
Import Btc Script.
Local Open Scope Z_scope.

Variable compile : list chunk -> list byte.
Variable p2wsh : list byte -> option string * option (list byte).
Variable checksig : list byte -> list byte -> bool.
Variable params : HTLCParams.

Hypothesis sized : wellSized params.
Hypothesis locktime_range : 0 <= locktime params <= 4294967295.

Lemma createHTLCScript_redeemScript (s : HTLCScript) :
  createHTLCScript compile p2wsh params = Ok s ->
  redeemScript s = compile (htlcChunks params).
Proof.
  unfold createHTLCScript.
  destruct (p2wsh _) as [[a|] [o|]]; try discriminate.
  intros [= <-]. reflexivity.
Qed.

(** The item array the finalizer of [buildRedeemTx] assembles, for a script
    [createHTLCScript] made from [params], ends with the compiled script of
    [params] and takes its hash branch: as the witness of the first input
    of a transaction it is a valid spend of the lock output exactly when the
    secret hashes, under SHA-256, to the script's hashlock and the signature
    verifies against the recipient key (both within the element size
    limit).  The finalizer does not check the secret; with a wrong secret
    the spend is invalid. *)
Theorem redeem_witness_valid_iff_preimage (s : HTLCScript)
    (sig secret : list byte) (tx : Transaction) (i : TxInput)
    (rest : list TxInput) :
  createHTLCScript compile p2wsh params = Ok s ->
  ins tx = i :: rest ->
  witness i = redeemWitness sig secret s ->
  last (witness i) = Some (compile (htlcChunks params)) /\
  stackItems tx = [sig; secret; [x01]] /\
  (spendValid checksig (contextOf tx) (htlcChunks params) (stackItems tx) = true <->
   (length sig <= 520)%nat /\ (length secret <= 520)%nat /\
   SHA256.sha256 secret = hashlock params /\
   checksig sig (recipientPubkey params) = true).
Proof.
  intros Hs Hi Hw. apply createHTLCScript_redeemScript in Hs.
  unfold stackItems. rewrite Hi, Hw. unfold redeemWitness.
  split; [cbn; f_equal; exact Hs|]. cbn [removelast]. split; [reflexivity|].
  unfold spendValid. cbn [rev app forallb].
  rewrite (run_htlc_true checksig _ params sized [x01] [secret; sig] eq_refl).
  unfold MAX_SCRIPT_ELEMENT_SIZE. cbn [length Nat.leb]. rewrite andb_true_r.
  split.
  - intros Hv. apply andb_true_iff in Hv. destruct Hv as [Hsz Hv].
    apply andb_true_iff in Hsz. destruct Hsz as [A B].
    apply Nat.leb_le in A, B.
    case_bool_decide as Hh; [|discriminate].
    rewrite castToBool_boolItem in Hv. auto.
  - intros (A & B & Hh & Hc).
    rewrite (proj2 (Nat.leb_le _ _) A), (proj2 (Nat.leb_le _ _) B). cbn [andb].
    rewrite bool_decide_eq_true_2 by auto.
    rewrite castToBool_boolItem. exact Hc.
Qed.

(** The item array the finalizer of [buildRefundTx] assembles, for a script
    [createHTLCScript] made from [params], ends with the compiled script of
    [params] and takes its timeout branch: as the witness of the first
    input of a transaction, with the sequence number [0xfffffffe] the
    builder gives that input, it is a valid spend of the lock output exactly
    when the transaction's locktime has reached the script's locktime (both
    being block heights or both being times) and the signature verifies
    against the refund key. *)
Theorem refund_witness_valid_iff_locktime (s : HTLCScript) (sig : list byte)
    (tx : Transaction) (i : TxInput) (rest : list TxInput) :
  createHTLCScript compile p2wsh params = Ok s ->
  ins tx = i :: rest ->
  witness i = refundWitness sig s ->
  in_sequence i = 4294967294 ->
  last (witness i) = Some (compile (htlcChunks params)) /\
  stackItems tx = [sig; [x00]] /\
  (spendValid checksig (contextOf tx) (htlcChunks params) (stackItems tx) = true <->
   (length sig <= 520)%nat /\
   locktime params <= tx_locktime tx /\
   (tx_locktime tx <? LOCKTIME_THRESHOLD) = (locktime params <? LOCKTIME_THRESHOLD) /\
   checksig sig (refundPubkey params) = true).
Proof.
  intros Hs Hi Hw Hseq. apply createHTLCScript_redeemScript in Hs.
  unfold stackItems, spendValid, contextOf. rewrite Hi, Hw, Hseq.
  unfold refundWitness. split; [cbn; f_equal; exact Hs|].
  cbn [removelast rev app forallb]. split; [reflexivity|].
  rewrite (run_htlc_false checksig _ params sized locktime_range [x00] [sig] eq_refl).
  unfold MAX_SCRIPT_ELEMENT_SIZE. cbn [length Nat.leb]. rewrite !andb_true_r.
  unfold checkLockTime. cbn [ctx_locktime ctx_sequence].
  change (4294967294 =? SEQUENCE_FINAL) with false. cbn [negb]. rewrite andb_true_r.
  rewrite (proj2 (Z.leb_le 0 (locktime params))) by lia. cbn [andb].
  split.
  - intros Hv. apply andb_true_iff in Hv. destruct Hv as [A Hv].
    apply Nat.leb_le in A.
    destruct (Bool.eqb _ _) eqn:Eb; [|discriminate]. cbn [andb] in Hv.
    destruct (Z.leb_spec (locktime params) (tx_locktime tx)); [|discriminate].
    rewrite castToBool_boolItem in Hv. apply Bool.eqb_prop in Eb. auto.
  - intros (A & B & C & D).
    rewrite (proj2 (Nat.leb_le _ _) A), C, Bool.eqb_reflx. cbn [andb].
    rewrite (proj2 (Z.leb_le _ _) B). rewrite castToBool_boolItem. exact D.
Qed.

End BuilderSpends.

(** ** Concrete runs of the further properties *)


Lemma create_discloses_secret_by_direction_witness :
  demoCreateObject !! "secret"%string = Some (Server.JStr (Buf.toHex demoSecretBytes)).
Proof.
  assert (H : fst (Coordinator.create 0 demoSecretBytes demoBody emptyWorld)
              = {| Server.code := 200; Server.body := Server.BObj demoCreateObject |})
    by (vm_compute; reflexivity).
  destruct (create_discloses_secret_by_direction 0 demoSecretBytes demoBody
              emptyWorld demoCreateObject H) as [Hs _].
  apply Hs. reflexivity.
Defined.

Lemma created_secret_completes_swap_witness :
  Server.code
    (fst (Server.submit_secret (demoEnv 20)
            (Coordinator.next_rowid (Server.db emptyWorld))
            (Some (Coordinator.generateSecret demoSecretBytes))
            (snd (Coordinator.create 0 demoSecretBytes demoBody emptyWorld)))) = 200.
Proof.
  assert (H1 : demoSecretBytes <> []) by (vm_compute; discriminate).
  assert (H2 : Server.code
                 (fst (Coordinator.create 0 demoSecretBytes demoBody emptyWorld)) = 200)
    by (vm_compute; reflexivity).
  destruct (created_secret_completes_swap 0 demoSecretBytes demoBody emptyWorld
              (demoEnv 20) H1 H2) as [H _].
  exact H.
Defined.


Lemma created_swap_claimable_on_chain_witness :
  exists st,
    Server.chain (snd (Server.fund_eth (demoEnv 10)
                         (Coordinator.next_rowid (Server.db emptyWorld))
                         (snd (Coordinator.create 0 demoSecretBytes demoBody emptyWorld))))
      !! Server.new_address (demoEnv 10) = Some st /\
    EthEscrow.hashlock st = SHA256.sha256 demoSecretBytes.
Proof.
  assert (Hlen : length demoSecretBytes = 32%nat) by reflexivity.
  assert (H : Server.code
                (fst (Coordinator.create 0 demoSecretBytes demoBody emptyWorld)) = 200)
    by (vm_compute; reflexivity).
  assert (H2 : Server.code
                 (fst (Server.fund_eth (demoEnv 10)
                         (Coordinator.next_rowid (Server.db emptyWorld))
                         (snd (Coordinator.create 0 demoSecretBytes demoBody
                                 emptyWorld)))) = 200)
    by (vm_compute; reflexivity).
  destruct (created_swap_claimable_on_chain 0 demoSecretBytes demoBody emptyWorld
              (demoEnv 10) Hlen H H2) as (st & Hst & _ & Hhl & _).
  exists st. split; [exact Hst|exact Hhl].
Defined.


Lemma claim_eth_rejects_long_secret_witness :
  Server.code (fst (Server.claim_eth (demoEnv 20) 1 (Some demoSecretHex)
                      demoCompleted)) <> 200.
Proof.
  assert (H : (32 < String.length demoSecretHex)%nat) by (vm_compute; lia).
  destruct (claim_eth_rejects_long_secret (demoEnv 20) 1 demoSecretHex demoCompleted H)
    as [G _].
  exact G.
Defined.

Lemma funded_escrow_refundable_after_expiry_witness :
  Server.code
    (fst (Server.refund_eth (demoEnv 1000) 1
            (snd (Server.fund_eth (demoEnv 10) 1 demoWorld)))) = 200.
Proof.
  assert (H1 : Server.code (fst (Server.fund_eth (demoEnv 10) 1 demoWorld)) = 200)
    by (vm_compute; reflexivity).
  assert (H2 : Server.new_address (demoEnv 10) <> ""%string) by discriminate.
  assert (H3 : Server.wallet (demoEnv 1000) = Server.wallet (demoEnv 10))
    by reflexivity.
  assert (H4 : forall swap, Server.db demoWorld !! 1 = Some swap ->
                 Server.expiration swap <= Server.now (demoEnv 1000) /\
                 Server.expiration swap <= Server.block_time (demoEnv 1000)).
  { intros swap H. vm_compute in H. injection H as <-.
    vm_compute. split; discriminate. }
  destruct (funded_escrow_refundable_after_expiry (demoEnv 10) (demoEnv 1000) 1
              demoWorld H1 H2 H3 H4) as [H _].
  exact H.
Defined.

Lemma swap_terms_never_change_witness :
  exists r',
    Server.db (Coordinator.play demoWorld
                 [Coordinator.Handle (demoEnv 10) (Server.FundEth 1);
                  Coordinator.Create 11 demoSecretBytes demoBody]) !! 1 = Some r' /\
    Coordinator.same_swap_terms demoSwap r'.
Proof.
  apply (swap_terms_never_change demoWorld
           [Coordinator.Handle (demoEnv 10) (Server.FundEth 1);
            Coordinator.Create 11 demoSecretBytes demoBody] 1 demoSwap).
  vm_compute. reflexivity.
Defined.

Lemma swap_progress_never_undone_witness :
  exists r',
    Server.db (Coordinator.play demoWorld
                 [Coordinator.Handle (demoEnv 10) (Server.FundEth 1);
                  Coordinator.Handle (demoEnv 12)
                    (Server.FundBtc 1 (Some "63a8"%string) (Some "f0"%string))])
      !! 1 = Some r' /\
    Coordinator.progress demoSwap r'.
Proof.
  apply (swap_progress_never_undone demoWorld
           [Coordinator.Handle (demoEnv 10) (Server.FundEth 1);
            Coordinator.Handle (demoEnv 12)
              (Server.FundBtc 1 (Some "63a8"%string) (Some "f0"%string))] 1 demoSwap).
  vm_compute. reflexivity.
Defined.

Lemma revealed_swap_shows_secret_witness :
  exists swap o,
    Server.db demoWorld !! 1 = Some swap /\
    Server.get_swap 1 (snd (Server.submit_secret (demoEnv 20) 1 (Some demoSecretHex)
                              demoWorld))
      = {| Server.code := 200; Server.body := Server.BObj o |} /\
    o !! "secret"%string = Some (Server.opt_str (Server.secret swap)) /\
    o !! "secret_revealed"%string = Some (Server.JNum 1) /\
    o !! "status"%string = Some (Server.JStr "completed").
Proof.
  apply (revealed_swap_shows_secret (demoEnv 20) 1 demoSecretHex demoWorld).
  vm_compute. reflexivity.
Defined.

Lemma get_swaps_lists_matching_newest_first_witness :
  In demoSwap (Server.select_swaps (Some "pending"%string) None demoWorld).
Proof.
  apply (get_swaps_lists_matching_newest_first (Some "pending"%string) None demoWorld).
  split; [exists 1; vm_compute; reflexivity|].
  split.
  - intros s [= <-] _. reflexivity.
  - intros d H. discriminate H.
Defined.

Lemma fund_eth_button_hidden_after_fund_btc_witness :
  exists o',
    Server.get_swap 1 (snd (Server.fund_btc (demoEnv 10) 1 (Some "63a8"%string)
                              (Some "f0"%string) demoWorld))
      = {| Server.code := 200; Server.body := Server.BObj o' |} /\
    Coordinator.showFundEthButton o' = false.
Proof.
  assert (H : Server.db demoWorld !! 1 = Some demoSwap) by (vm_compute; reflexivity).
  apply (fund_eth_button_hidden_after_fund_btc (demoEnv 10) 1 "63a8" "f0" demoWorld
           demoSwap H); discriminate.
Defined.

Lemma manager_claim_secret_bytes_witness :
  EthEscrowManager.claimSecretBytes (Coordinator.managerGenerateSecret demoSecretBytes)
  = None.
Proof.
  apply (manager_claim_secret_bytes demoSecretText).
  vm_compute. reflexivity.
Defined.

Lemma demoParams_sized : Script.wellSized demoParams.
Proof.
  unfold Script.wellSized, demoParams. cbn [Btc.hashlock Btc.recipientPubkey Btc.refundPubkey].
  rewrite sha256_length.
  assert (H1 : length demoPubkey = 33%nat) by (vm_compute; reflexivity).
  assert (H2 : length demoRefundPubkey = 33%nat) by (vm_compute; reflexivity).
  rewrite H1, H2. lia.
Qed.

Lemma demoParams_range : 0 <= Btc.locktime demoParams <= 4294967295.
Proof. vm_compute. split; discriminate. Qed.

Lemma htlc_spend_needs_secret_or_timeout_witness :
  Forall Script.sizedItem [[x30]; demoSecretBytes; [x01]] /\
  ((exists sig secret selector,
      [[x30]; demoSecretBytes; [x01]] = [sig; secret; selector] /\
      Script.castToBool selector = true /\
      SHA256.sha256 secret = Btc.hashlock demoParams /\
      demoChecksig sig (Btc.recipientPubkey demoParams) = true) \/
   (exists sig selector,
      [[x30]; demoSecretBytes; [x01]] = [sig; selector] /\
      Script.castToBool selector = false /\
      Script.checkLockTime demoCtx (Btc.locktime demoParams) = true /\
      demoChecksig sig (Btc.refundPubkey demoParams) = true)).
Proof.
  assert (H : Script.spendValid demoChecksig demoCtx (Btc.htlcChunks demoParams)
                [[x30]; demoSecretBytes; [x01]] = true) by (vm_compute; reflexivity).
  destruct (htlc_spend_needs_secret_or_timeout demoChecksig demoCtx demoParams
              demoParams_sized demoParams_range [[x30]; demoSecretBytes; [x01]])
    as [G _].
  exact (G H).
Defined.

Lemma demoHtlcScript_created :
  Btc.createHTLCScript demoCompile demoP2wsh demoParams = Ok demoHtlcScript.
Proof. reflexivity. Qed.

Lemma redeem_witness_valid_iff_preimage_witness :
  last (Btc.witness demoRedeemInput) = Some (demoCompile (Btc.htlcChunks demoParams)) /\
  Script.stackItems demoRedeemTx = [[x30]; demoSecretBytes; [x01]] /\
  (Script.spendValid demoChecksig (Script.contextOf demoRedeemTx)
     (Btc.htlcChunks demoParams) (Script.stackItems demoRedeemTx) = true <->
   (length [x30] <= 520)%nat /\ (length demoSecretBytes <= 520)%nat /\
   SHA256.sha256 demoSecretBytes = Btc.hashlock demoParams /\
   demoChecksig [x30] (Btc.recipientPubkey demoParams) = true).
Proof.
  exact (redeem_witness_valid_iff_preimage demoCompile demoP2wsh demoChecksig
           demoParams demoParams_sized demoHtlcScript [x30] demoSecretBytes
           demoRedeemTx demoRedeemInput [] demoHtlcScript_created eq_refl eq_refl).
Defined.

Lemma refund_witness_valid_iff_locktime_witness :
  last (Btc.witness demoRefundInput) = Some (demoCompile (Btc.htlcChunks demoParams)) /\
  Script.stackItems demoRefundTx = [[x30]; [x00]] /\
  (Script.spendValid demoChecksig (Script.contextOf demoRefundTx)
     (Btc.htlcChunks demoParams) (Script.stackItems demoRefundTx) = true <->
   (length [x30] <= 520)%nat /\
   Btc.locktime demoParams <= Btc.tx_locktime demoRefundTx /\
   (Btc.tx_locktime demoRefundTx <? Script.LOCKTIME_THRESHOLD)
     = (Btc.locktime demoParams <? Script.LOCKTIME_THRESHOLD) /\
   demoChecksig [x30] (Btc.refundPubkey demoParams) = true).
Proof.
  exact (refund_witness_valid_iff_locktime demoCompile demoP2wsh demoChecksig
           demoParams demoParams_sized demoParams_range demoHtlcScript [x30]
           demoRefundTx demoRefundInput [] demoHtlcScript_created eq_refl eq_refl
           eq_refl).
Defined.
